(** * xastropy: continuum model, galaxy-field association and the LLS fitting GUI

    A shallow embedding of the numerical core of
    - [xastropy/spec/continuum.py]   ([init_conti_dict], [get_telfer_spec]),
    - [xastropy/cgm/field.py]        ([IgmGalaxyField]),
    - [xastropy/xguis/xfitllsgui.py] ([XFitLLSGUI]),
    and the properties of these functions.

    Conventions.
    - Python floats and the entries of numpy float arrays are IEEE binary64
      numbers: Rocq's primitive [float], with its own [+ - * /] and
      comparisons (a comparison with NaN is [false]).
    - One-dimensional numpy arrays are lists.  Astropy quantities are
      their values in the unit the source works in (Angstrom, km/s, kpc,
      arcmin, degrees).
    - A Python [dict] with string keys is a [gmap string _].
    - A raised exception is the [Raise] branch of [result].
    - A Python [unicode] string is the string of its UTF-8 bytes: a
      character is outside ASCII exactly when a byte is 128 or more.
    - Two attributes that hold one numpy array are two fields and a flag
      that says so; a write into the array changes both.
    - The sources are Python 2 modules ([unicode], [PyQt4], [imp]); where
      Python 2 and 3 differ the Python 2 behaviour is taken.
    - Functions of numpy's C library ([exp], [log], [power], ...) and of
      astropy, linetools and pyigm are the fields of the classes [NumLib],
      [LineLib], [AstroLib] and [IgmLib]; every statement holds for all
      their implementations. *)

From Stdlib Require Import Floats.
From stdpp Require Import gmap strings list pretty sorting.

Set Warnings "-inexact-float".

Local Open Scope string_scope.
Local Open Scope list_scope.
Local Open Scope nat_scope.

(** ** Exceptions *)

Inductive exn : Type :=
  | ValueError
  | TypeError
  | IndexError
  | KeyError
  | AttributeError
  | UnicodeEncodeError.

Inductive result (A : Type) : Type :=
  | Ok (a : A)
  | Raise (e : exn).
Arguments Ok {A} a.
Arguments Raise {A} e.

Global Instance result_ret : MRet result := λ A a, Ok a.
Global Instance result_bind : MBind result := λ A B k r,
  match r with
  | Ok a => k a
  | Raise e => Raise e
  end.

Fixpoint result_mapM {A B : Type} (f : A → result B) (l : list A) : result (list B) :=
  match l with
  | [] => Ok []
  | x :: l' => y ← f x; ys ← result_mapM f l'; Ok (y :: ys)
  end.

Definition is_ok {A : Type} (r : result A) : Prop := ∃ a, r = Ok a.

(** ** Python values stored in the continuum dictionary *)

Inductive pyval : Type :=
  | PyNone
  | PyFloat (x : float)
  | PyStr (s : string).

(** [d[k]]: [KeyError] when the key is missing. *)
Definition getitem {V : Type} (d : gmap string V) (k : string) : result V :=
  match d !! k with
  | Some v => Ok v
  | None => Raise KeyError
  end.

(** A dictionary entry used as a number in array arithmetic. *)
Definition as_float (v : pyval) : result float :=
  match v with
  | PyFloat x => Ok x
  | _ => Raise TypeError
  end.

(** Python 2's [a > b] when [a] may be [None]: [None] is smaller than
    every number. *)
Definition py2_gt (a : option float) (b : float) : bool :=
  match a with
  | None => false
  | Some x => PrimFloat.ltb b x
  end.

(** ** Python strings *)

(** The characters [str.strip()] removes: space, tab, line feed, carriage
    return, vertical tab, form feed. *)
Definition is_space (c : Ascii.ascii) : bool :=
  let n := Ascii.nat_of_ascii c in
  (n =? 32) || (n =? 9) || (n =? 10) || (n =? 13) || (n =? 11) || (n =? 12).

Fixpoint lstrip (s : string) : string :=
  match s with
  | String c s' => if is_space c then lstrip s' else s
  | EmptyString => EmptyString
  end.

Fixpoint rstrip (s : string) : string :=
  match s with
  | String c s' =>
      match rstrip s' with
      | EmptyString => if is_space c then EmptyString else String c EmptyString
      | r => String c r
      end
  | EmptyString => EmptyString
  end.

Definition strip (s : string) : string := rstrip (lstrip s).

(** [str(u)] of a [unicode] in Python 2 encodes it as ASCII and raises
    [UnicodeEncodeError] when a character is outside ASCII. *)
Definition is_ascii (c : Ascii.ascii) : bool := Ascii.nat_of_ascii c <? 128.

Fixpoint all_ascii (s : string) : bool :=
  match s with
  | String c s' => is_ascii c && all_ascii s'
  | EmptyString => true
  end.

Definition py2_str (s : string) : result string :=
  if all_ascii s then Ok s else Raise UnicodeEncodeError.

(** A string [str.strip()] leaves alone. *)
Definition stripped (s : string) : Prop := strip s = s.

(** The first character of [s], if any, is not white space. *)
Definition no_lead (s : string) : Prop :=
  match s with
  | String c _ => is_space c = false
  | EmptyString => True
  end.

(** The order in which Python iterates over the keys of a [dict]: some
    order of its keys, fixed by the implementation. *)
Class PyDict : Type := {
  dict_keys : ∀ {V : Type}, gmap string V → list string;
  dict_keys_perm : ∀ (V : Type) (d : gmap string V),
    dict_keys d ≡ₚ (map_to_list d).*1
}.

(** ** numpy on one-dimensional arrays *)

Module NumPy.

(** [a op b] on two arrays: equal lengths, or one of them of length 1
    (broadcast); any other pair of shapes is a [ValueError]. *)
Definition np_binop {A B C : Type} (f : A → B → C) (a : list A) (b : list B)
    : result (list C) :=
  if decide (length a = length b) then Ok (zip_with f a b)
  else match a, b with
       | [x], _ => Ok (map (f x) b)
       | _, [y] => Ok (map (λ x, f x y) a)
       | _, _ => Raise ValueError
       end.

Definition np_mul : list float → list float → result (list float) :=
  np_binop PrimFloat.mul.

(** [a += b]: the result keeps the shape of [a]. *)
Definition np_iadd (a b : list float) : result (list float) :=
  if decide (length a = length b) then Ok (zip_with PrimFloat.add a b)
  else match b with
       | [y] => Ok (map (λ x, PrimFloat.add x y) a)
       | _ => Raise ValueError
       end.

(** [a[mask]] for a boolean mask. *)
Fixpoint mask_filter {A : Type} (a : list A) (mask : list bool) : list A :=
  match a, mask with
  | x :: a', m :: mask' =>
      if m then x :: mask_filter a' mask' else mask_filter a' mask'
  | _, _ => []
  end.

Definition np_mask_get {A : Type} (a : list A) (mask : list bool) : result (list A) :=
  if decide (length mask = length a) then Ok (mask_filter a mask)
  else Raise IndexError.

(** [a[mask] = v]: the values of [v] go, in order, to the selected
    positions. *)
Fixpoint mask_scatter {A : Type} (a : list A) (mask : list bool) (v : list A) : list A :=
  match a, mask with
  | x :: a', m :: mask' =>
      if m then
        match v with
        | y :: v' => y :: mask_scatter a' mask' v'
        | [] => x :: mask_scatter a' mask' []
        end
      else x :: mask_scatter a' mask' v
  | _, _ => a
  end.

Definition count_true (mask : list bool) : nat :=
  length (filter (λ m, m = true) mask).

Definition np_mask_set {A : Type} (a : list A) (mask : list bool) (v : list A)
    : result (list A) :=
  if decide (length mask = length a) then
    if decide (length v = count_true mask) then Ok (mask_scatter a mask v)
    else match v with
         | [y] => Ok (mask_scatter a mask (replicate (count_true mask) y))
         | _ => Raise ValueError
         end
  else Raise IndexError.

(** [np.where(mask)[0]]: the positions of the [True] entries. *)
Fixpoint where_from (i : nat) (mask : list bool) : list nat :=
  match mask with
  | [] => []
  | m :: mask' => if m then i :: where_from (S i) mask' else where_from (S i) mask'
  end.

Definition np_where (mask : list bool) : list nat := where_from 0 mask.

(** [a[i]] for a Python integer: a negative index counts from the end. *)
Definition np_index {A : Type} (a : list A) (i : Z) : result A :=
  let n := Z.of_nat (length a) in
  let j := if decide (i < 0)%Z then (i + n)%Z else i in
  if decide (0 ≤ j < n)%Z then
    match a !! Z.to_nat j with
    | Some x => Ok x
    | None => Raise IndexError
    end
  else Raise IndexError.

(** [a[idx]] for an integer index array. *)
Fixpoint np_take {A : Type} (a : list A) (idx : list Z) : result (list A) :=
  match idx with
  | [] => Ok []
  | i :: idx' => x ← np_index a i; xs ← np_take a idx'; Ok (x :: xs)
  end.

(** [np.arange(lo, hi)] on integers. *)
Definition np_arange (lo hi : Z) : list Z :=
  map (λ k, (lo + Z.of_nat k)%Z) (seq 0 (Z.to_nat (hi - lo))).

(** [np.argmin] over floats: the scan of numpy's [argmin] loop, which
    moves to position [i] unless [a[i] >= current minimum], and stops at
    the first NaN. *)
Definition is_nan (x : float) : bool := negb (PrimFloat.eqb x x).

Fixpoint argmin_scan (mp : float) (best i : nat) (a : list float) : nat :=
  match a with
  | [] => best
  | x :: a' =>
      if PrimFloat.leb mp x then argmin_scan mp best (S i) a'
      else if is_nan x then i
      else argmin_scan x i (S i) a'
  end.

Definition np_argmin (a : list float) : result nat :=
  match a with
  | [] => Raise ValueError
  | x :: a' => Ok (if is_nan x then 0 else argmin_scan x 0 1 a')
  end.

(** [np.argmin] over counts: the first position of the least value. *)
Fixpoint argmin_nat_scan (mp best i : nat) (a : list nat) : nat :=
  match a with
  | [] => best
  | x :: a' =>
      if decide (mp ≤ x) then argmin_nat_scan mp best (S i) a'
      else argmin_nat_scan x i (S i) a'
  end.

Definition np_argmin_nat (a : list nat) : result nat :=
  match a with
  | [] => Raise ValueError
  | x :: a' => Ok (argmin_nat_scan x 0 1 a')
  end.

(** [np.min] and [np.max] of an integer index array. *)
Definition np_min_idx (a : list nat) : result nat :=
  match a with
  | [] => Raise ValueError
  | x :: a' => Ok (foldr Nat.min x a')
  end.

Definition np_max_idx (a : list nat) : result nat :=
  match a with
  | [] => Raise ValueError
  | x :: a' => Ok (foldr Nat.max x a')
  end.

(** [np.min] of a float array without NaN. *)
Definition np_min (a : list float) : result float :=
  match a with
  | [] => Raise ValueError
  | x :: a' => Ok (fold_left (λ m y, if PrimFloat.ltb y m then y else m) a' x)
  end.

(** [np.roll(a, k)] for [0 <= k]: the last [k mod n] entries come first. *)
Definition np_roll {A : Type} (a : list A) (k : nat) : list A :=
  let n := length a in
  let s := k `mod` n in
  drop (n - s) a ++ take (n - s) a.

(** [np.diff]. *)
Fixpoint np_diff (a : list float) : list float :=
  match a with
  | x :: (y :: _) as a' => PrimFloat.sub y x :: np_diff a'
  | _ => []
  end.

(** [np.ones(n)] for a Python integer [n]. *)
Definition np_ones (n : Z) : result (list float) :=
  if decide (n < 0)%Z then Raise ValueError
  else Ok (replicate (Z.to_nat n) 1%float).

(** [M[:,kk] = v] on a column of [n] rows. *)
Definition column {A : Type} (n : nat) (v : list A) : result (list A) :=
  if decide (length v = n) then Ok v
  else match v with
       | [x] => Ok (replicate n x)
       | _ => Raise ValueError
       end.

(** The functions of numpy's C library the sources call. *)
Class NumLib : Type := {
  fpow : float → float → float;
  fexp : float → float;
  flog : float → float;
  flog10 : float → float;
  np_median : list float → float;
  np_interp : list float → list float → list float → list float;
  np_arange_step : float → float → float → list float
}.

(** [t[idx]] for an array of positions, as [np.where] returns them. *)
Definition table_take {A : Type} (t : list A) (idx : list nat) : result (list A) :=
  result_mapM (λ i, match t !! i with Some x => Ok x | None => Raise IndexError end) idx.

(** [np.unique] on strings: sorted, without repetitions. *)
Definition string_le (s1 s2 : string) : Prop := String.leb s1 s2 = true.

Global Instance string_le_dec : RelDecision string_le :=
  λ s1 s2, decide (String.leb s1 s2 = true).

Definition np_unique (a : list string) : list string :=
  remove_dups (merge_sort string_le a).

(** [x in a] for a float column: some entry [== x]. *)
Definition np_contains (a : list float) (x : float) : bool :=
  existsb (λ y, PrimFloat.eqb y x) a.

End NumPy.

(** ** linetools' spectrum class *)

Module Spectra.

(** An [XSpectrum1D]: wavelengths, fluxes, one-sigma errors and the name
    of the file it came from. *)
Record XSpectrum1D : Type := Spectrum {
  dispersion : list float;
  flux : list float;
  sig : list float;
  filename : string
}.

Definition set_flux (f : list float) (s : XSpectrum1D) : XSpectrum1D :=
  {| dispersion := dispersion s; flux := f; sig := sig s; filename := filename s |}.

(** [XSpectrum1D.from_tuple((wave, flux))]. *)
Definition from_tuple (wave fluxes : list float) : XSpectrum1D :=
  {| dispersion := wave; flux := fluxes; sig := []; filename := "none" |}.

End Spectra.

(** ** [xastropy/spec/continuum.py] *)

Module Continuum.
Import NumPy Spectra.

(** [init_conti_dict(Norm, tilt, tilt2, piv_wv, piv_wv2, igm, fN_gamma,
    LL_flatten)]. *)
Definition init_conti_dict (Norm tilt tilt2 piv_wv : float)
    (piv_wv2 : option float) (igm : pyval) (fN_gamma : float)
    (LL_flatten : pyval) : result (gmap string pyval) :=
  let conti_dict : gmap string pyval :=
    <["Norm" := PyFloat Norm]>
    (<["tilt" := PyFloat tilt]>
    (<["piv_wv" := PyFloat piv_wv]>
    (<["piv_wv2" := match piv_wv2 with Some p => PyFloat p | None => PyNone end]>
    (<["tilt2" := PyFloat tilt2]>
    (<["igm" := igm]>
    (<["fN_gamma" := PyFloat fN_gamma]>
    (<["LL_flatten" := LL_flatten]> ∅))))))) in
  let conti_dict :=
    match piv_wv2 with
    | None => delete "piv_wv2" conti_dict
    | Some _ => conti_dict
    end in
  if py2_gt piv_wv2 piv_wv then Raise ValueError
  else Ok conti_dict.

(** The defaults of the last three arguments. *)
Definition default_igm : pyval := PyStr "None".
Definition default_fN_gamma : float := (-1)%float.
Definition default_LL_flatten : pyval := PyStr "True".

(** The rows of [telfer_hst_comp01_rq.ascii]: rest wavelength and flux. *)
Record telfer_row : Type := TelferRow {
  wrest : float;
  tflux : float
}.

(** [xastropy.igm.tau_eff.map_etl] on [dict(ilambda, zem, fN_model)]: the
    effective optical depth at an observed wavelength for a quasar at
    [zem], with the default f(N) model and, if given, its [gamma]
    replaced. *)
Class IgmLib : Type := {
  map_etl : float → float → option float → float
}.

(** [get_telfer_spec(zqso, igm, fN_gamma, LL_flatten)] on the rows read
    from the data file.  The index arrays [np.where(...)[0]] are used only
    to read and write the selected pixels and are kept as the boolean
    masks they come from; [pool.map] keeps the order of its inputs. *)
Definition get_telfer_spec {numlib : NumLib} {igmlib : IgmLib} (telfer : list telfer_row)
    (zqso : float) (igm : bool) (fN_gamma : option float) (LL_flatten : bool)
    : result XSpectrum1D :=
  let wv := map wrest telfer in
  let fl := map tflux telfer in
  match mask_filter fl (map (λ w, PrimFloat.eqb w 1450) wv) with
  | [] => Raise IndexError
  | scale0 :: _ =>
      let disp := map (λ w, w * (1 + zqso))%float wv in
      let flux0 := map (λ f, f / scale0)%float fl in
      if igm then
        let igm_wv := map (λ w, PrimFloat.ltb w 1220) wv in
        let ateff := map (λ w, map_etl w zqso fN_gamma) (mask_filter disp igm_wv) in
        let flux1 :=
          mask_scatter flux0 igm_wv
            (zip_with PrimFloat.mul (mask_filter flux0 igm_wv)
               (map (λ t, fexp (-1 * t)%float) ateff)) in
        if LL_flatten then
          let wv_LL :=
            map (λ d, PrimFloat.ltb (PrimFloat.abs (d / (1 + zqso) - 914)) 3) disp in
          let f_LL := np_median (mask_filter flux1 wv_LL) in
          let wv_low := map (λ d, PrimFloat.ltb (d / (1 + zqso)) 911.7) disp in
          Ok (from_tuple disp
                (zip_with (λ (low : bool) f, if low then f_LL else f) wv_low flux1))
        else Ok (from_tuple disp flux1)
      else Ok (from_tuple disp flux0)
  end.

(** The flux the template is divided by: that of its first row at
    1450 A. *)
Definition telfer_scale (telfer : list telfer_row) : option float :=
  head (map tflux (filter (λ r, PrimFloat.eqb (wrest r) 1450 = true) telfer)).

(** The normalised flux of a row, attenuated by the IGM blueward of
    1220 A. *)
Definition igm_flux {numlib : NumLib} {igmlib : IgmLib} (zqso : float)
    (fN_gamma : option float) (s0 : float) (r : telfer_row) : float :=
  if PrimFloat.ltb (wrest r) 1220
  then (tflux r / s0 * fexp (-1 * map_etl (wrest r * (1 + zqso)) zqso fN_gamma))%float
  else (tflux r / s0)%float.

End Continuum.

(** ** [xastropy/cgm/field.py] *)

Module Field.
Import NumPy.

(** What the module takes from astropy: the angular separation of two
    positions (in degrees), its conversion to arcmin, the cosmology's
    comoving kpc per arcmin at a redshift, and the speed of light in
    km/s. *)
Class AstroLib : Type := {
  separation : float * float → float * float → float;
  to_arcmin : float → float;
  kpc_comoving_per_arcmin : float → float;
  c_kms : float
}.

(** Rows of the three tables. *)
Record galaxy : Type := Galaxy {
  RA : float;
  DEC : float;
  Z : float
}.

Record target : Type := Target {
  TARG_RA : float;
  TARG_DEC : float;
  MASK_NAME : option string  (* [None]: masked *)
}.

Record observation : Type := Observation {
  obs_MASK_NAME : string;
  DATE_OBS : option string  (* [None]: masked *)
}.

Record IgmGalaxyField : Type := IgmField {
  coord : float * float;
  galaxies : option (list galaxy);
  targets : option (list target);
  observing : option (list observation)
}.

Section Methods.
Context {astro : AstroLib}.

(** [calc_rhoimpact(self, obj)], for one row and for a table. *)
Definition rho_of (fld : IgmGalaxyField) (o : galaxy) : float :=
  (to_arcmin (separation (RA o, DEC o) (coord fld))
   * kpc_comoving_per_arcmin (Z o) / (1 + Z o))%float.

Definition calc_rhoimpact (fld : IgmGalaxyField) (obj : list galaxy) : list float :=
  map (rho_of fld) obj.

(** [get_associated_galaxies(self, z, R, dv_tol)]: [R] in kpc, [dv_tol]
    in km/s. *)
Definition dv_of (z : float) (o : galaxy) : float :=
  (c_kms * (Z o - z) / (1 + z))%float.

Definition get_associated_galaxies (fld : IgmGalaxyField) (z R dv_tol : float)
    : result (option (list galaxy * list float)) :=
  match galaxies fld with
  | None => Raise TypeError
  | Some gals =>
      let dv_gal := map (dv_of z) gals in
      let gdz := np_where (map (λ dv, PrimFloat.ltb (PrimFloat.abs dv) dv_tol) dv_gal) in
      if decide (length gdz = 0) then Ok None
      else
        gdz_gal ← table_take gals gdz;
        let rho := calc_rhoimpact fld gdz_gal in
        let gd_rho := np_where (map (λ r, PrimFloat.ltb r R) rho) in
        if decide (length gd_rho = 0) then Ok None
        else
          assoc ← table_take gdz_gal gd_rho;
          rho_assoc ← table_take rho gd_rho;
          Ok (Some (assoc, rho_assoc))
  end.

(** [get_mask_obsdate(self, mask_name)]. *)
Definition get_mask_obsdate (fld : IgmGalaxyField) (mask_name : string)
    : result (list (option string)) :=
  match observing fld with
  | None => Raise ValueError
  | Some obs =>
      let mt := np_where (map (λ r, String.eqb (obs_MASK_NAME r) mask_name) obs) in
      match mt with
      | [] => Raise IndexError
      | mt0 :: _ =>
          r0 ← table_take obs [mt0];
          match r0 with
          | {| DATE_OBS := None |} :: _ => Ok []
          | _ => rows ← table_take obs mt; Ok (map DATE_OBS rows)
          end
      end
  end.

(** "Trim on angular cut first". *)
Definition in_radius (fld : IgmGalaxyField) (theta : float) (t : target) : bool :=
  PrimFloat.ltb (separation (coord fld) (TARG_RA t, TARG_DEC t)) theta.

Definition angular_cut (fld : IgmGalaxyField) (theta : float) (targs : list target)
    : result (option (list target)) :=
  let gdsep := np_where (map (in_radius fld theta) targs) in
  if decide (length gdsep = 0) then Ok None
  else subtab ← table_take targs gdsep; Ok (Some subtab).

(** [tmsk[idx] = True]. *)
Definition set_true (idx : list nat) (tmsk : list bool) : list bool :=
  foldr (λ i msk, <[i := true]> msk) tmsk idx.

(** The loop of [get_observed] over the unique mask names. *)
Fixpoint mark_observed (fld : IgmGalaxyField) (all_masks : list (option string))
    (have_mask : list nat) (uni_masks : list string)
    (tmsk : list bool) (obs_dict : gmap string (list (option string)))
    : result (list bool * gmap string (list (option string))) :=
  match uni_masks with
  | [] => Ok (tmsk, obs_dict)
  | mask :: rest =>
      obs_dates ← get_mask_obsdate fld mask;
      if decide (0 < length obs_dates) then
        let mt2 := np_where (map (λ m, bool_decide (m = Some mask)) all_masks) in
        idx ← table_take have_mask mt2;
        mark_observed fld all_masks have_mask rest
          (set_true idx tmsk) (<[mask := obs_dates]> obs_dict)
      else mark_observed fld all_masks have_mask rest tmsk obs_dict
  end.

(** [get_observed(self, theta, subtab)]. *)
Definition get_observed (fld : IgmGalaxyField) (theta : float)
    (subtab : option (list target))
    : result (option (list target * gmap string (list (option string)))) :=
  match targets fld, observing fld with
  | Some targs, Some _ =>
      sub ← match subtab with
            | None => angular_cut fld theta targs
            | Some st => Ok (Some st)
            end;
      match sub with
      | None => Ok None
      | Some subtab =>
          let tmsk := replicate (length subtab) false in
          let have_mask :=
            np_where (map (λ t, bool_decide (MASK_NAME t ≠ None)) subtab) in
          if decide (length have_mask = 0) then Ok None
          else
            all_masks ← table_take (map MASK_NAME subtab) have_mask;
            let uni_masks := np_unique (omap id all_masks) in
            '(tmsk, obs_dict) ←
              mark_observed fld all_masks have_mask uni_masks tmsk ∅;
            Ok (Some (mask_filter subtab tmsk, obs_dict))
      end
  | _, _ => Raise ValueError
  end.

(** The loop of [get_unobserved] over [enumerate(subtab)]. *)
Fixpoint remove_observed (obs_ra : list float) (kk : nat) (rows : list target)
    (tmsk : list bool) : list bool :=
  match rows with
  | [] => tmsk
  | row :: rest =>
      remove_observed obs_ra (S kk) rest
        (if np_contains obs_ra (TARG_RA row) then <[kk := false]> tmsk else tmsk)
  end.

(** [get_unobserved(self, theta)]. *)
Definition get_unobserved (fld : IgmGalaxyField) (theta : float)
    : result (option (list target)) :=
  match targets fld, observing fld with
  | Some targs, Some _ =>
      sub ← angular_cut fld theta targs;
      match sub with
      | None => Ok None
      | Some subtab =>
          let tmsk := replicate (length subtab) true in
          observed ← get_observed fld theta (Some subtab);
          match observed with
          | None => Raise TypeError
          | Some (obs_tab, odict) =>
              let tmsk := remove_observed (map TARG_RA obs_tab) 0 subtab tmsk in
              Ok (Some (mask_filter subtab tmsk))
          end
      end
  | _, _ => Raise ValueError
  end.

(** The targets within [theta] of the field. *)
Definition targets_within (fld : IgmGalaxyField) (theta : float) : list target :=
  match targets fld with
  | Some targs => filter (λ t, in_radius fld theta t = true) targs
  | None => []
  end.

(** A galaxy is associated with redshift [z] when it is within [dv_tol]
    in velocity and within [R] in impact parameter. *)
Definition in_velocity (z dv_tol : float) (o : galaxy) : bool :=
  PrimFloat.ltb (PrimFloat.abs (c_kms * (Z o - z) / (1 + z))) dv_tol.

Definition in_impact (fld : IgmGalaxyField) (R : float) (o : galaxy) : bool :=
  PrimFloat.ltb (rho_of fld o) R.

(** The partition of the targets within [theta] into observed and
    unobserved ones, as a property of a field and a radius. *)
Definition unobserved_is_complement (fld : IgmGalaxyField) (theta : float) : Prop :=
  ∀ obs_tab obs_dict,
    get_observed fld theta None = Ok (Some (obs_tab, obs_dict)) →
    ∃ unobs,
      get_unobserved fld theta = Ok (Some unobs)
      ∧ ∀ t, t ∈ unobs ↔ t ∈ targets_within fld theta ∧ t ∉ obs_tab.

End Methods.

(** The rows of the observing table for a mask, and whether the mask has
    been observed: [get_mask_obsdate] looks at the date of the first of
    them. *)
Definition mask_rows (obs : list observation) (mask_name : string) : list observation :=
  filter (λ r, obs_MASK_NAME r = mask_name) obs.

Definition mask_observed (obs : list observation) (mask_name : string) : bool :=
  match mask_rows obs mask_name with
  | {| DATE_OBS := Some _ |} :: _ => true
  | _ => false
  end.

Definition target_observed (obs : list observation) (t : target) : bool :=
  match MASK_NAME t with
  | Some m => mask_observed obs m
  | None => false
  end.

Definition has_mask (t : target) : bool := bool_decide (MASK_NAME t ≠ None).

(** The targets whose mask is one of [masks] and has been observed. *)
Definition hit (obs : list observation) (masks : list string) (t : target) : bool :=
  match MASK_NAME t with
  | Some m => bool_decide (m ∈ masks) && mask_observed obs m
  | None => false
  end.

(** The dictionary of observing dates after the loop over [masks]. *)
Definition observed_dates (obs : list observation) (masks : list string)
    (d : gmap string (list (option string))) : gmap string (list (option string)) :=
  fold_left
    (λ d m, if mask_observed obs m then <[m := map DATE_OBS (mask_rows obs m)]> d else d)
    masks d.

End Field.

(** ** [xastropy/xguis/xfitllsgui.py] *)

Module FitLLS.
Import NumPy Spectra.

(** An [AbsLine] with the attributes the GUI sets. *)
Record AbsLine : Type := Line {
  trans : string;
  attrib_z : float;
  attrib_N : float;
  attrib_b : float
}.

(** An [LLSSystem] as the GUI uses it. *)
Record LLSSystem : Type := LLS {
  zabs : float;
  NHI : float;
  bval : float;
  comment : string;  (* a [unicode] *)
  label : string;
  lls_lines : list AbsLine
}.

(** A forest absorber ([GenericAbsSystem]). *)
Record GenericAbsSystem : Type := Forest {
  forest_zabs : float;
  forest_NHI : float;
  lines : list AbsLine
}.

(** The functions of linetools and pyigm the GUI calls. *)
Class LineLib : Type := {
  tau_multi_lls : list float → list LLSSystem → bool → list float;
  voigt_from_abslines : list float → list AbsLine → bool → list float;
  convolve_psf : list float → float → list float;
  fill_lls_lines : float → float → float → list AbsLine
}.

(** The state of an [XFitLLSGUI]. *)
Record gui : Type := Gui {
  conti_dict : gmap string pyval;  (* [self.conti_dict] *)
  base_continuum : option (list float);  (* [self.base_continuum] *)
  base_is_flux : bool;  (* [self.base_continuum] and [self.continuum.flux] are one array *)
  continuum : XSpectrum1D;  (* [self.continuum] *)
  full_model : XSpectrum1D;  (* [self.full_model] *)
  lls_model : option (list float);  (* [self.lls_model] *)
  smooth : option float;  (* [self.smooth] *)
  zqso : option float;  (* [self.zqso] *)
  all_abssys : list LLSSystem;  (* [self.abssys_widg.all_abssys] *)
  all_forest : list GenericAbsSystem;  (* [self.all_forest] *)
  count_lls : nat;  (* [self.count_lls] *)
  spec : XSpectrum1D;  (* [self.spec_widg.spec] *)
  model_shown : bool;  (* [self.spec_widg.model] is [self.full_model] (the same object) when [true], [None] when [false] *)
  bad_model : list nat;  (* [self.spec_widg.bad_model] *)
  dw : float;  (* [self.dw] *)
  skip_wveval : bool;  (* [self.skip_wveval] *)
  llist_plot : bool;  (* [self.llist['Plot']] *)
  outfil : string;  (* [self.outfil] *)
  flag_write : bool;  (* [self.flag_write] *)
  stdout : list string  (* lines printed so far *)
}.

Definition set_conti_dict (v : gmap string pyval) (g : gui) : gui :=
  {| conti_dict := v; base_continuum := base_continuum g; base_is_flux := base_is_flux g; continuum := continuum g; full_model := full_model g; lls_model := lls_model g; smooth := smooth g; zqso := zqso g; all_abssys := all_abssys g; all_forest := all_forest g; count_lls := count_lls g; spec := spec g; model_shown := model_shown g; bad_model := bad_model g; dw := dw g; skip_wveval := skip_wveval g; llist_plot := llist_plot g; outfil := outfil g; flag_write := flag_write g; stdout := stdout g |}.

Definition set_base_continuum (v : option (list float)) (g : gui) : gui :=
  {| conti_dict := conti_dict g; base_continuum := v; base_is_flux := base_is_flux g; continuum := continuum g; full_model := full_model g; lls_model := lls_model g; smooth := smooth g; zqso := zqso g; all_abssys := all_abssys g; all_forest := all_forest g; count_lls := count_lls g; spec := spec g; model_shown := model_shown g; bad_model := bad_model g; dw := dw g; skip_wveval := skip_wveval g; llist_plot := llist_plot g; outfil := outfil g; flag_write := flag_write g; stdout := stdout g |}.

Definition set_base_is_flux (v : bool) (g : gui) : gui :=
  {| conti_dict := conti_dict g; base_continuum := base_continuum g; base_is_flux := v; continuum := continuum g; full_model := full_model g; lls_model := lls_model g; smooth := smooth g; zqso := zqso g; all_abssys := all_abssys g; all_forest := all_forest g; count_lls := count_lls g; spec := spec g; model_shown := model_shown g; bad_model := bad_model g; dw := dw g; skip_wveval := skip_wveval g; llist_plot := llist_plot g; outfil := outfil g; flag_write := flag_write g; stdout := stdout g |}.

Definition set_continuum (v : XSpectrum1D) (g : gui) : gui :=
  {| conti_dict := conti_dict g; base_continuum := base_continuum g; base_is_flux := base_is_flux g; continuum := v; full_model := full_model g; lls_model := lls_model g; smooth := smooth g; zqso := zqso g; all_abssys := all_abssys g; all_forest := all_forest g; count_lls := count_lls g; spec := spec g; model_shown := model_shown g; bad_model := bad_model g; dw := dw g; skip_wveval := skip_wveval g; llist_plot := llist_plot g; outfil := outfil g; flag_write := flag_write g; stdout := stdout g |}.

Definition set_full_model (v : XSpectrum1D) (g : gui) : gui :=
  {| conti_dict := conti_dict g; base_continuum := base_continuum g; base_is_flux := base_is_flux g; continuum := continuum g; full_model := v; lls_model := lls_model g; smooth := smooth g; zqso := zqso g; all_abssys := all_abssys g; all_forest := all_forest g; count_lls := count_lls g; spec := spec g; model_shown := model_shown g; bad_model := bad_model g; dw := dw g; skip_wveval := skip_wveval g; llist_plot := llist_plot g; outfil := outfil g; flag_write := flag_write g; stdout := stdout g |}.

Definition set_lls_model (v : option (list float)) (g : gui) : gui :=
  {| conti_dict := conti_dict g; base_continuum := base_continuum g; base_is_flux := base_is_flux g; continuum := continuum g; full_model := full_model g; lls_model := v; smooth := smooth g; zqso := zqso g; all_abssys := all_abssys g; all_forest := all_forest g; count_lls := count_lls g; spec := spec g; model_shown := model_shown g; bad_model := bad_model g; dw := dw g; skip_wveval := skip_wveval g; llist_plot := llist_plot g; outfil := outfil g; flag_write := flag_write g; stdout := stdout g |}.

Definition set_smooth (v : option float) (g : gui) : gui :=
  {| conti_dict := conti_dict g; base_continuum := base_continuum g; base_is_flux := base_is_flux g; continuum := continuum g; full_model := full_model g; lls_model := lls_model g; smooth := v; zqso := zqso g; all_abssys := all_abssys g; all_forest := all_forest g; count_lls := count_lls g; spec := spec g; model_shown := model_shown g; bad_model := bad_model g; dw := dw g; skip_wveval := skip_wveval g; llist_plot := llist_plot g; outfil := outfil g; flag_write := flag_write g; stdout := stdout g |}.

Definition set_zqso (v : option float) (g : gui) : gui :=
  {| conti_dict := conti_dict g; base_continuum := base_continuum g; base_is_flux := base_is_flux g; continuum := continuum g; full_model := full_model g; lls_model := lls_model g; smooth := smooth g; zqso := v; all_abssys := all_abssys g; all_forest := all_forest g; count_lls := count_lls g; spec := spec g; model_shown := model_shown g; bad_model := bad_model g; dw := dw g; skip_wveval := skip_wveval g; llist_plot := llist_plot g; outfil := outfil g; flag_write := flag_write g; stdout := stdout g |}.

Definition set_all_abssys (v : list LLSSystem) (g : gui) : gui :=
  {| conti_dict := conti_dict g; base_continuum := base_continuum g; base_is_flux := base_is_flux g; continuum := continuum g; full_model := full_model g; lls_model := lls_model g; smooth := smooth g; zqso := zqso g; all_abssys := v; all_forest := all_forest g; count_lls := count_lls g; spec := spec g; model_shown := model_shown g; bad_model := bad_model g; dw := dw g; skip_wveval := skip_wveval g; llist_plot := llist_plot g; outfil := outfil g; flag_write := flag_write g; stdout := stdout g |}.

Definition set_all_forest (v : list GenericAbsSystem) (g : gui) : gui :=
  {| conti_dict := conti_dict g; base_continuum := base_continuum g; base_is_flux := base_is_flux g; continuum := continuum g; full_model := full_model g; lls_model := lls_model g; smooth := smooth g; zqso := zqso g; all_abssys := all_abssys g; all_forest := v; count_lls := count_lls g; spec := spec g; model_shown := model_shown g; bad_model := bad_model g; dw := dw g; skip_wveval := skip_wveval g; llist_plot := llist_plot g; outfil := outfil g; flag_write := flag_write g; stdout := stdout g |}.

Definition set_count_lls (v : nat) (g : gui) : gui :=
  {| conti_dict := conti_dict g; base_continuum := base_continuum g; base_is_flux := base_is_flux g; continuum := continuum g; full_model := full_model g; lls_model := lls_model g; smooth := smooth g; zqso := zqso g; all_abssys := all_abssys g; all_forest := all_forest g; count_lls := v; spec := spec g; model_shown := model_shown g; bad_model := bad_model g; dw := dw g; skip_wveval := skip_wveval g; llist_plot := llist_plot g; outfil := outfil g; flag_write := flag_write g; stdout := stdout g |}.

Definition set_model_shown (v : bool) (g : gui) : gui :=
  {| conti_dict := conti_dict g; base_continuum := base_continuum g; base_is_flux := base_is_flux g; continuum := continuum g; full_model := full_model g; lls_model := lls_model g; smooth := smooth g; zqso := zqso g; all_abssys := all_abssys g; all_forest := all_forest g; count_lls := count_lls g; spec := spec g; model_shown := v; bad_model := bad_model g; dw := dw g; skip_wveval := skip_wveval g; llist_plot := llist_plot g; outfil := outfil g; flag_write := flag_write g; stdout := stdout g |}.

Definition set_bad_model (v : list nat) (g : gui) : gui :=
  {| conti_dict := conti_dict g; base_continuum := base_continuum g; base_is_flux := base_is_flux g; continuum := continuum g; full_model := full_model g; lls_model := lls_model g; smooth := smooth g; zqso := zqso g; all_abssys := all_abssys g; all_forest := all_forest g; count_lls := count_lls g; spec := spec g; model_shown := model_shown g; bad_model := v; dw := dw g; skip_wveval := skip_wveval g; llist_plot := llist_plot g; outfil := outfil g; flag_write := flag_write g; stdout := stdout g |}.

Definition set_llist_plot (v : bool) (g : gui) : gui :=
  {| conti_dict := conti_dict g; base_continuum := base_continuum g; base_is_flux := base_is_flux g; continuum := continuum g; full_model := full_model g; lls_model := lls_model g; smooth := smooth g; zqso := zqso g; all_abssys := all_abssys g; all_forest := all_forest g; count_lls := count_lls g; spec := spec g; model_shown := model_shown g; bad_model := bad_model g; dw := dw g; skip_wveval := skip_wveval g; llist_plot := v; outfil := outfil g; flag_write := flag_write g; stdout := stdout g |}.

Definition set_flag_write (v : bool) (g : gui) : gui :=
  {| conti_dict := conti_dict g; base_continuum := base_continuum g; base_is_flux := base_is_flux g; continuum := continuum g; full_model := full_model g; lls_model := lls_model g; smooth := smooth g; zqso := zqso g; all_abssys := all_abssys g; all_forest := all_forest g; count_lls := count_lls g; spec := spec g; model_shown := model_shown g; bad_model := bad_model g; dw := dw g; skip_wveval := skip_wveval g; llist_plot := llist_plot g; outfil := outfil g; flag_write := v; stdout := stdout g |}.

Definition set_stdout (v : list string) (g : gui) : gui :=
  {| conti_dict := conti_dict g; base_continuum := base_continuum g; base_is_flux := base_is_flux g; continuum := continuum g; full_model := full_model g; lls_model := lls_model g; smooth := smooth g; zqso := zqso g; all_abssys := all_abssys g; all_forest := all_forest g; count_lls := count_lls g; spec := spec g; model_shown := model_shown g; bad_model := bad_model g; dw := dw g; skip_wveval := skip_wveval g; llist_plot := llist_plot g; outfil := outfil g; flag_write := flag_write g; stdout := v |}.

Definition spec_widg_model (g : gui) : option XSpectrum1D :=
  if model_shown g then Some (full_model g) else None.

Section Operations.
Context {numlib : NumLib} {linelib : LineLib}.

Definition as_array (b : option (list float)) : result (list float) :=
  match b with
  | Some a => Ok a
  | None => Raise TypeError
  end.

(** [cflux * (disp / piv)**tilt]. *)
Definition tilted (cflux disp : list float) (piv tilt : float) : result (list float) :=
  np_mul cflux (map (λ w, fpow (w / piv) tilt) disp).

(** [self.continuum.flux[mask] = ...]: the array of the continuum is
    written in place, and [self.base_continuum] changes with it when it is
    that array. *)
Definition write_continuum_flux (f : list float) (g : gui) : gui :=
  let g1 := set_continuum (set_flux f (continuum g)) g in
  if base_is_flux g then set_base_continuum (Some f) g1 else g1.

(** [self.continuum.flux = ...]: the continuum gets a new array, and
    [self.base_continuum] keeps the one it has. *)
Definition rebind_continuum_flux (f : list float) (g : gui) : gui :=
  set_base_is_flux false (set_continuum (set_flux f (continuum g)) g).

(** [update_conti(self)]. *)
Definition update_conti (g : gui) : result gui :=
  base ← as_array (base_continuum g);
  Norm ← getitem (conti_dict g) "Norm" ≫= as_float;
  let cflux := map (λ b, b * Norm)%float base in
  let disp := dispersion (continuum g) in
  g1 ←
    match conti_dict g !! "piv_wv2" with
    | Some v2 =>
        piv_wv2 ← as_float v2;
        let lowwv := map (λ w, PrimFloat.ltb w piv_wv2) disp in
        c_low ← np_mask_get cflux lowwv;
        tilt2 ← getitem (conti_dict g) "tilt2" ≫= as_float;
        v_low ← tilted c_low (mask_filter disp lowwv) piv_wv2 tilt2;
        f1 ← np_mask_set (flux (continuum g)) lowwv v_low;
        let highwv := map negb lowwv in
        c_high ← np_mask_get cflux highwv;
        piv_wv ← getitem (conti_dict g) "piv_wv" ≫= as_float;
        tilt ← getitem (conti_dict g) "tilt" ≫= as_float;
        v_high ← tilted c_high (mask_filter disp highwv) piv_wv tilt;
        f2 ← np_mask_set f1 highwv v_high;
        Ok (write_continuum_flux f2 g)
    | None =>
        piv_wv ← getitem (conti_dict g) "piv_wv" ≫= as_float;
        tilt ← getitem (conti_dict g) "tilt" ≫= as_float;
        f ← tilted cflux disp piv_wv tilt;
        Ok (rebind_continuum_flux f g)
    end;
  match lls_model g1 with
  | Some m =>
      fm ← np_mul m (flux (continuum g1));
      Ok (set_full_model (set_flux fm (full_model g1)) g1)
  | None => Ok g1
  end.

(** The wavelength array the optical depths are evaluated on. *)
Definition model_wa1 (g : gui) : result (list float) :=
  let wa := dispersion (full_model g) in
  if skip_wveval g then Ok wa
  else
    w0 ← np_index wa 0;
    wl ← np_index wa (-1);
    Ok (np_arange_step w0 wl (dw g)).

(** [all_tau_model]: the optical depth of all LLS, then [+=] the optical
    depth of each forest absorber in turn. *)
Fixpoint add_forest_tau (wa1 : list float) (skip : bool)
    (forests : list GenericAbsSystem) (tau : list float) : result (list float) :=
  match forests with
  | [] => Ok tau
  | forest :: rest =>
      tau' ← np_iadd tau (voigt_from_abslines wa1 (lines forest) skip);
      add_forest_tau wa1 skip rest tau'
  end.

Definition all_tau_model (g : gui) (wa1 : list float) : result (list float) :=
  add_forest_tau wa1 (skip_wveval g) (all_forest g)
    (tau_multi_lls wa1 (all_abssys g) (skip_wveval g)).

(** The optical depths of the forest absorbers at pixel [i], in the
    order of [all_forest]. *)
Definition forest_tau_at (wa1 : list float) (skip : bool)
    (forests : list GenericAbsSystem) (i : nat) : list float :=
  map (λ forest, nth i (voigt_from_abslines wa1 (lines forest) skip) 0%float) forests.

(** [np.exp(-1. * tau)]. *)
Definition exp_minus (tau : list float) : list float :=
  map (λ t, fexp (-1 * t)%float) tau.

(** "Flux and smooth", then back to the pixels of the spectrum. *)
Definition smooth_model (g : gui) (wa1 flux0 : list float) : list float :=
  let wa := dispersion (full_model g) in
  let flux1 :=
    match smooth g with
    | Some sm =>
        if PrimFloat.ltb 0 sm then
          if skip_wveval g then convolve_psf flux0 sm
          else
            let mult := (np_median (np_diff wa) / dw g)%float in
            convolve_psf flux0 (sm * mult)%float
        else flux0
    | None => flux0
    end in
  if skip_wveval g then flux1 else np_interp wa wa1 flux1.

(** "Over-absorbed": pixels where the absorption model is below 0.7 and
    the full model is below the data by more than 1.5 sigma. *)
Definition over_absorbed (lls_model full_flux : list float) (sp : XSpectrum1D)
    : result (list nat) :=
  lim ← np_binop PrimFloat.sub (flux sp) (map (λ e, e * 1.5)%float (sig sp));
  below ← np_binop PrimFloat.ltb full_flux lim;
  both ← np_binop andb (map (λ m, PrimFloat.ltb m 0.7) lls_model) below;
  Ok (np_where both).

(** [update_model(self)]. *)
Definition update_model (g : gui) : result gui :=
  if decide (length (all_abssys g) = 0) then
    Ok (set_model_shown false (set_lls_model None g))
  else
    wa1 ← model_wa1 g;
    tau ← all_tau_model g wa1;
    let model := smooth_model g wa1 (exp_minus tau) in
    fm ← np_mul model (flux (continuum g));
    bad ← over_absorbed model fm (spec g);
    Ok (set_model_shown true
         (set_bad_model bad
           (set_full_model (set_flux fm (full_model g))
             (set_lls_model (Some model) g)))).

(** [add_forest(self, inp, z)]: [inp] is the key pressed. *)
Definition NHI_dict : gmap string float :=
  <["6" := 12%float]> (<["7" := 13%float]> (<["8" := 14%float]> (<["9" := 15%float]> ∅))).

Definition add_forest (inp : string) (z : float) (g : gui) : result gui :=
  nhi ← getitem NHI_dict inp;
  let aline name :=
    {| trans := name; attrib_z := z; attrib_N := fpow 10 nhi; attrib_b := 20 |} in
  let forest :=
    {| forest_zabs := z; forest_NHI := nhi;
       lines := [aline "HI 1215"; aline "HI 1025"; aline "HI 972"] |} in
  Ok (set_all_forest (all_forest g ++ [forest]) g).

(** [add_LLS(self, z, NHI, bval, comment, model)]. *)
Definition new_LLS (z nhi b : float) (cmt lbl : string) : LLSSystem :=
  {| zabs := z; NHI := nhi; bval := b; comment := cmt; label := lbl;
     lls_lines := fill_lls_lines z nhi b |}.

Definition add_LLS (z nhi b : float) (cmt : string) (model : bool) (g : gui)
    : result gui :=
  let count := S (count_lls g) in
  let new_sys := new_LLS z nhi b cmt ("LLS_Sys_" +:+ pretty count) in
  let g1 := set_llist_plot false
              (set_all_abssys (all_abssys g ++ [new_sys])
                (set_count_lls count g)) in
  if model then update_model g1 else Ok g1.

(** *** [auto_plls] *)

(** The continuum the candidate is compared with. *)
Definition plls_conti (g : gui) : XSpectrum1D :=
  if decide (0 < length (all_abssys g)) then full_model g else continuum g.

(** [np.argmin(np.abs(spec.dispersion - w))]. *)
Definition nearest_pixel (disp : list float) (w : float) : result nat :=
  np_argmin (map (λ d, PrimFloat.abs (d - w)%float) disp).

(** "zmin (next highest LLS or zem)". *)
Definition zqso_plus (g : gui) : result float :=
  match zqso g with
  | Some zq => Ok (zq + 0.01)%float
  | None => Raise TypeError
  end.

Definition plls_zmin (g : gui) (z : float) : result float :=
  if decide (length (all_abssys g) ≠ 0) then
    let zlls := filter (λ zl, PrimFloat.ltb z zl = true) (map zabs (all_abssys g)) in
    if decide (length zlls = 0) then zqso_plus g
    else m ← np_min zlls; Ok (m - 0.01)%float
  else zqso_plus g.

(** The pixels of the analysis: rest wavelength above 914 A and observed
    wavelength below [(1+zmin)*1026] A. *)
Definition plls_apix (disp : list float) (z zmin : float) : list nat :=
  let wrest := map (λ d, d / (1 + z))%float disp in
  np_where (zip_with andb (map (λ w, PrimFloat.ltb 914 w) wrest)
                          (map (λ d, PrimFloat.ltb d ((1 + zmin) * 1026)%float) disp)).

(** The local arrays of [auto_plls] before the matrices are built. *)
Record plls_setup : Type := Setup {
  ximn : nat;
  plls_NHI : float;
  plls_z : float;
  zmin : float;
  apix : list nat;
  nroll : Z;
  roll_flux : list float;
  roll_msk : list bool;
  flux_pad : list float;
  sig_pad : list float;
  conti_pad : list float
}.

Definition auto_plls_setup (g : gui) (x y : float) : result plls_setup :=
  let sp := spec g in
  let conti := plls_conti g in
  ximn ← nearest_pixel (dispersion sp) x;
  c ← np_index (flux conti) (Z.of_nat ximn);
  let nhi := (17.29 + flog10 (-1 * flog (y / c)))%float in
  let z := (x / 911.7 - 1)%float in
  (* the toy system has no comment and no label *)
  let plls := new_LLS z nhi 20 "" "" in
  let tau := tau_multi_lls (dispersion sp) [plls] false in
  let lls_flux := convolve_psf (exp_minus tau) 3 in
  zmin ← plls_zmin g z;
  let apix := plls_apix (dispersion sp) z zmin in
  i_hi ← nearest_pixel (dispersion sp) (911.7 * (1 + zmin))%float;
  i_lo ← nearest_pixel (dispersion sp) (911.7 * (1 + z))%float;
  let nroll0 := (Z.of_nat i_hi - Z.of_nat i_lo)%Z in
  amax ← np_max_idx apix;
  let nroll :=
    if decide (Z.of_nat (length (dispersion sp)) < Z.of_nat amax + nroll0)%Z
    then (Z.of_nat (length (dispersion sp)) - Z.of_nat amax - 1)%Z
    else nroll0 in
  amin ← np_min_idx apix;
  let gdpix := np_arange (Z.of_nat amin - nroll) (Z.of_nat amax + nroll + 1) in
  pad ← np_ones nroll;
  window ← np_take lls_flux (map Z.of_nat apix);
  let roll_flux := pad ++ window ++ pad in
  let roll_msk := map (λ f, PrimFloat.ltb f 0.7) roll_flux in
  _ ← np_take (dispersion sp) gdpix;
  flux_pad ← np_take (flux sp) gdpix;
  sig_pad ← np_take (sig sp) gdpix;
  conti_pad ← np_take (flux conti) gdpix;
  Ok {| ximn := ximn; plls_NHI := nhi; plls_z := z; zmin := zmin; apix := apix;
        nroll := nroll; roll_flux := roll_flux; roll_msk := roll_msk;
        flux_pad := flux_pad; sig_pad := sig_pad; conti_pad := conti_pad |}.

(** Column [kk] of the five matrices, as the loop fills them. *)
Record plls_column : Type := Column {
  roll_col : list float;
  mask_col : list bool;
  flux_col : list float;
  conti_col : list float;
  sig_col : list float
}.

Definition fill_column (s : plls_setup) (kk : nat) : result plls_column :=
  let n := length (roll_flux s) in
  f ← column n (flux_pad s);
  c ← column n (conti_pad s);
  e ← column n (sig_pad s);
  Ok {| roll_col := np_roll (roll_flux s) kk; mask_col := np_roll (roll_msk s) kk;
        flux_col := f; conti_col := c; sig_col := e |}.

(** One column of [bad_matrix], summed: the number of rows where
    [model < flux - sig*1.5] and the mask is set.  The entries of
    [mask_matrix] are 0. and 1. (kept as booleans), those of [bad_matrix]
    are 0. and 1. and their column sums are whole numbers, exact in
    binary64 (kept as [nat]). *)
Definition bad_row (r : float) (m : bool) (f c e : float) : bool :=
  PrimFloat.ltb (r * c) (f - e * 1.5) && m.

Fixpoint count_bad (r : list float) (m : list bool) (f c e : list float) : nat :=
  match r, m, f, c, e with
  | r0 :: r', m0 :: m', f0 :: f', c0 :: c', e0 :: e' =>
      (if bad_row r0 m0 f0 c0 e0 then 1 else 0) + count_bad r' m' f' c' e'
  | _, _, _, _, _ => 0
  end.

Definition column_bad (col : plls_column) : nat :=
  count_bad (roll_col col) (mask_col col) (flux_col col) (conti_col col) (sig_col col).

Definition auto_plls_bad (s : plls_setup) : result (list nat) :=
  cols ← result_mapM (fill_column s) (seq 0 (Z.to_nat (nroll s)));
  Ok (map column_bad cols).

Definition no_plls_message : string := "No viable pLLS found with our criteria!".

(** [auto_plls(self, x, y)]. *)
Definition auto_plls (x y : float) (g : gui) : result gui :=
  s ← auto_plls_setup g x y;
  bad ← auto_plls_bad s;
  ibest ← np_argmin_nat bad;
  d ← np_index (dispersion (spec g)) (Z.of_nat (ibest + ximn s));
  let zbest := (d / 911.7 - 1)%float in
  b ← np_index bad (Z.of_nat ibest);
  if decide (b < 10) then add_LLS zbest (plls_NHI s) 20 "None" true g
  else Ok (set_stdout (stdout g ++ [no_plls_message]) g).

(** *** The fit file

    [write_out] dumps a dictionary as JSON and [init_LLS] loads one; the
    file is its content as a document, in the two layouts [init_LLS]
    reads. *)

Record lls_entry : Type := Entry {
  entry_z : float;
  entry_NHI : float;
  entry_bval : float;
  entry_comment : string
}.

Inductive conti_part : Type :=
  | Historic (conti : gmap string pyval)
      (* no key ['conti_model']: ['conti'] holds the dictionary *)
  | Current (conti_model : gmap string pyval) (conti : option (list float)).
      (* ['conti'] is [None] when [Quantity(lls_dict['conti'])] fails *)

Record lls_file : Type := LLSFile {
  file_LLS : gmap string lls_entry;
  file_conti : conti_part;
  file_spec_file : string;
  file_smooth : option float;
  file_zqso : option float  (* [None]: no key ['zqso'] *)
}.

(** [init_LLS(self, fit_file, spec)], on the document of [fit_file]. *)
Fixpoint add_LLS_entries (entries : list lls_entry) (g : gui) : result gui :=
  match entries with
  | [] => Ok g
  | e :: rest =>
      g1 ← add_LLS (entry_z e) (entry_NHI e) (entry_bval e) (entry_comment e) false g;
      add_LLS_entries rest g1
  end.

Definition lookup_entries (d : gmap string lls_entry) (keys : list string)
    : result (list lls_entry) :=
  result_mapM (getitem d) keys.

Definition init_LLS {pydict : PyDict} (doc : lls_file) (sp : XSpectrum1D) (g : gui)
    : result gui :=
  let g1 :=
    match file_conti doc with
    | Historic d => set_conti_dict d g
    | Current d None =>
        set_stdout (stdout g ++ ["Will generate a new base continuum"])
          (set_base_is_flux false (set_base_continuum None (set_conti_dict d g)))
    | Current d (Some conti) =>
        set_continuum
          (from_tuple (dispersion sp) (replicate (length (dispersion sp)) 1%float))
          (set_base_is_flux false
             (set_base_continuum (Some conti) (set_conti_dict d g)))
    end in
  entries ← lookup_entries (file_LLS doc) (dict_keys (file_LLS doc));
  g2 ← add_LLS_entries entries g1;
  Ok (set_zqso (file_zqso doc) (set_smooth (file_smooth doc) g2)).

(** [write_out(self)]: the new state and the document written to
    [self.outfil].  The entry of a system reads [lls.lls_lines[0]] before
    it takes [str(lls.comment)]; the module has [unicode_literals], and
    comments come from it, from a JSON file or from a text box, so that
    [str] is applied to a [unicode]. *)
Definition out_entry (lls : LLSSystem) : result lls_entry :=
  match lls_lines lls with
  | line :: _ =>
      c ← py2_str (comment lls);
      Ok {| entry_z := zabs lls; entry_NHI := NHI lls; entry_bval := attrib_b line;
            entry_comment := strip c |}
  | [] => Raise IndexError
  end.

Fixpoint out_LLS (kk : nat) (systems : list LLSSystem) (d : gmap string lls_entry)
    : result (gmap string lls_entry) :=
  match systems with
  | [] => Ok d
  | lls :: rest =>
      e ← out_entry lls;
      out_LLS (S kk) rest (<[pretty (kk + 1) := e]> d)
  end.

Definition write_out (g : gui) : result (gui * lls_file) :=
  match base_continuum g with
  | None => Raise AttributeError
  | Some conti =>
      d ← out_LLS 0 (all_abssys g) ∅;
      Ok (set_flag_write true g,
          {| file_LLS := d; file_conti := Current (conti_dict g) (Some conti);
             file_spec_file := filename (spec g); file_smooth := smooth g;
             file_zqso := zqso g |})
  end.

(** The parameters of an absorber system the fit file keeps. *)
Definition sys_params (lls : LLSSystem) : float * float * float * string :=
  (zabs lls, NHI lls, bval lls, comment lls).

Definition stripped_params (lls : LLSSystem) : float * float * float * string :=
  (zabs lls, NHI lls, bval lls, strip (comment lls)).

Definition entry_params (e : lls_entry) : float * float * float * string :=
  (entry_z e, entry_NHI e, entry_bval e, entry_comment e).

(** The entry [write_out] makes for a system whose lines are at its
    b-value. *)
Definition entry_of (lls : LLSSystem) : lls_entry :=
  {| entry_z := zabs lls; entry_NHI := NHI lls; entry_bval := bval lls;
     entry_comment := strip (comment lls) |}.

(** The GUI keeps the lines of a system at the system's b-value. *)
Definition lines_synced (lls : LLSSystem) : Prop :=
  ∃ line rest, lls_lines lls = line :: rest ∧ attrib_b line = bval lls.

(** Writing the state [g] and reading the file back into the fresh GUI
    [g0] restores the continuum, the smoothing, [zqso] and the parameters
    of every absorber system. *)
Definition round_trip_restores {pydict : PyDict} (g g0 : gui) (sp : XSpectrum1D) : Prop :=
  ∀ g1 doc,
    write_out g = Ok (g1, doc) →
    ∃ g2, init_LLS doc sp g0 = Ok g2
      ∧ conti_dict g2 = conti_dict g
      ∧ base_continuum g2 = base_continuum g
      ∧ smooth g2 = smooth g
      ∧ zqso g2 = zqso g
      ∧ map sys_params (all_abssys g2) ≡ₚ map sys_params (all_abssys g).

(** *** The operations that change the model, as one step function *)

Inductive gui_op : Type :=
  | OpUpdateConti
  | OpUpdateModel
  | OpAddLLS (z nhi b : float) (cmt : string) (model : bool)
  | OpAddForest (inp : string) (z : float)
  | OpAutoPLLS (x y : float).

Definition run_op (op : gui_op) (g : gui) : result gui :=
  match op with
  | OpUpdateConti => update_conti g
  | OpUpdateModel => update_model g
  | OpAddLLS z nhi b cmt model => add_LLS z nhi b cmt model g
  | OpAddForest inp z => add_forest inp z g
  | OpAutoPLLS x y => auto_plls x y g
  end.

End Operations.

(** The arrays of the GUI have one entry per pixel of the spectrum. *)
Definition pixel_consistent (g : gui) (base : list float) : Prop :=
  base_continuum g = Some base
  ∧ length base = length (dispersion (continuum g))
  ∧ length (flux (continuum g)) = length (dispersion (continuum g))
  ∧ (∀ m, lls_model g = Some m → length m = length (dispersion (continuum g))).

(** The full model is the absorption model times the continuum. *)
Definition model_invariant (g : gui) : Prop :=
  ∀ m, lls_model g = Some m →
       np_mul m (flux (continuum g)) = Ok (flux (full_model g)).

(** Row [i] of a column of [bad_matrix]. *)
Definition bad_at (r : list float) (m : list bool) (f c e : list float) (i : nat) : bool :=
  match r !! i, m !! i, f !! i, c !! i, e !! i with
  | Some r0, Some m0, Some f0, Some c0, Some e0 => bad_row r0 m0 f0 c0 e0
  | _, _, _, _, _ => false
  end.

(** *** The score of an offset, in the words of the algorithm's description

    The template of [auto_plls] shifted by [k] pixels (cyclically) has at
    pixel [i] of the padded window the template's value at [i - k]. *)
Definition shifted_template (s : plls_setup) (k i : nat) : option float :=
  let n := length (roll_flux s) in
  roll_flux s !! ((i + n - k) `mod` n).

(** Pixel [i] counts against offset [k] when the shifted template times
    the continuum is below the data flux minus 1.5 times its error, and
    the shifted template is in its absorbed region (below 0.7). *)
Definition counts_against (s : plls_setup) (k i : nat) : bool :=
  match shifted_template s k i, flux_pad s !! i, sig_pad s !! i, conti_pad s !! i with
  | Some t, Some f, Some e, Some c =>
      PrimFloat.ltb (t * c) (f - e * 1.5) && PrimFloat.ltb t 0.7
  | _, _, _, _ => false
  end.

Definition offset_score (s : plls_setup) (k : nat) : nat :=
  length (filter (λ i, counts_against s k i = true) (seq 0 (length (roll_flux s)))).

(** *** Conditions on a state used in the statements below *)

(** The labels of the systems are pairwise different and numbered up to
    [count_lls]. *)
Definition labels_wf (g : gui) : Prop :=
  NoDup (map label (all_abssys g))
  ∧ ∀ lls, lls ∈ all_abssys g →
      ∃ k, 1 ≤ k ≤ count_lls g ∧ label lls = "LLS_Sys_" +:+ pretty k.

(** [fill_lls_lines] makes at least one line, and gives the lines the
    b-value it is called with. *)
Definition lines_filled {linelib : LineLib} : Prop :=
  ∀ z nhi b, ∃ line rest, fill_lls_lines z nhi b = line :: rest ∧ attrib_b line = b.

(** Two states that differ at most in the systems, their count and the
    ['Plot'] flag. *)
Definition outside_systems (g g' : gui) : Prop :=
  conti_dict g' = conti_dict g ∧ base_continuum g' = base_continuum g
  ∧ base_is_flux g' = base_is_flux g
  ∧ continuum g' = continuum g ∧ full_model g' = full_model g
  ∧ lls_model g' = lls_model g ∧ smooth g' = smooth g ∧ zqso g' = zqso g
  ∧ all_forest g' = all_forest g ∧ spec g' = spec g
  ∧ flag_write g' = flag_write g ∧ stdout g' = stdout g.

(** *** [XFitLLSGUI.__init__]

    The part of the constructor that sets the attributes above.  The
    spectrum has been read ([xxgu.read_spec]) and so has the template file
    when one is named; what the widgets start with (their model, their
    list of flagged pixels, the ['Plot'] flag of the line list) is given
    by [widgets]. *)

Record widget_init : Type := Widgets {
  init_model_shown : bool;
  init_bad_model : list nat;
  init_llist_plot : bool
}.

(** [tspec.rebin(wave)] of linetools. *)
Class SpecLib : Type := {
  rebin : XSpectrum1D → list float → XSpectrum1D
}.

Section Startup.
Context {numlib : NumLib} {linelib : LineLib} {pydict : PyDict}
        {igmlib : Continuum.IgmLib} {speclib : SpecLib}.

(** The attributes set under "Initialize", before any file is read. *)
Definition blank_gui (sp : XSpectrum1D) (outfil : option string) (dw : float)
    (skip_wveval : bool) (widgets : widget_init) : gui :=
  {| conti_dict := ∅; base_continuum := None; base_is_flux := false;
     continuum := from_tuple [] []; full_model := from_tuple [] [];
     lls_model := None; smooth := None; zqso := None;
     all_abssys := []; all_forest := []; count_lls := 0; spec := sp;
     model_shown := init_model_shown widgets; bad_model := init_bad_model widgets;
     dw := dw; skip_wveval := skip_wveval;
     llist_plot := init_llist_plot widgets;
     outfil := match outfil with Some f => f | None => "LLS_fit.json" end;
     flag_write := false; stdout := [] |}.

(** "Initialize continuum (and LLS if from a file)". *)
Definition init_continuum_dict (lls_fit_file : option lls_file) (zqso : option float)
    (g : gui) : result gui :=
  match lls_fit_file with
  | Some doc => init_LLS doc (spec g) g
  | None =>
      let Norm := np_median (flux (spec g)) in
      match zqso with
      | None => Raise TypeError
      | Some zq =>
          d ← Continuum.init_conti_dict Norm 0 0 (1215 * (1 + zq)) None (PyStr "True")
                Continuum.default_fN_gamma Continuum.default_LL_flatten;
          Ok (set_conti_dict d g)
      end
  end.

(** [self.conti_dict['igm'] == 'True']. *)
Definition igm_flag (v : pyval) : bool :=
  match v with
  | PyStr s => String.eqb s "True"
  | _ => false
  end.

(** "if self.base_continuum is None".  The last statement,
    [self.base_continuum = self.continuum.flux], gives the array of the
    continuum a second name. *)
Definition init_base_continuum (telfer : list Continuum.telfer_row)
    (zqso : option float) (template : option XSpectrum1D) (g : gui) : result gui :=
  match base_continuum g with
  | Some _ => Ok g
  | None =>
      g1 ←
        match zqso with
        | Some zq =>
            tspec ←
              match template with
              | Some t =>
                  Ok (from_tuple (map (λ w, w * (1 + zq))%float (dispersion t)) (flux t))
              | None =>
                  igm ← getitem (conti_dict g) "igm";
                  Continuum.get_telfer_spec telfer zq (igm_flag igm) None true
              end;
            Ok (set_conti_dict (<["piv_wv" := PyFloat (915 * (1 + zq))]> (conti_dict g))
                  (set_continuum (rebin tspec (dispersion (spec g)))
                     (set_zqso (Some zq) g)))
        | None =>
            Ok (set_continuum
                  (from_tuple (dispersion (spec g))
                     (replicate (length (dispersion (spec g))) 1%float))
                  (set_zqso None g))
        end;
      Ok (set_base_is_flux true (set_base_continuum (Some (flux (continuum g1))) g1))
  end.

(** [XFitLLSGUI.__init__(ispec, lls_fit_file, outfil, smooth, zqso,
    template, dw, skip_wveval)].  [update_boxes], called before
    [update_model] when a file is given, only writes the text boxes, and
    the rest of the constructor lays out the widgets. *)
Definition gui_init (sp : XSpectrum1D) (telfer : list Continuum.telfer_row)
    (widgets : widget_init) (lls_fit_file : option lls_file) (outfil : option string)
    (smooth_arg : option float) (zqso : option float) (template : option XSpectrum1D)
    (dw : float) (skip_wveval : bool) : result gui :=
  let g0 := blank_gui sp outfil dw skip_wveval widgets in
  g1 ← init_continuum_dict lls_fit_file zqso g0;
  g2 ← init_base_continuum telfer zqso template g1;
  g3 ← update_conti g2;
  let g4 :=
    set_full_model
      (from_tuple (dispersion sp) (replicate (length (dispersion sp)) 1%float)) g3 in
  let g5 :=
    match smooth g4 with
    | None => set_smooth smooth_arg g4
    | Some _ => g4
    end in
  match lls_fit_file with
  | Some _ => update_model g5
  | None => Ok g5
  end.

End Startup.

End FitLLS.

(** ** A small spectrum, a small field and stand-ins for the libraries

    Used to run the functions above on concrete inputs. *)

Module Example.
Import NumPy Spectra Continuum Field FitLLS.

(** Stand-ins for numpy's transcendental functions: only their types
    matter for the runs below. *)
Definition toy_numlib : NumLib := {|
  fpow := λ x t, (x * t)%float;
  fexp := λ t, (1 + t)%float;
  flog := λ x, (x - 1)%float;
  flog10 := λ x, x;
  np_median := λ a, match a with x :: _ => x | [] => 0%float end;
  np_interp := λ wa wa1 f, f;
  np_arange_step := λ lo hi step, [lo; hi]
|}.

(** A stand-in for the line library: every system absorbs half of the
    light within 12 A of 950 A in its rest frame. *)
Definition toy_tau (sys : list LLSSystem) (w : float) : float :=
  fold_left
    (λ t lls,
       if PrimFloat.ltb (PrimFloat.abs (w / (1 + zabs lls) - 950)) 12
       then (t + 0.5)%float else t)
    sys 0%float.

Definition toy_linelib : LineLib := {|
  tau_multi_lls := λ wa sys skip, map (toy_tau sys) wa;
  voigt_from_abslines := λ wa lines skip, map (λ w, 0%float) wa;
  convolve_psf := λ f fwhm, f;
  fill_lls_lines := λ z nhi b,
    [ {| trans := "HI 1215"; attrib_z := z; attrib_N := nhi; attrib_b := b |} ]
|}.

(** Python's key order taken to be the order of the map's listing. *)
Definition listing_order : PyDict := {|
  dict_keys := λ V d, (map_to_list d).*1;
  dict_keys_perm := λ V d, Permutation_refl ((map_to_list d).*1)
|}.

(** A flat sky: separations are differences of declination. *)
Definition flat_sky : AstroLib := {|
  separation := λ p q, PrimFloat.abs (p.2 - q.2);
  to_arcmin := λ d, (d * 60)%float;
  kpc_comoving_per_arcmin := λ z, 500%float;
  c_kms := 299792.458%float
|}.

(** 31 pixels from 900 A to 1200 A, with an absorption dip at 970-990 A. *)
Definition toy_disp : list float :=
  map (λ k, (900 + 10 * PrimFloat.of_uint63 (Uint63.of_Z (Z.of_nat k)))%float) (seq 0 31).

Definition toy_spec : XSpectrum1D :=
  {| dispersion := toy_disp;
     flux := map (λ w, if PrimFloat.ltb (PrimFloat.abs (w - 980)) 12
                       then 0.4%float else 1%float) toy_disp;
     sig := replicate 31 0.05%float;
     filename := "toy.fits" |}.

Definition toy_conti_dict : gmap string pyval :=
  <["Norm" := PyFloat 2]> (<["tilt" := PyFloat 0.5]>
  (<["piv_wv" := PyFloat 915]> (<["tilt2" := PyFloat 0]> ∅))).

(** A GUI on that spectrum with no absorber system yet. *)
Definition toy_gui : gui :=
  {| conti_dict := toy_conti_dict;
     base_continuum := Some (replicate 31 1%float); base_is_flux := false;
     continuum := from_tuple toy_disp (replicate 31 1%float);
     full_model := from_tuple toy_disp (replicate 31 1%float);
     lls_model := None; smooth := Some 3%float; zqso := Some 0.05%float;
     all_abssys := []; all_forest := []; count_lls := 0; spec := toy_spec;
     model_shown := false; bad_model := []; dw := 0.1%float; skip_wveval := true;
     llist_plot := true; outfil := "LLS_fit.json"; flag_write := false;
     stdout := [] |}.

(** The same GUI after the constructor has made the base continuum
    itself (it is then the array of the continuum), with a second pivot in
    the continuum dictionary. *)
Definition two_pivot_dict : gmap string pyval :=
  <["piv_wv2" := PyFloat 1000]> (<["tilt2" := PyFloat 0.25]> toy_conti_dict).

Definition shared_gui : gui :=
  set_base_is_flux true (set_conti_dict two_pivot_dict toy_gui).

(** The same GUI with one system whose comment has white space around
    it. *)
Definition commented_LLS : LLSSystem :=
  {| zabs := 0.03%float; NHI := 17.3%float; bval := 20%float;
     comment := " blend "; label := "LLS_Sys_1";
     lls_lines := [ {| trans := "HI 1215"; attrib_z := 0.03%float;
                       attrib_N := 17.3%float; attrib_b := 20%float |} ] |}.

Definition commented_gui : gui := set_all_abssys [commented_LLS] toy_gui.

(** Two targets at the same right ascension: the mask of the first has
    been observed, that of the second has not. *)
Definition target_A : target :=
  {| TARG_RA := 10%float; TARG_DEC := 1%float; MASK_NAME := Some "A" |}.
Definition target_B : target :=
  {| TARG_RA := 10%float; TARG_DEC := 2%float; MASK_NAME := Some "B" |}.

Definition toy_galaxies : list galaxy :=
  [ {| RA := 10%float; DEC := 0.01%float; Z := 0.5%float |};
    {| RA := 10%float; DEC := 0.01%float; Z := 0.6%float |};
    {| RA := 10%float; DEC := 1%float; Z := 0.5005%float |} ].

Definition toy_field : IgmGalaxyField :=
  {| coord := (10%float, 0%float);
     galaxies := Some toy_galaxies;
     targets := Some [target_A; target_B];
     observing := Some [ {| obs_MASK_NAME := "A"; DATE_OBS := Some "2014-11-29" |};
                         {| obs_MASK_NAME := "B"; DATE_OBS := None |} ] |}.

(** The observing dates of the masks of the example field. *)
Definition toy_obs_dict : gmap string (list (option string)) :=
  <["A" := [Some "2014-11-29"]]> ∅.

(** Three rows of a template normalised at 1450 A. *)
Definition toy_telfer : list telfer_row :=
  [ {| wrest := 1000%float; tflux := 3%float |};
    {| wrest := 1450%float; tflux := 2%float |};
    {| wrest := 2000%float; tflux := 1%float |} ].

Definition no_igm : IgmLib := {| map_etl := λ w zem gamma, 0%float |}.

(** A field whose only target is on a mask that no row of the observing
    table names. *)
Definition target_C : target :=
  {| TARG_RA := 10%float; TARG_DEC := 1%float; MASK_NAME := Some "C" |}.

Definition stray_field : IgmGalaxyField :=
  {| coord := (10%float, 0%float);
     galaxies := None;
     targets := Some [target_C];
     observing := Some [ {| obs_MASK_NAME := "A"; DATE_OBS := Some "2014-11-29" |} ] |}.

(** A field whose only target has not been put on a mask. *)
Definition unmasked_field : IgmGalaxyField :=
  {| coord := (10%float, 0%float);
     galaxies := None;
     targets := Some [ {| TARG_RA := 10%float; TARG_DEC := 1%float; MASK_NAME := None |} ];
     observing := Some [ {| obs_MASK_NAME := "A"; DATE_OBS := Some "2014-11-29" |} ] |}.

(** The example GUI with one system whose comment has no white space
    around it. *)
Definition blend_LLS : LLSSystem :=
  {| zabs := 0.03%float; NHI := 17.3%float; bval := 20%float;
     comment := "blend"; label := "LLS_Sys_1";
     lls_lines := [ {| trans := "HI 1215"; attrib_z := 0.03%float;
                       attrib_N := 17.3%float; attrib_b := 20%float |} ] |}.

Definition blend_gui : gui := set_count_lls 1 (set_all_abssys [blend_LLS] toy_gui).

(** A stand-in for the rebinning: every new pixel gets the first flux of
    the spectrum. *)
Definition toy_speclib : SpecLib := {|
  rebin := λ sp wave,
    from_tuple wave (map (λ _, match flux sp with f :: _ => f | [] => 1%float end) wave)
|}.

Definition toy_widgets : widget_init :=
  {| init_model_shown := false; init_bad_model := []; init_llist_plot := true |}.

(** A fit file in the historic layout, which has no continuum array: its
    dictionary has a second pivot, and it lists no system. *)
Definition historic_doc : lls_file :=
  {| file_LLS := ∅; file_conti := Historic two_pivot_dict;
     file_spec_file := "toy.fits"; file_smooth := Some 3%float;
     file_zqso := Some 0.05%float |}.

End Example.

(** * Properties *)

Section ContinuumFacts.
Import NumPy Spectra Continuum.

(** C8: [init_conti_dict] raises [ValueError] exactly when [piv_wv2] is
    given and [piv_wv2 > piv_wv]; otherwise it returns a dictionary that
    has the key ['piv_wv2'] exactly when [piv_wv2] is given.  With
    [piv_wv2 = None] it returns, without the key. *)
Theorem init_conti_dict_raises_iff (Norm tilt tilt2 piv_wv : float)
    (piv_wv2 : option float) (igm : pyval) (fN_gamma : float) (LL_flatten : pyval) :
  let r := init_conti_dict Norm tilt tilt2 piv_wv piv_wv2 igm fN_gamma LL_flatten in
  ((∃ e, r = Raise e) ↔ ∃ p, piv_wv2 = Some p ∧ PrimFloat.ltb piv_wv p = true)
  ∧ (∀ e, r = Raise e → e = ValueError)
  ∧ (∀ d, r = Ok d → (is_Some (d !! "piv_wv2") ↔ piv_wv2 ≠ None))
  ∧ (piv_wv2 = None → ∃ d, r = Ok d ∧ d !! "piv_wv2" = None).
Proof.
  intros r. subst r. unfold init_conti_dict.
  destruct piv_wv2 as [p|]; simpl.
  - destruct (PrimFloat.ltb piv_wv p) eqn:Hlt.
    + split; [|split; [|split]].
      * split; eauto.
      * intros e [= <-]. done.
      * intros d [=].
      * intros [=].
    + split; [|split; [|split]].
      * split; [intros [e [=]] | intros (q & [= <-] & Hq); congruence].
      * intros e [=].
      * intros d [= <-]. split; [done|]. intros _.
        rewrite lookup_insert_ne by done. rewrite lookup_insert_ne by done.
        rewrite lookup_insert_ne by done. rewrite lookup_insert_eq. eauto.
      * intros [=].
  - split; [|split; [|split]].
    + split; [intros [e [=]] | intros (q & [=] & _)].
    + intros e [=].
    + intros d [= <-]. rewrite lookup_delete_eq. split; [intros [? [=]] | done].
    + intros _. eexists; split; [done|]. apply lookup_delete_eq.
Qed.

End ContinuumFacts.

(** ** The error monad *)

Lemma bind_Ok {A B : Type} (r : result A) (k : A → result B) (b : B) :
  r ≫= k = Ok b → ∃ a, r = Ok a ∧ k a = Ok b.
Proof. destruct r as [a|e]; simpl; [eauto | done]. Qed.

(** ** Facts about the numpy operations *)

Section NumPyFacts.
Import NumPy.
Context {A B C : Type}.

Lemma np_binop_same_length (f : A → B → C) (a : list A) (b : list B) :
  length a = length b → np_binop f a b = Ok (zip_with f a b).
Proof. intros Hlen. unfold np_binop. by rewrite decide_True. Qed.

Lemma count_true_cons (m : bool) (mask : list bool) :
  count_true (m :: mask) = (if m then S (count_true mask) else count_true mask).
Proof. unfold count_true. rewrite filter_cons. destruct m; simpl; try case_decide; done. Qed.

Lemma length_mask_filter (a : list A) (mask : list bool) :
  length mask = length a → length (mask_filter a mask) = count_true mask.
Proof.
  revert mask. induction a as [|x a IH]; intros [|m mask] Hlen; simplify_eq/=; [done|].
  rewrite count_true_cons. destruct m; simpl; rewrite IH; done.
Qed.

Lemma mask_filter_zip_with (f : A → B → C) (a : list A) (b : list B) (mask : list bool) :
  mask_filter (zip_with f a b) mask
  = zip_with f (mask_filter a mask) (mask_filter b mask).
Proof.
  revert b mask. induction a as [|x a IH]; intros [|y b] [|m mask]; simpl; try done.
  - destruct m; simpl; [done | by destruct (mask_filter a mask)].
  - destruct m; simpl; by rewrite IH.
Qed.

Lemma mask_filter_map (h : A → B) (a : list A) (mask : list bool) :
  mask_filter (map h a) mask = map h (mask_filter a mask).
Proof.
  revert mask. induction a as [|x a IH]; intros [|m mask]; simpl; try done.
  destruct m; simpl; by rewrite IH.
Qed.

Lemma length_mask_scatter (a : list A) (mask : list bool) (v : list A) :
  length (mask_scatter a mask v) = length a.
Proof.
  revert mask v. induction a as [|x a IH]; intros [|m mask] v; simpl; try done.
  destruct m; [destruct v|]; simpl; by rewrite IH.
Qed.

(** Writing [v[mask]] into [a[mask]] takes, pixel by pixel, the entry of
    [v] where the mask holds and keeps that of [a] elsewhere. *)
Lemma mask_scatter_filter_lookup (a v : list A) (mask : list bool) (i : nat)
    (m : bool) (x y : A) :
  mask !! i = Some m → a !! i = Some x → v !! i = Some y →
  length v = length a →
  mask_scatter a mask (mask_filter v mask) !! i = Some (if m then y else x).
Proof.
  revert v mask i. induction a as [|x0 a IH]; intros [|y0 v] [|m0 mask] i; try done.
  destruct i as [|i]; simpl.
  - intros [= ->] [= ->] [= ->] _. by destruct m.
  - intros Hm Ha Hv [= Hlen]. destruct m0; simpl; by apply IH.
Qed.

End NumPyFacts.

Section NumPyIndexFacts.
Import NumPy.

Lemma where_from_elem (mask : list bool) (j i : nat) :
  i ∈ where_from j mask ↔ j ≤ i ∧ mask !! (i - j) = Some true.
Proof.
  revert j. induction mask as [|m mask IH]; intros j; simpl.
  - split; [by intros ?%elem_of_nil | by intros [_ ?]].
  - destruct m.
    + rewrite elem_of_cons, IH. split.
      * intros [->|[Hle Hl]].
        -- split; [lia|]. by rewrite Nat.sub_diag.
        -- split; [lia|]. by replace (i - j) with (S (i - S j)) by lia.
      * intros [Hle Hl]. destruct (decide (i = j)) as [|Hne]; [by left|right].
        split; [lia|]. by replace (i - j) with (S (i - S j)) in Hl by lia.
    + rewrite IH. split.
      * intros [Hle Hl]. split; [lia|].
        by replace (i - j) with (S (i - S j)) by lia.
      * intros [Hle Hl]. destruct (decide (i = j)) as [->|Hne].
        -- by rewrite Nat.sub_diag in Hl.
        -- split; [lia|]. by replace (i - j) with (S (i - S j)) in Hl by lia.
Qed.

Lemma np_where_elem (mask : list bool) (i : nat) :
  i ∈ np_where mask ↔ mask !! i = Some true.
Proof.
  unfold np_where. rewrite where_from_elem, Nat.sub_0_r. split; [by intros [_ ?]|].
  intros ?. split; [lia|done].
Qed.

Lemma np_take_length {A : Type} (a : list A) (idx : list Z) (l : list A) :
  np_take a idx = Ok l → length l = length idx.
Proof.
  revert l. induction idx as [|i idx IH]; intros l; simpl.
  - by intros [= <-].
  - intros Hl. apply bind_Ok in Hl as (x & _ & Hl).
    apply bind_Ok in Hl as (xs & Hxs & Hl). injection Hl as <-.
    simpl. by rewrite (IH xs).
Qed.

Lemma np_index_nat {A : Type} (a : list A) (i : nat) (x : A) :
  np_index a (Z.of_nat i) = Ok x ↔ a !! i = Some x.
Proof.
  unfold np_index. destruct (decide (Z.of_nat i < 0)%Z) as [|_]; [lia|].
  rewrite Nat2Z.id. case_decide as Hr.
  - destruct (a !! i) eqn:E; split; intros [=]; by subst.
  - split; [done|]. intros Hl%lookup_lt_Some. lia.
Qed.

Lemma length_np_arange (lo hi : Z) :
  length (np_arange lo hi) = Z.to_nat (hi - lo).
Proof. unfold np_arange. by rewrite length_map, length_seq. Qed.

Lemma np_ones_Ok (n : Z) (l : list float) :
  np_ones n = Ok l → (0 ≤ n)%Z ∧ l = replicate (Z.to_nat n) 1%float.
Proof. unfold np_ones. case_decide; [done|]. intros [= <-]. split; [lia|done]. Qed.

Lemma np_min_max_idx (a : list nat) (lo hi : nat) :
  np_min_idx a = Ok lo → np_max_idx a = Ok hi → lo ≤ hi.
Proof.
  destruct a as [|x a]; [done|]. simpl. intros [= <-] [= <-].
  induction a as [|y a IH]; simpl; lia.
Qed.

(** [np.argmin] returns the first position of the least entry. *)
Lemma argmin_nat_scan_spec (a : list nat) (mp best i : nat) :
  best < i →
  let r := argmin_nat_scan mp best i a in
  (r = best ∨ (i ≤ r < i + length a))
  ∧ ∃ b, (if decide (r = best) then b = mp else a !! (r - i) = Some b)
      ∧ b ≤ mp
      ∧ (∀ k c, a !! k = Some c → b ≤ c)
      ∧ (∀ k c, i + k < r → a !! k = Some c → b < c)
      ∧ (r ≠ best → b < mp).
Proof.
  revert mp best i. induction a as [|x a IH]; intros mp best i Hlt; simpl.
  - split; [by left|]. exists mp. rewrite decide_True by done.
    repeat split; try done; try lia.
  - case_decide as Hle.
    + destruct (IH mp best (S i) ltac:(lia)) as (Hr & b & Hb & Hbm & Hall & Hfirst & Hne).
      split; [lia|]. exists b. split; [|split; [done|split; [|split; [|done]]]].
      * case_decide; [done|].
        destruct Hr as [?|Hr]; [done|].
        by replace (argmin_nat_scan mp best (S i) a - i)
          with (S (argmin_nat_scan mp best (S i) a - S i)) by lia.
      * intros [|k] c; simpl; [intros [= <-]; lia | apply Hall].
      * intros [|k] c Hk; simpl.
        -- intros [= <-]. destruct Hr as [Hr|Hr]; [lia|].
           specialize (Hne ltac:(lia)). lia.
        -- apply Hfirst. lia.
    + destruct (IH x i (S i) ltac:(lia)) as (Hr & b & Hb & Hbm & Hall & Hfirst & Hne).
      split; [lia|]. exists b. split; [|split; [lia|split; [|split; [|lia]]]].
      * rewrite decide_False by lia. case_decide as Hri.
        -- rewrite Hri, Nat.sub_diag. simpl. by subst.
        -- destruct Hr as [?|Hr]; [done|].
           by replace (argmin_nat_scan x i (S i) a - i)
             with (S (argmin_nat_scan x i (S i) a - S i)) by lia.
      * intros [|k] c; simpl; [intros [= <-]; lia | apply Hall].
      * intros [|k] c Hk; simpl.
        -- intros [= <-]. destruct Hr as [Hr|Hr]; lia.
        -- apply Hfirst. lia.
Qed.

Lemma np_argmin_nat_spec (a : list nat) (ib : nat) :
  np_argmin_nat a = Ok ib →
  ∃ b, a !! ib = Some b
    ∧ (∀ k c, a !! k = Some c → b ≤ c)
    ∧ (∀ k c, k < ib → a !! k = Some c → b < c).
Proof.
  destruct a as [|x a]; [done|]. simpl. intros [= <-].
  destruct (argmin_nat_scan_spec a x 0 1 ltac:(lia))
    as (Hr & b & Hb & Hbm & Hall & Hfirst & Hne).
  simpl in *. exists b. split; [|split].
  - case_decide as Hr0.
    + rewrite Hr0. simpl. by subst.
    + destruct Hr as [?|Hr]; [done|].
      by replace (argmin_nat_scan x 0 1 a) with (S (argmin_nat_scan x 0 1 a - 1)) at 1
        by lia.
  - intros [|k] c; simpl; [intros [= <-]; lia | apply Hall].
  - intros [|k] c Hk; simpl.
    + intros [= <-]. apply Hne. lia.
    + apply Hfirst. lia.
Qed.

Lemma np_roll_lookup {A : Type} (a : list A) (k i : nat) :
  k ≤ length a → i < length a →
  np_roll a k !! i = a !! ((i + length a - k) `mod` length a).
Proof.
  intros Hk Hi. unfold np_roll.
  destruct (decide (k = length a)) as [->|Hne].
  - rewrite Nat.Div0.mod_same, Nat.sub_0_r.
    rewrite drop_all, take_ge by done. simpl.
    replace (i + length a - length a) with i by lia. by rewrite Nat.mod_small.
  - rewrite (Nat.mod_small k (length a)) by lia.
    destruct (decide (i < k)) as [Hik|Hik].
    + rewrite lookup_app_l by (rewrite length_drop; lia).
      rewrite lookup_drop. rewrite Nat.mod_small by lia. f_equal. lia.
    + rewrite lookup_app_r by (rewrite length_drop; lia).
      rewrite length_drop. rewrite lookup_take_lt by lia.
      replace (i + length a - k) with ((i - k) + 1 * length a) by lia.
      rewrite Nat.Div0.mod_add, Nat.mod_small by lia. f_equal. lia.
Qed.

Lemma np_roll_map {A B : Type} (h : A → B) (a : list A) (k : nat) :
  np_roll (map h a) k = map h (np_roll a k).
Proof.
  unfold np_roll. rewrite length_map, map_app.
  by rewrite <- !fmap_drop, <- !fmap_take.
Qed.

Lemma length_np_roll {A : Type} (a : list A) (k : nat) :
  length (np_roll a k) = length a.
Proof.
  unfold np_roll. rewrite length_app, length_drop, length_take.
  destruct (decide (length a = 0)) as [->|Hn]; [done|].
  pose proof (Nat.mod_upper_bound k (length a) Hn). lia.
Qed.

Lemma np_index_Ok {A : Type} (a : list A) (i : Z) (x : A) :
  np_index a i = Ok x →
  (- Z.of_nat (length a) ≤ i < Z.of_nat (length a))%Z
  ∧ a !! Z.to_nat (i `mod` Z.of_nat (length a)) = Some x.
Proof.
  unfold np_index. set (n := Z.of_nat (length a)).
  destruct (decide (i < 0)%Z) as [Hneg|Hpos].
  - case_decide as Hr; [|done].
    destruct (a !! Z.to_nat (i + n)) as [y|] eqn:E; [|done]. intros [= <-].
    split; [lia|].
    replace (i `mod` n)%Z with (i + n)%Z; [done|].
    rewrite <- (Z.mod_small (i + n) n) by lia.
    replace (i + n)%Z with (i + 1 * n)%Z by lia. by rewrite Z_mod_plus_full.
  - case_decide as Hr; [|done].
    destruct (a !! Z.to_nat i) as [y|] eqn:E; [|done]. intros [= <-].
    split; [lia|]. by rewrite Z.mod_small by lia.
Qed.

Lemma np_take_lookup {A : Type} (a : list A) (idx : list Z) (l : list A) (k : nat) (i : Z) :
  np_take a idx = Ok l → idx !! k = Some i →
  ∃ x, l !! k = Some x ∧ np_index a i = Ok x.
Proof.
  revert l k. induction idx as [|i0 idx IH]; intros l k Hl Hk; [done|].
  simpl in Hl. apply bind_Ok in Hl as (x & Hx & Hl).
  apply bind_Ok in Hl as (xs & Hxs & Hl). injection Hl as <-.
  destruct k as [|k]; simpl in *.
  - injection Hk as <-. eauto.
  - by eapply IH.
Qed.

Lemma np_arange_lookup (lo hi : Z) (k : nat) :
  (Z.of_nat k < hi - lo)%Z → np_arange lo hi !! k = Some (lo + Z.of_nat k)%Z.
Proof.
  intros Hk. unfold np_arange. rewrite list_lookup_fmap, lookup_seq_lt by lia. done.
Qed.

(** Reading [a[np.arange(lo, hi)]]: the indices stay within
    [-len(a) .. len(a)-1], and a negative index reads from the end. *)
Lemma np_take_arange {A : Type} (a : list A) (lo hi : Z) (l : list A) :
  np_take a (np_arange lo hi) = Ok l →
  length l = Z.to_nat (hi - lo)
  ∧ ((lo < hi)%Z →
     (- Z.of_nat (length a) ≤ lo)%Z ∧ (hi ≤ Z.of_nat (length a))%Z)
  ∧ ∀ k, k < length l →
      l !! k = a !! Z.to_nat ((lo + Z.of_nat k) `mod` Z.of_nat (length a)).
Proof.
  intros Hl. pose proof (np_take_length _ _ _ Hl) as Hlen.
  rewrite length_np_arange in Hlen. split; [done|]. split.
  - intros Hlt.
    destruct (np_take_lookup a _ l 0 lo Hl) as (x0 & _ & Hx0).
    { rewrite np_arange_lookup by lia. f_equal. lia. }
    destruct (np_take_lookup a _ l (Z.to_nat (hi - lo - 1)) (hi - 1)%Z Hl)
      as (x1 & _ & Hx1).
    { rewrite np_arange_lookup by lia. f_equal. lia. }
    apply np_index_Ok in Hx0 as [? _]. apply np_index_Ok in Hx1 as [? _]. lia.
  - intros k Hk.
    destruct (np_take_lookup a _ l k (lo + Z.of_nat k)%Z Hl) as (x & Hx & Hidx).
    { apply np_arange_lookup. lia. }
    apply np_index_Ok in Hidx as [_ Hidx]. by rewrite Hx, Hidx.
Qed.

End NumPyIndexFacts.

(** ** The continuum and the absorption model of the GUI *)

Section FitLLSFacts.
Import NumPy Spectra FitLLS.
Context {numlib : NumLib} {linelib : LineLib}.

Lemma tilted_same_length (cflux disp : list float) (piv tilt : float) :
  length cflux = length disp →
  tilted cflux disp piv tilt
  = Ok (zip_with PrimFloat.mul cflux (map (λ w, fpow (w / piv) tilt) disp)).
Proof.
  intros Hlen. unfold tilted, np_mul.
  apply np_binop_same_length. by rewrite length_map.
Qed.

Lemma tilted_mask (cflux disp : list float) (mask : list bool) (piv tilt : float) :
  length cflux = length disp → length mask = length disp →
  tilted (mask_filter cflux mask) (mask_filter disp mask) piv tilt
  = Ok (mask_filter
          (zip_with PrimFloat.mul cflux (map (λ w, fpow (w / piv) tilt) disp)) mask).
Proof.
  intros Hc Hm. rewrite tilted_same_length.
  - by rewrite mask_filter_zip_with, mask_filter_map.
  - rewrite !length_mask_filter; congruence.
Qed.

Lemma np_mask_get_ok {A : Type} (a : list A) (mask : list bool) :
  length mask = length a → np_mask_get a mask = Ok (mask_filter a mask).
Proof. intros Hlen. unfold np_mask_get. by rewrite decide_True. Qed.

Lemma np_mask_set_filter {A : Type} (a v : list A) (mask : list bool) :
  length mask = length a → length v = length a →
  np_mask_set a mask (mask_filter v mask)
  = Ok (mask_scatter a mask (mask_filter v mask)).
Proof.
  intros Hm Hv. unfold np_mask_set. rewrite decide_True by done.
  rewrite decide_True; [done|]. apply length_mask_filter. congruence.
Qed.

(** What [update_conti] does after the continuum flux is known. *)
Lemma write_continuum_flux_frame (f : list float) (g : gui) :
  lls_model (write_continuum_flux f g) = lls_model g
  ∧ continuum (write_continuum_flux f g) = set_flux f (continuum g).
Proof. unfold write_continuum_flux. by destruct (base_is_flux g). Qed.

Lemma update_conti_finish (g g1 : gui) (cont_flux : list float) (base : list float) :
  pixel_consistent g base →
  length cont_flux = length (dispersion (continuum g)) →
  lls_model g1 = lls_model g →
  continuum g1 = set_flux cont_flux (continuum g) →
  ∃ g',
    match lls_model g1 with
    | Some m =>
        fm ← np_mul m (flux (continuum g1));
        Ok (set_full_model (set_flux fm (full_model g1)) g1)
    | None => Ok g1
    end = Ok g'
    ∧ flux (continuum g') = cont_flux
    ∧ dispersion (continuum g') = dispersion (continuum g).
Proof.
  intros (_ & _ & _ & Hm) Hlen Hl Hc. rewrite Hl.
  destruct (lls_model g) as [m|] eqn:E.
  - rewrite Hc. simpl. unfold np_mul.
    rewrite np_binop_same_length by (rewrite (Hm m); done).
    simpl. eexists; split; [done|]. simpl. by rewrite Hc.
  - eexists; split; [done|]. by rewrite Hc.
Qed.

(** C3: [update_conti] sets the continuum flux of every pixel to
    [base_continuum * Norm * (lambda/piv_wv)**tilt] when the dictionary has
    no key ['piv_wv2']; with that key, pixels with [lambda < piv_wv2] get
    [base_continuum * Norm * (lambda/piv_wv2)**tilt2] and the others
    [base_continuum * Norm * (lambda/piv_wv)**tilt]. *)
Theorem update_conti_pixels (g : gui) (base : list float) (Norm piv_wv tilt : float) :
  pixel_consistent g base →
  conti_dict g !! "Norm" = Some (PyFloat Norm) →
  conti_dict g !! "piv_wv" = Some (PyFloat piv_wv) →
  conti_dict g !! "tilt" = Some (PyFloat tilt) →
  (conti_dict g !! "piv_wv2" = None →
   ∃ g', update_conti g = Ok g'
     ∧ dispersion (continuum g') = dispersion (continuum g)
     ∧ length (flux (continuum g')) = length (dispersion (continuum g))
     ∧ ∀ i b w, base !! i = Some b → dispersion (continuum g) !! i = Some w →
         flux (continuum g') !! i = Some (b * Norm * fpow (w / piv_wv) tilt)%float)
  ∧ (∀ piv_wv2 tilt2,
       conti_dict g !! "piv_wv2" = Some (PyFloat piv_wv2) →
       conti_dict g !! "tilt2" = Some (PyFloat tilt2) →
       ∃ g', update_conti g = Ok g'
         ∧ dispersion (continuum g') = dispersion (continuum g)
         ∧ length (flux (continuum g')) = length (dispersion (continuum g))
         ∧ ∀ i b w, base !! i = Some b → dispersion (continuum g) !! i = Some w →
             flux (continuum g') !! i
             = Some (if PrimFloat.ltb w piv_wv2
                     then b * Norm * fpow (w / piv_wv2) tilt2
                     else b * Norm * fpow (w / piv_wv) tilt)%float).
Proof.
  intros Hc HNorm Hpiv Htilt.
  pose proof Hc as (Hbase & Hlb & Hlf & Hlm).
  set (disp := dispersion (continuum g)) in *.
  set (cflux := map (λ b, b * Norm)%float base).
  assert (length cflux = length disp) as Hlc by (unfold cflux; by rewrite length_map).
  split.
  - intros Hno.
    set (V := zip_with PrimFloat.mul cflux (map (λ w, fpow (w / piv_wv) tilt) disp)).
    assert (length V = length disp) as HlV.
    { unfold V. rewrite length_zip_with, length_map. lia. }
    destruct (update_conti_finish g (rebind_continuum_flux V g) V base Hc HlV
                eq_refl eq_refl) as (g' & Hg' & Hf & Hd).
    exists g'. split; [|split; [done|split; [by rewrite Hf|]]].
    + unfold update_conti. rewrite Hbase. simpl. unfold getitem.
      rewrite HNorm, Hno, Hpiv, Htilt. simpl.
      fold cflux. fold disp. rewrite tilted_same_length by done. simpl. exact Hg'.
    + intros i b w Hb Hw. rewrite Hf. unfold V, cflux.
      rewrite lookup_zip_with, !list_lookup_fmap, Hb, Hw. done.
  - intros piv_wv2 tilt2 Hp2 Ht2.
    set (lowwv := map (λ w, PrimFloat.ltb w piv_wv2) disp).
    set (highwv := map negb lowwv).
    set (V1 := zip_with PrimFloat.mul cflux (map (λ w, fpow (w / piv_wv2) tilt2) disp)).
    set (V2 := zip_with PrimFloat.mul cflux (map (λ w, fpow (w / piv_wv) tilt) disp)).
    set (f1 := mask_scatter (flux (continuum g)) lowwv (mask_filter V1 lowwv)).
    set (f2 := mask_scatter f1 highwv (mask_filter V2 highwv)).
    assert (length lowwv = length disp) as Hll by (unfold lowwv; by rewrite length_map).
    assert (length highwv = length disp) as Hlh by (unfold highwv; by rewrite length_map).
    assert (length V1 = length disp) as HlV1.
    { unfold V1. rewrite length_zip_with, length_map. lia. }
    assert (length V2 = length disp) as HlV2.
    { unfold V2. rewrite length_zip_with, length_map. lia. }
    assert (length f1 = length disp) as Hlf1.
    { unfold f1. by rewrite length_mask_scatter. }
    assert (length f2 = length disp) as Hlf2.
    { unfold f2. by rewrite length_mask_scatter. }
    destruct (write_continuum_flux_frame f2 g) as [Hwl Hwc].
    destruct (update_conti_finish g (write_continuum_flux f2 g) f2 base Hc Hlf2
                Hwl Hwc) as (g' & Hg' & Hf & Hd).
    exists g'. split; [|split; [done|split; [by rewrite Hf|]]].
    + unfold update_conti. rewrite Hbase. simpl. unfold getitem.
      rewrite HNorm, Hp2, Ht2, Hpiv, Htilt. simpl.
      fold cflux. fold disp. fold lowwv. fold highwv.
      rewrite (np_mask_get_ok cflux lowwv) by congruence. simpl.
      rewrite (tilted_mask cflux disp lowwv) by done. simpl. fold V1.
      rewrite (np_mask_set_filter (flux (continuum g)) V1 lowwv) by congruence.
      simpl. fold f1.
      rewrite (np_mask_get_ok cflux highwv) by congruence. simpl.
      rewrite (tilted_mask cflux disp highwv) by done. simpl. fold V2.
      rewrite (np_mask_set_filter f1 V2 highwv) by congruence. simpl. fold f2.
      exact Hg'.
    + intros i b w Hb Hw. rewrite Hf.
      assert (i < length disp) as Hi by (by apply lookup_lt_Some in Hw).
      destruct (lookup_lt_is_Some_2 (flux (continuum g)) i) as [x0 Hx0]; [lia|].
      assert (V1 !! i = Some (b * Norm * fpow (w / piv_wv2) tilt2)%float) as HV1.
      { unfold V1, cflux. by rewrite lookup_zip_with, !list_lookup_fmap, Hb, Hw. }
      assert (V2 !! i = Some (b * Norm * fpow (w / piv_wv) tilt)%float) as HV2.
      { unfold V2, cflux. by rewrite lookup_zip_with, !list_lookup_fmap, Hb, Hw. }
      assert (lowwv !! i = Some (PrimFloat.ltb w piv_wv2)) as Hlow.
      { unfold lowwv. by rewrite list_lookup_fmap, Hw. }
      assert (highwv !! i = Some (negb (PrimFloat.ltb w piv_wv2))) as Hhigh.
      { unfold highwv. by rewrite list_lookup_fmap, Hlow. }
      pose proof (mask_scatter_filter_lookup (flux (continuum g)) V1 lowwv i
                    _ _ _ Hlow Hx0 HV1 ltac:(congruence)) as Hf1.
      fold f1 in Hf1.
      pose proof (mask_scatter_filter_lookup f1 V2 highwv i
                    _ _ _ Hhigh Hf1 HV2 ltac:(congruence)) as Hf2.
      fold f2 in Hf2. rewrite Hf2. by destruct (PrimFloat.ltb w piv_wv2).
Qed.

Lemma update_model_nonempty (g g' : gui) :
  all_abssys g ≠ [] → update_model g = Ok g' →
  ∃ wa1 tau fm bad,
    model_wa1 g = Ok wa1 ∧ all_tau_model g wa1 = Ok tau
    ∧ np_mul (smooth_model g wa1 (exp_minus tau)) (flux (continuum g)) = Ok fm
    ∧ over_absorbed (smooth_model g wa1 (exp_minus tau)) fm (spec g) = Ok bad
    ∧ g' = set_model_shown true
             (set_bad_model bad
               (set_full_model (set_flux fm (full_model g))
                 (set_lls_model (Some (smooth_model g wa1 (exp_minus tau))) g))).
Proof.
  intros Hne Hg. unfold update_model in Hg.
  rewrite decide_False in Hg by (by destruct (all_abssys g)).
  apply bind_Ok in Hg as (wa1 & Hwa1 & Hg).
  apply bind_Ok in Hg as (tau & Htau & Hg).
  apply bind_Ok in Hg as (fm & Hfm & Hg).
  apply bind_Ok in Hg as (bad & Hbad & Hg).
  injection Hg as <-. by exists wa1, tau, fm, bad.
Qed.

Lemma update_model_invariant (g g' : gui) :
  update_model g = Ok g' → model_invariant g'.
Proof.
  intros Hg. destruct (decide (all_abssys g = [])) as [Hnil|Hne].
  - unfold update_model in Hg. rewrite Hnil in Hg. simpl in Hg.
    injection Hg as <-. intros m. simpl. done.
  - apply update_model_nonempty in Hg as (wa1 & tau & fm & bad & _ & _ & Hfm & _ & ->);
      [|done].
    intros m. simpl. by intros [= <-].
Qed.

Lemma update_model_systems (g g' : gui) :
  update_model g = Ok g' →
  all_abssys g' = all_abssys g ∧ stdout g' = stdout g ∧ count_lls g' = count_lls g.
Proof.
  intros Hg. destruct (decide (all_abssys g = [])) as [Hnil|Hne].
  - unfold update_model in Hg. rewrite Hnil in Hg. simpl in Hg.
    by injection Hg as <-.
  - by apply update_model_nonempty in Hg as (wa1 & tau & fm & bad & _ & _ & _ & _ & ->).
Qed.

(** The two steps of [update_conti]: the continuum is written in place
    (with a second pivot) or gets a new array (without), then the full
    model is multiplied out. *)
Lemma update_conti_step (g g' : gui) :
  update_conti g = Ok g' →
  ∃ f g1,
    (is_Some (conti_dict g !! "piv_wv2") ∧ g1 = write_continuum_flux f g
     ∨ conti_dict g !! "piv_wv2" = None ∧ g1 = rebind_continuum_flux f g)
    ∧ (lls_model g = None ∧ g' = g1
       ∨ ∃ m fm, lls_model g = Some m ∧ np_mul m f = Ok fm
           ∧ g' = set_full_model (set_flux fm (full_model g)) g1).
Proof.
  intros Hg. unfold update_conti in Hg.
  apply bind_Ok in Hg as (base & _ & Hg).
  apply bind_Ok in Hg as (Norm & _ & Hg).
  apply bind_Ok in Hg as (g1 & Hg1 & Hg).
  assert (∃ f, (is_Some (conti_dict g !! "piv_wv2") ∧ g1 = write_continuum_flux f g
                ∨ conti_dict g !! "piv_wv2" = None ∧ g1 = rebind_continuum_flux f g))
    as (f & Hf).
  { destruct (conti_dict g !! "piv_wv2") as [v2|].
    - apply bind_Ok in Hg1 as (p2 & _ & Hg1).
      apply bind_Ok in Hg1 as (cl & _ & Hg1).
      apply bind_Ok in Hg1 as (t2 & _ & Hg1).
      apply bind_Ok in Hg1 as (vl & _ & Hg1).
      apply bind_Ok in Hg1 as (f1 & _ & Hg1).
      apply bind_Ok in Hg1 as (ch & _ & Hg1).
      apply bind_Ok in Hg1 as (pv & _ & Hg1).
      apply bind_Ok in Hg1 as (tl & _ & Hg1).
      apply bind_Ok in Hg1 as (vh & _ & Hg1).
      apply bind_Ok in Hg1 as (f2 & _ & Hg1). injection Hg1 as <-.
      exists f2. left. eauto.
    - apply bind_Ok in Hg1 as (pv & _ & Hg1).
      apply bind_Ok in Hg1 as (tl & _ & Hg1).
      apply bind_Ok in Hg1 as (f & _ & Hg1). injection Hg1 as <-.
      exists f. right. eauto. }
  exists f, g1. split; [exact Hf|].
  assert (lls_model g1 = lls_model g ∧ continuum g1 = set_flux f (continuum g)
          ∧ full_model g1 = full_model g) as (Hl & Hc & Hfm).
  { destruct Hf as [[_ ->]|[_ ->]]; [|done].
    unfold write_continuum_flux. by destruct (base_is_flux g). }
  rewrite Hl in Hg. destruct (lls_model g) as [m|].
  - apply bind_Ok in Hg as (fm & Hfm' & Hg). injection Hg as <-.
    right. exists m, fm. rewrite Hc in Hfm'. simpl in Hfm'. by rewrite Hfm.
  - injection Hg as <-. by left.
Qed.

Lemma update_conti_inv (g g' : gui) :
  update_conti g = Ok g' →
  ∃ cont_flux,
    flux (continuum g') = cont_flux
    ∧ lls_model g' = lls_model g
    ∧ match lls_model g with
      | Some m => np_mul m cont_flux = Ok (flux (full_model g'))
      | None => full_model g' = full_model g
      end.
Proof.
  intros Hg. apply update_conti_step in Hg as (f & g1 & Hg1 & Hg).
  assert (lls_model g1 = lls_model g ∧ continuum g1 = set_flux f (continuum g)
          ∧ full_model g1 = full_model g) as (Hl & Hc & Hf).
  { destruct Hg1 as [[_ ->]|[_ ->]]; [|done].
    unfold write_continuum_flux. by destruct (base_is_flux g). }
  exists f. destruct Hg as [[E ->]|(m & fm & E & Hfm & ->)]; rewrite E; simpl.
  - by rewrite Hc, Hl, Hf.
  - by rewrite Hc, Hl.
Qed.

Lemma add_LLS_inv (z nhi b : float) (cmt : string) (model : bool) (g g' : gui) :
  add_LLS z nhi b cmt model g = Ok g' →
  all_abssys g'
  = all_abssys g ++ [new_LLS z nhi b cmt ("LLS_Sys_" +:+ pretty (S (count_lls g)))]
  ∧ stdout g' = stdout g
  ∧ count_lls g' = S (count_lls g)
  ∧ (model_invariant g → model_invariant g').
Proof.
  unfold add_LLS. destruct model.
  - intros Hg. pose proof (update_model_systems _ _ Hg) as (-> & -> & ->).
    split; [done|]. split; [done|]. split; [done|].
    intros _. by eapply update_model_invariant.
  - intros [= <-]. done.
Qed.

Lemma auto_plls_invariant (x y : float) (g g' : gui) :
  model_invariant g → auto_plls x y g = Ok g' → model_invariant g'.
Proof.
  intros Hinv Hg. unfold auto_plls in Hg.
  apply bind_Ok in Hg as (s & _ & Hg).
  apply bind_Ok in Hg as (bad & _ & Hg).
  apply bind_Ok in Hg as (ibest & _ & Hg).
  apply bind_Ok in Hg as (d & _ & Hg).
  apply bind_Ok in Hg as (b & _ & Hg).
  case_decide.
  - apply add_LLS_inv in Hg as (_ & _ & _ & Hg). by apply Hg.
  - by injection Hg as <-.
Qed.

(** C9: the full model is the absorption model times the continuum after
    every operation that changes the model: [update_model]
    re-establishes it when there is an absorber system, [update_conti]
    when [lls_model] is not [None]; so every operation keeps it, and the
    model shown is that full model. *)
Theorem full_model_is_product (g g' : gui) :
  (all_abssys g ≠ [] → update_model g = Ok g' →
   ∃ m, lls_model g' = Some m
        ∧ np_mul m (flux (continuum g')) = Ok (flux (full_model g'))
        ∧ spec_widg_model g' = Some (full_model g'))
  ∧ (∀ m, lls_model g = Some m → update_conti g = Ok g' →
       lls_model g' = Some m
       ∧ np_mul m (flux (continuum g')) = Ok (flux (full_model g')))
  ∧ (∀ op, model_invariant g → run_op op g = Ok g' → model_invariant g').
Proof.
  split; [|split].
  - intros Hne Hg.
    apply update_model_nonempty in Hg as (wa1 & tau & fm & bad & _ & _ & Hfm & _ & ->);
      [|done].
    eexists. split; [done|]. split; [exact Hfm | done].
  - intros m Hm Hg. apply update_conti_inv in Hg as (cf & Hcf & Hl & Hfm).
    rewrite Hm in Hfm, Hl. by rewrite Hcf.
  - intros op Hinv Hg. destruct op; simpl in Hg.
    + apply update_conti_inv in Hg as (cf & Hcf & Hl & Hfm).
      intros m Hm. rewrite Hl in Hm. rewrite Hm in Hfm. by rewrite Hcf.
    + by eapply update_model_invariant.
    + apply add_LLS_inv in Hg as (_ & _ & _ & Hg). by apply Hg.
    + unfold add_forest in Hg. apply bind_Ok in Hg as (nhi & _ & Hg).
      by injection Hg as <-.
    + by eapply auto_plls_invariant.
Qed.

Lemma add_forest_tau_pixels (wa1 : list float) (skip : bool)
    (forests : list GenericAbsSystem) (tau : list float) :
  Forall (λ forest, length (voigt_from_abslines wa1 (lines forest) skip) = length tau)
         forests →
  ∃ tau', add_forest_tau wa1 skip forests tau = Ok tau'
    ∧ length tau' = length tau
    ∧ ∀ i t0, tau !! i = Some t0 →
        tau' !! i = Some (fold_left PrimFloat.add (forest_tau_at wa1 skip forests i) t0).
Proof.
  revert tau. induction forests as [|forest rest IH]; intros tau Hall.
  - exists tau. by simpl.
  - apply Forall_cons in Hall as [Hlen Hrest]. simpl.
    set (v := voigt_from_abslines wa1 (lines forest) skip) in *.
    unfold np_iadd. rewrite decide_True by done. simpl.
    destruct (IH (zip_with PrimFloat.add tau v)) as (tau' & Htau' & Hl & Hpix).
    { eapply Forall_impl; [exact Hrest|]. simpl. intros f Hf.
      rewrite length_zip_with. lia. }
    exists tau'. split; [done|]. split.
    { rewrite Hl, length_zip_with. lia. }
    intros i t0 Ht0.
    destruct (lookup_lt_is_Some_2 v i) as [vi Hvi].
    { rewrite Hlen. by eapply lookup_lt_Some. }
    rewrite (Hpix i (t0 + vi)%float).
    + by rewrite nth_lookup, Hvi.
    + by rewrite lookup_zip_with, Ht0, Hvi.
Qed.

(** C2: with at least one absorber system the total optical depth is the
    optical depth of the LLS plus, in turn, the Voigt optical depth of
    every forest absorber, and the unsmoothed model flux is
    [exp(-total optical depth)]; with no absorber system [update_model]
    sets [lls_model] and the widget's model to [None] and nothing else. *)
Theorem update_model_optical_depth (g : gui) :
  (all_abssys g = [] →
   update_model g = Ok (set_model_shown false (set_lls_model None g)))
  ∧ (∀ wa1,
       all_abssys g ≠ [] →
       model_wa1 g = Ok wa1 →
       Forall (λ forest,
                 length (voigt_from_abslines wa1 (lines forest) (skip_wveval g))
                 = length (tau_multi_lls wa1 (all_abssys g) (skip_wveval g)))
              (all_forest g) →
       ∃ tau,
         all_tau_model g wa1 = Ok tau
         ∧ length tau = length (tau_multi_lls wa1 (all_abssys g) (skip_wveval g))
         ∧ (∀ i t0,
              tau_multi_lls wa1 (all_abssys g) (skip_wveval g) !! i = Some t0 →
              tau !! i
              = Some (fold_left PrimFloat.add
                        (forest_tau_at wa1 (skip_wveval g) (all_forest g) i) t0))
         ∧ (∀ i t, tau !! i = Some t →
              exp_minus tau !! i = Some (fexp (-1 * t)%float))
         ∧ (∀ g', update_model g = Ok g' →
              lls_model g' = Some (smooth_model g wa1 (exp_minus tau))
              ∧ spec_widg_model g' = Some (full_model g'))).
Proof.
  split.
  - intros Hnil. unfold update_model. by rewrite Hnil.
  - intros wa1 Hne Hwa1 Hall.
    destruct (add_forest_tau_pixels wa1 (skip_wveval g) (all_forest g) _ Hall)
      as (tau & Htau & Hlen & Hpix).
    exists tau. split; [exact Htau|]. split; [exact Hlen|]. split; [exact Hpix|].
    split.
    + intros i t Ht. unfold exp_minus. by rewrite list_lookup_fmap, Ht.
    + intros g' Hg'.
      apply update_model_nonempty in Hg'
        as (wa1' & tau' & fm & bad & Hwa1' & Htau' & _ & _ & ->); [|done].
      rewrite Hwa1 in Hwa1'. injection Hwa1' as <-.
      unfold all_tau_model in Htau'. rewrite Htau in Htau'. injection Htau' as <-.
      done.
Qed.

(** ** [auto_plls] *)

Lemma auto_plls_setup_zmin (g : gui) (x y : float) (s : plls_setup) :
  auto_plls_setup g x y = Ok s →
  plls_z s = (x / 911.7 - 1)%float
  ∧ plls_zmin g (x / 911.7 - 1)%float = Ok (zmin s).
Proof.
  intros Hs. unfold auto_plls_setup in Hs.
  apply bind_Ok in Hs as (xi & _ & Hs).
  apply bind_Ok in Hs as (c & _ & Hs).
  apply bind_Ok in Hs as (zm & Hzm & Hs).
  apply bind_Ok in Hs as (ihi & _ & Hs).
  apply bind_Ok in Hs as (ilo & _ & Hs).
  apply bind_Ok in Hs as (amax & _ & Hs).
  apply bind_Ok in Hs as (amin & _ & Hs).
  apply bind_Ok in Hs as (pad & _ & Hs).
  apply bind_Ok in Hs as (window & _ & Hs).
  apply bind_Ok in Hs as (wp & _ & Hs).
  apply bind_Ok in Hs as (fp & _ & Hs).
  apply bind_Ok in Hs as (sp & _ & Hs).
  apply bind_Ok in Hs as (cp & _ & Hs).
  injection Hs as <-. done.
Qed.

Lemma plls_zmin_ok (g : gui) (z zm : float) :
  plls_zmin g z = Ok zm →
  (∃ lls, lls ∈ all_abssys g ∧ PrimFloat.ltb z (zabs lls) = true)
  ∨ is_Some (zqso g).
Proof.
  unfold plls_zmin, zqso_plus. intros Hz.
  destruct (zqso g) as [zq|]; [right; eauto|]. left.
  case_decide; [|done]. case_decide; [done|].
  destruct (filter _ _) as [|zl zlls] eqn:E; [done|].
  assert (zl ∈ filter (λ zl, PrimFloat.ltb z zl = true) (map zabs (all_abssys g)))
    as Hin by (rewrite E; left).
  apply list_elem_of_filter in Hin as [Hlt Hin].
  apply list_elem_of_fmap in Hin as (lls & -> & Hin). eauto.
Qed.

Lemma plls_zmin_None (g : gui) (z : float) :
  zqso g = None →
  (∀ lls, lls ∈ all_abssys g → PrimFloat.ltb z (zabs lls) = false) →
  plls_zmin g z = Raise TypeError.
Proof.
  intros Hq Hall. unfold plls_zmin, zqso_plus. rewrite Hq.
  case_decide; [|done]. rewrite decide_True; [done|].
  destruct (filter _ _) as [|zl zlls] eqn:E; [done|]. exfalso.
  assert (zl ∈ filter (λ zl, PrimFloat.ltb z zl = true) (map zabs (all_abssys g)))
    as Hin by (rewrite E; left).
  apply list_elem_of_filter in Hin as [Hlt Hin].
  apply list_elem_of_fmap in Hin as (lls & -> & Hin).
  rewrite (Hall lls Hin) in Hlt. done.
Qed.

(** C10: [auto_plls] completes only if some absorber system already added
    has a redshift above the candidate's, or [self.zqso] is a number; with
    no such system and [self.zqso = None], [zmin = self.zqso + 0.01] is a
    [TypeError] and the call fails. *)
Theorem auto_plls_needs_zqso (g : gui) (x y : float) :
  (is_ok (auto_plls x y g) →
   (∃ lls, lls ∈ all_abssys g ∧ PrimFloat.ltb (x / 911.7 - 1) (zabs lls) = true)
   ∨ is_Some (zqso g))
  ∧ (zqso g = None →
     (∀ lls, lls ∈ all_abssys g → PrimFloat.ltb (x / 911.7 - 1) (zabs lls) = false) →
     plls_zmin g (x / 911.7 - 1)%float = Raise TypeError
     ∧ ∃ e, auto_plls x y g = Raise e).
Proof.
  assert (∀ g', auto_plls x y g = Ok g' → ∃ zm, plls_zmin g (x / 911.7 - 1)%float = Ok zm)
    as Hok.
  { intros g' Hg. unfold auto_plls in Hg. apply bind_Ok in Hg as (s & Hs & _).
    apply auto_plls_setup_zmin in Hs as [_ Hs]. eauto. }
  split.
  - intros [g' Hg]. destruct (Hok g' Hg) as [zm Hzm]. by eapply plls_zmin_ok.
  - intros Hq Hall. pose proof (plls_zmin_None g _ Hq Hall) as Hz.
    split; [done|].
    destruct (auto_plls x y g) as [g'|e] eqn:E; [|eauto].
    destruct (Hok g' eq_refl) as [zm Hzm]. congruence.
Qed.

Lemma result_mapM_Ok {A B : Type} (f : A → result B) (l : list A) (ys : list B) :
  result_mapM f l = Ok ys →
  length ys = length l
  ∧ ∀ k a, l !! k = Some a → ∃ b, ys !! k = Some b ∧ f a = Ok b.
Proof.
  revert ys. induction l as [|a0 l IH]; intros ys; simpl.
  - intros [= <-]. split; [done|]. intros k a [=].
  - intros Hys. apply bind_Ok in Hys as (b0 & Hb0 & Hys).
    apply bind_Ok in Hys as (bs & Hbs & Hys). injection Hys as <-.
    destruct (IH bs Hbs) as [Hlen Hall]. split; [simpl; by rewrite Hlen|].
    intros [|k] a; simpl; [intros [= <-]; eauto | apply Hall].
Qed.

Lemma filter_seq_ext (p q : nat → bool) (j n : nat) :
  (∀ i, j ≤ i < j + n → p i = q i) →
  filter (λ i, p i = true) (seq j n) = filter (λ i, q i = true) (seq j n).
Proof.
  revert j. induction n as [|n IH]; intros j Hpq; [done|]. simpl.
  rewrite !filter_cons, (Hpq j) by lia. rewrite (IH (S j)); [done|].
  intros i Hi. apply Hpq. lia.
Qed.

Lemma count_bad_filter_from (r : list float) (m : list bool) (f c e : list float) (j : nat) :
  length m = length r → length f = length r →
  length c = length r → length e = length r →
  count_bad r m f c e
  = length (filter (λ i, bad_at r m f c e (i - j) = true) (seq j (length r))).
Proof.
  revert m f c e j.
  induction r as [|r0 r IH]; intros [|m0 m] [|f0 f] [|c0 c] [|e0 e] j; try done.
  intros [= Hm] [= Hf] [= Hc] [= He]. simpl.
  rewrite filter_cons, Nat.sub_diag. unfold bad_at at 1. simpl.
  rewrite (IH m f c e (S j)) by done.
  rewrite (filter_seq_ext (λ i, bad_at (r0 :: r) (m0 :: m) (f0 :: f) (c0 :: c) (e0 :: e) (i - j))
             (λ i, bad_at r m f c e (i - S j))).
  - case_decide as Hb.
    + change (bad_row r0 m0 f0 c0 e0 = true) in Hb. by rewrite Hb.
    + change (bad_row r0 m0 f0 c0 e0 ≠ true) in Hb.
      apply not_true_is_false in Hb. by rewrite Hb.
  - intros i Hi. by replace (i - j) with (S (i - S j)) by lia.
Qed.

Lemma count_bad_filter (r : list float) (m : list bool) (f c e : list float) :
  length m = length r → length f = length r →
  length c = length r → length e = length r →
  count_bad r m f c e
  = length (filter (λ i, bad_at r m f c e i = true) (seq 0 (length r))).
Proof.
  intros Hm Hf Hc He. rewrite (count_bad_filter_from r m f c e 0) by done.
  f_equal. apply filter_seq_ext. intros i _. by rewrite Nat.sub_0_r.
Qed.

Lemma column_Ok {A : Type} (n : nat) (v c : list A) :
  column n v = Ok c → 1 < length v → length v = n ∧ c = v.
Proof.
  unfold column. case_decide as Hn; [by intros [= <-]|].
  destruct v as [|x [|x' v]]; simpl; [done| lia |done].
Qed.

(** The arrays [auto_plls] prepares. *)
Lemma auto_plls_setup_inv (g : gui) (x y : float) (s : plls_setup) :
  auto_plls_setup g x y = Ok s →
  plls_z s = (x / 911.7 - 1)%float
  ∧ apix s = plls_apix (dispersion (spec g)) (plls_z s) (zmin s)
  ∧ (0 ≤ nroll s)%Z
  ∧ (∃ window,
       np_take (convolve_psf
                  (exp_minus (tau_multi_lls (dispersion (spec g))
                                [new_LLS (plls_z s) (plls_NHI s) 20 "" ""] false)) 3)
               (map Z.of_nat (apix s)) = Ok window
       ∧ roll_flux s = replicate (Z.to_nat (nroll s)) 1%float ++ window
                       ++ replicate (Z.to_nat (nroll s)) 1%float)
  ∧ roll_msk s = map (λ f, PrimFloat.ltb f 0.7) (roll_flux s)
  ∧ ∃ len, 2 * Z.to_nat (nroll s) < len
      ∧ length (flux_pad s) = len ∧ length (sig_pad s) = len
      ∧ length (conti_pad s) = len.
Proof.
  intros Hs. unfold auto_plls_setup in Hs.
  apply bind_Ok in Hs as (xi & _ & Hs).
  apply bind_Ok in Hs as (c & _ & Hs).
  apply bind_Ok in Hs as (zm & Hzm & Hs).
  apply bind_Ok in Hs as (ihi & _ & Hs).
  apply bind_Ok in Hs as (ilo & _ & Hs).
  apply bind_Ok in Hs as (amax & Hamax & Hs).
  apply bind_Ok in Hs as (amin & Hamin & Hs).
  apply bind_Ok in Hs as (pad & Hpad & Hs).
  apply bind_Ok in Hs as (window & Hwin & Hs).
  apply bind_Ok in Hs as (wp & _ & Hs).
  apply bind_Ok in Hs as (fp & Hfp & Hs).
  apply bind_Ok in Hs as (sp & Hsp & Hs).
  apply bind_Ok in Hs as (cp & Hcp & Hs).
  injection Hs as <-. simpl.
  apply np_ones_Ok in Hpad as [Hn ->].
  pose proof (np_min_max_idx _ _ _ Hamin Hamax) as Hmm.
  apply np_take_length in Hfp, Hsp, Hcp.
  rewrite length_np_arange in Hfp, Hsp, Hcp.
  split; [done|]. split; [done|]. split; [done|]. split; [eauto|]. split; [done|].
  eexists. split; [|split; [exact Hfp|split; [exact Hsp|exact Hcp]]]. lia.
Qed.

Lemma fill_column_score (g : gui) (x y : float) (s : plls_setup) (k : nat)
    (col : plls_column) :
  auto_plls_setup g x y = Ok s →
  k < Z.to_nat (nroll s) →
  fill_column s k = Ok col →
  column_bad col = offset_score s k.
Proof.
  intros Hs Hk Hcol.
  apply auto_plls_setup_inv in Hs
    as (_ & _ & Hn & (window & _ & Hrf) & Hmsk & len & Hlen & Hlf & Hle & Hlc).
  unfold fill_column in Hcol.
  apply bind_Ok in Hcol as (f & Hf & Hcol).
  apply bind_Ok in Hcol as (c & Hc & Hcol).
  apply bind_Ok in Hcol as (e & He & Hcol).
  injection Hcol as <-.
  apply column_Ok in Hf as [Hnf ->]; [|lia].
  apply column_Ok in Hc as [Hnc ->]; [|lia].
  apply column_Ok in He as [Hne ->]; [|lia].
  set (n := length (roll_flux s)) in *.
  assert (k ≤ n) as Hkn.
  { unfold n. rewrite Hrf, !length_app, !length_replicate. lia. }
  unfold column_bad, offset_score. simpl.
  rewrite count_bad_filter; rewrite ?length_np_roll; try done.
  2: { by rewrite Hmsk, length_map. }
  fold n. f_equal. apply filter_seq_ext. intros i Hi.
  unfold bad_at, counts_against, shifted_template. fold n.
  rewrite Hmsk, np_roll_map, list_lookup_fmap.
  rewrite np_roll_lookup by (fold n; lia). fold n.
  destruct (roll_flux s !! ((i + n - k) `mod` n)) as [t|]; simpl; [|done].
  destruct (flux_pad s !! i) as [f0|]; [|done].
  destruct (conti_pad s !! i) as [c0|]; [|by destruct (sig_pad s !! i)].
  destruct (sig_pad s !! i) as [e0|]; done.
Qed.

Lemma auto_plls_bad_scores (g : gui) (x y : float) (s : plls_setup) (bad : list nat) :
  auto_plls_setup g x y = Ok s →
  auto_plls_bad s = Ok bad →
  length bad = Z.to_nat (nroll s)
  ∧ ∀ k, k < Z.to_nat (nroll s) → bad !! k = Some (offset_score s k).
Proof.
  intros Hs Hbad. unfold auto_plls_bad in Hbad.
  apply bind_Ok in Hbad as (cols & Hcols & Hbad). injection Hbad as <-.
  apply result_mapM_Ok in Hcols as [Hlen Hall].
  rewrite length_seq in Hlen. split; [by rewrite length_map|].
  intros k Hk. destruct (Hall k k) as (col & Hcol & Hfill).
  { by rewrite lookup_seq_lt. }
  rewrite list_lookup_fmap, Hcol. simpl. f_equal.
  by eapply fill_column_score.
Qed.

Lemma plls_apix_elem (disp : list float) (z zm : float) (i : nat) :
  i ∈ plls_apix disp z zm
  ↔ ∃ w, disp !! i = Some w
       ∧ PrimFloat.ltb 914 (w / (1 + z)) = true
       ∧ PrimFloat.ltb w ((1 + zm) * 1026) = true.
Proof.
  unfold plls_apix. rewrite np_where_elem, lookup_zip_with, !list_lookup_fmap.
  destruct (disp !! i) as [w|]; simpl.
  - split.
    + intros [= Hb]. apply andb_true_iff in Hb as [? ?]. eauto.
    + intros (w' & [= <-] & H1 & H2). by rewrite H1, H2.
  - split; [done | by intros (w' & [=] & _)].
Qed.

Lemma plls_zmin_cases (g : gui) (z zm : float) :
  plls_zmin g z = Ok zm →
  let higher := filter (λ zl, PrimFloat.ltb z zl = true) (map zabs (all_abssys g)) in
  (higher = [] → ∃ zq, zqso g = Some zq ∧ zm = (zq + 0.01)%float)
  ∧ (higher ≠ [] → ∃ m, np_min higher = Ok m ∧ zm = (m - 0.01)%float).
Proof.
  intros Hzm higher. unfold plls_zmin, zqso_plus in Hzm.
  destruct (decide (length (all_abssys g) ≠ 0)) as [Hne|He].
  - fold higher in Hzm. destruct (decide (length higher = 0)) as [Hl|Hl].
    + apply length_zero_iff_nil in Hl. split; [|done].
      intros _. destruct (zqso g) as [zq|]; [|done]. injection Hzm as <-. eauto.
    + split; [by intros ->|]. intros _.
      apply bind_Ok in Hzm as (m & Hm & Hzm). injection Hzm as <-. eauto.
  - assert (all_abssys g = []) as Hnil.
    { apply length_zero_iff_nil. lia. }
    assert (higher = []) as Hh by (unfold higher; by rewrite Hnil).
    split; [|done]. intros _.
    destruct (zqso g) as [zq|]; [|done]. injection Hzm as <-. eauto.
Qed.

(** Everything [auto_plls] prepares, from the click [(x, y)] and the
    state. *)
Lemma auto_plls_setup_spec (g : gui) (x y : float) (s : plls_setup) :
  auto_plls_setup g x y = Ok s →
  ∃ c amin amax i_hi i_lo,
    plls_z s = (x / 911.7 - 1)%float
    ∧ np_argmin (map (λ w, PrimFloat.abs (w - x)) (dispersion (spec g))) = Ok (ximn s)
    ∧ flux (plls_conti g) !! ximn s = Some c
    ∧ plls_NHI s = (17.29 + flog10 (-1 * flog (y / c)))%float
    ∧ plls_zmin g (plls_z s) = Ok (zmin s)
    ∧ apix s = plls_apix (dispersion (spec g)) (plls_z s) (zmin s)
    ∧ np_min_idx (apix s) = Ok amin ∧ np_max_idx (apix s) = Ok amax
    ∧ np_argmin (map (λ w, PrimFloat.abs (w - 911.7 * (1 + zmin s)))
                   (dispersion (spec g))) = Ok i_hi
    ∧ np_argmin (map (λ w, PrimFloat.abs (w - 911.7 * (1 + plls_z s)))
                   (dispersion (spec g))) = Ok i_lo
    ∧ nroll s
      = (if decide (Z.of_nat (length (dispersion (spec g)))
                    < Z.of_nat amax + (Z.of_nat i_hi - Z.of_nat i_lo))%Z
         then Z.of_nat (length (dispersion (spec g))) - Z.of_nat amax - 1
         else Z.of_nat i_hi - Z.of_nat i_lo)%Z
    ∧ length (flux_pad s)
      = Z.to_nat (Z.of_nat amax - Z.of_nat amin + 1 + 2 * nroll s)
    ∧ ∀ k, k < length (flux_pad s) →
        flux_pad s !! k
        = flux (spec g)
            !! Z.to_nat ((Z.of_nat amin - nroll s + Z.of_nat k)
                         `mod` Z.of_nat (length (flux (spec g))))
        ∧ sig_pad s !! k
          = sig (spec g)
              !! Z.to_nat ((Z.of_nat amin - nroll s + Z.of_nat k)
                           `mod` Z.of_nat (length (sig (spec g))))
        ∧ conti_pad s !! k
          = flux (plls_conti g)
              !! Z.to_nat ((Z.of_nat amin - nroll s + Z.of_nat k)
                           `mod` Z.of_nat (length (flux (plls_conti g)))).
Proof.
  intros Hs. unfold auto_plls_setup in Hs.
  apply bind_Ok in Hs as (xi & Hxi & Hs).
  apply bind_Ok in Hs as (c & Hc & Hs).
  apply bind_Ok in Hs as (zm & Hzm & Hs).
  apply bind_Ok in Hs as (ihi & Hihi & Hs).
  apply bind_Ok in Hs as (ilo & Hilo & Hs).
  apply bind_Ok in Hs as (amax & Hamax & Hs).
  apply bind_Ok in Hs as (amin & Hamin & Hs).
  apply bind_Ok in Hs as (pad & Hpad & Hs).
  apply bind_Ok in Hs as (window & Hwin & Hs).
  apply bind_Ok in Hs as (wp & Hwp & Hs).
  apply bind_Ok in Hs as (fp & Hfp & Hs).
  apply bind_Ok in Hs as (sp & Hsp & Hs).
  apply bind_Ok in Hs as (cp & Hcp & Hs).
  injection Hs as <-. simpl.
  apply np_ones_Ok in Hpad as [Hn ->].
  pose proof (np_min_max_idx _ _ _ Hamin Hamax) as Hmm.
  apply np_index_nat in Hc.
  set (nr := if decide _ then _ else _) in *.
  apply np_take_arange in Hfp as (Hlf & _ & Hf).
  apply np_take_arange in Hsp as (Hls & _ & Hsg).
  apply np_take_arange in Hcp as (Hlc & _ & Hcn).
  exists c, amin, amax, ihi, ilo.
  split; [done|]. split; [exact Hxi|]. split; [exact Hc|]. split; [done|].
  split; [exact Hzm|]. split; [done|]. split; [exact Hamin|]. split; [exact Hamax|].
  split; [exact Hihi|]. split; [exact Hilo|]. split; [done|]. split.
  { rewrite Hlf. f_equal. lia. }
  intros k Hk. split; [by apply Hf|]. split.
  - apply Hsg. lia.
  - apply Hcn. lia.
Qed.


End FitLLSFacts.

(** ** The fit file *)

Section FitFileFacts.
Import NumPy Spectra FitLLS.
Context {numlib : NumLib} {linelib : LineLib} {pydict : PyDict}.

Lemma out_entry_synced (lls : LLSSystem) :
  lines_synced lls →
  out_entry lls
  = if all_ascii (comment lls) then Ok (entry_of lls) else Raise UnicodeEncodeError.
Proof.
  intros (line & rest & Hl & Hb). unfold out_entry, entry_of, py2_str.
  rewrite Hl, Hb. by destruct (all_ascii (comment lls)).
Qed.

Lemma out_LLS_entries (systems : list LLSSystem) (kk : nat) (d : gmap string lls_entry) :
  Forall lines_synced systems →
  Forall (λ lls, all_ascii (comment lls) = true) systems →
  (∀ k, kk < k → d !! pretty k = None) →
  ∃ d', out_LLS kk systems d = Ok d'
    ∧ (map_to_list d').*2 ≡ₚ map entry_of systems ++ (map_to_list d).*2.
Proof.
  revert kk d. induction systems as [|lls rest IH]; intros kk d Hall Hasc Hfresh.
  - exists d. by simpl.
  - apply Forall_cons in Hall as [Hlls Hrest].
    apply Forall_cons in Hasc as [Ha Harest]. simpl.
    rewrite (out_entry_synced lls Hlls), Ha. simpl.
    destruct (IH (S kk) (<[pretty (kk + 1) := entry_of lls]> d) Hrest Harest)
      as (d' & Hd' & Hperm).
    { intros k Hk. rewrite lookup_insert_ne; [apply Hfresh; lia|].
      intros Heq. apply (inj pretty) in Heq. lia. }
    exists d'. split; [done|]. rewrite Hperm.
    rewrite map_to_list_insert by (apply Hfresh; lia).
    simpl. by rewrite Permutation_middle.
Qed.

Lemma result_mapM_fst_snd {V : Type} (d : gmap string V) (l : list (string * V)) :
  (∀ k v, (k, v) ∈ l → d !! k = Some v) →
  result_mapM (getitem d) (l.*1) = Ok (l.*2).
Proof.
  induction l as [|[k v] l IH]; intros Hl; [done|].
  rewrite !fmap_cons. cbn [result_mapM fst snd].
  pose proof (Hl k v ltac:(left)) as Hk.
  assert (getitem d k = Ok v) as -> by (unfold getitem; by rewrite Hk).
  cbn [mbind result_bind]. rewrite IH; [done|].
  intros k' v' Hin. apply Hl. by right.
Qed.

Lemma result_mapM_perm {A B : Type} (f : A → result B) (l l' : list A) :
  l ≡ₚ l' → ∀ ys', result_mapM f l' = Ok ys' →
  ∃ ys, result_mapM f l = Ok ys ∧ ys ≡ₚ ys'.
Proof.
  induction 1 as [|x l l' Hp IH|x y l|l l' l'' Hp1 IH1 Hp2 IH2]; intros ys' Hys'.
  - eauto.
  - simpl in *. apply bind_Ok in Hys' as (b & Hb & Hys').
    apply bind_Ok in Hys' as (bs & Hbs & Hys'). injection Hys' as <-.
    destruct (IH bs Hbs) as (ys & Hys & Hperm). exists (b :: ys).
    rewrite Hb. simpl. rewrite Hys. simpl. split; [done|]. by constructor.
  - simpl in *. apply bind_Ok in Hys' as (b & Hb & Hys').
    apply bind_Ok in Hys' as (bs & Hbs & Hys'). injection Hys' as <-.
    apply bind_Ok in Hbs as (b' & Hb' & Hbs).
    apply bind_Ok in Hbs as (bs' & Hbs' & Hbs). injection Hbs as <-.
    exists (b' :: b :: bs'). rewrite Hb'. simpl. rewrite Hb. simpl.
    rewrite Hbs'. simpl. split; [done|]. by constructor.
  - destruct (IH2 ys' Hys') as (ys2 & Hys2 & Hperm2).
    destruct (IH1 ys2 Hys2) as (ys1 & Hys1 & Hperm1).
    exists ys1. split; [done|]. by etrans.
Qed.

Lemma lookup_entries_keys (d : gmap string lls_entry) :
  ∃ es, lookup_entries d (dict_keys d) = Ok es ∧ es ≡ₚ (map_to_list d).*2.
Proof.
  unfold lookup_entries.
  apply (result_mapM_perm _ _ _ (dict_keys_perm _ d)).
  apply result_mapM_fst_snd. intros k v Hin. by apply elem_of_map_to_list.
Qed.

Lemma add_LLS_entries_spec (es : list lls_entry) (g : gui) :
  ∃ g2, add_LLS_entries es g = Ok g2
    ∧ map sys_params (all_abssys g2)
      = map sys_params (all_abssys g) ++ map entry_params es
    ∧ conti_dict g2 = conti_dict g
    ∧ base_continuum g2 = base_continuum g
    ∧ continuum g2 = continuum g
    ∧ stdout g2 = stdout g.
Proof.
  revert g. induction es as [|e es IH]; intros g.
  - exists g. simpl. by rewrite app_nil_r.
  - simpl. destruct (IH (set_llist_plot false
                            (set_all_abssys
                               (all_abssys g
                                ++ [new_LLS (entry_z e) (entry_NHI e) (entry_bval e)
                                      (entry_comment e)
                                      ("LLS_Sys_" +:+ pretty (S (count_lls g)))])
                               (set_count_lls (S (count_lls g)) g))))
      as (g2 & Hg2 & Hsys & Hc & Hb & Hcont & Hout).
    exists g2. split; [exact Hg2|]. simpl in *.
    rewrite Hsys, map_app, <- app_assoc. done.
Qed.

Lemma out_LLS_non_ascii (systems : list LLSSystem) (kk : nat) (d : gmap string lls_entry) :
  Forall lines_synced systems →
  Exists (λ lls, all_ascii (comment lls) = false) systems →
  out_LLS kk systems d = Raise UnicodeEncodeError.
Proof.
  revert kk d. induction systems as [|lls rest IH]; intros kk d Hall Hex.
  - by apply Exists_nil in Hex.
  - apply Forall_cons in Hall as [Hlls Hrest]. simpl.
    rewrite (out_entry_synced lls Hlls).
    destruct (all_ascii (comment lls)) eqn:Ha; [|done]. simpl.
    apply Exists_cons in Hex as [Hex|Hex]; [congruence|]. by apply IH.
Qed.


End FitFileFacts.

(** ** The Telfer template *)

Section TelferFacts.
Import NumPy Spectra Continuum.
Context {numlib : NumLib} {igmlib : IgmLib}.

Lemma mask_filter_first {A : Type} (l : list A) (mask : list bool) (i0 : nat) (x : A) :
  l !! i0 = Some x → mask !! i0 = Some true →
  (∀ j, j < i0 → mask !! j = Some false) →
  ∃ rest, mask_filter l mask = x :: rest.
Proof.
  revert l mask. induction i0 as [|i0 IH]; intros [|y l] [|m mask]; try done.
  - simpl. intros [= ->] [= ->] _. eauto.
  - simpl. intros Hl Hm Hfirst.
    pose proof (Hfirst 0 ltac:(lia)) as Hm0. simpl in Hm0. injection Hm0 as ->.
    apply IH; [done|done|]. intros j Hj. apply (Hfirst (S j)). lia.
Qed.

(** C7: with [igm = False] the result is the template at dispersion
    [wrest*(1+zqso)] with its flux divided by the flux of the first row at
    1450 A (so that the flux there is [s0/s0], which is 1 for a finite
    nonzero [s0]), and it does not depend on [fN_gamma] or [LL_flatten]. *)
Theorem get_telfer_spec_no_igm (telfer : list telfer_row) (zqso : float) :
  (∀ g1 g2 L1 L2,
     get_telfer_spec telfer zqso false g1 L1 = get_telfer_spec telfer zqso false g2 L2)
  ∧ (∀ g L i0 w0 s0,
       telfer !! i0 = Some (TelferRow w0 s0) →
       PrimFloat.eqb w0 1450 = true →
       (∀ j r, j < i0 → telfer !! j = Some r → PrimFloat.eqb (wrest r) 1450 = false) →
       ∃ sp, get_telfer_spec telfer zqso false g L = Ok sp
         ∧ dispersion sp = map (λ r, wrest r * (1 + zqso))%float telfer
         ∧ flux sp = map (λ r, tflux r / s0)%float telfer
         ∧ flux sp !! i0 = Some (s0 / s0)%float
         ∧ ((s0 / s0)%float = 1%float → flux sp !! i0 = Some 1%float)).
Proof.
  split; [done|].
  intros g L i0 w0 s0 Hrow Hw Hfirst. unfold get_telfer_spec.
  destruct (mask_filter_first (map tflux telfer)
              (map (λ w, PrimFloat.eqb w 1450) (map wrest telfer)) i0 s0)
    as [rest ->].
  - by rewrite list_lookup_fmap, Hrow.
  - by rewrite !list_lookup_fmap, Hrow; simpl; rewrite Hw.
  - intros j Hj. rewrite !list_lookup_fmap.
    destruct (telfer !! j) as [r|] eqn:E.
    + simpl. by rewrite (Hfirst j r).
    + apply lookup_ge_None in E. apply lookup_lt_Some in Hrow. lia.
  - eexists. split; [done|]. simpl. rewrite !map_map.
    split; [done|]. split; [done|].
    rewrite list_lookup_fmap, Hrow. simpl. split; [done|]. by intros ->.
Qed.

End TelferFacts.

(** ** Association of galaxies and targets with a field *)

Section FieldFacts.
Import NumPy Field.
Context {astro : AstroLib}.

Lemma table_take_where_from {A : Type} (pre t : list A) (mask : list bool) :
  length mask = length t →
  table_take (pre ++ t) (where_from (length pre) mask) = Ok (mask_filter t mask).
Proof.
  revert pre mask. induction t as [|x t IH]; intros pre [|m mask] Hlen; try done.
  simpl in Hlen. injection Hlen as Hlen.
  specialize (IH (pre ++ [x]) mask Hlen).
  rewrite <- app_assoc, length_app in IH. simpl in IH.
  rewrite Nat.add_1_r in IH.
  destruct m; [|exact IH].
  unfold table_take in *. simpl where_from. simpl mask_filter.
  simpl result_mapM. rewrite lookup_app_r, Nat.sub_diag by done. simpl.
  by rewrite IH.
Qed.

Lemma table_take_where {A : Type} (t : list A) (mask : list bool) :
  length mask = length t →
  table_take t (np_where mask) = Ok (mask_filter t mask).
Proof. intros Hlen. by apply (table_take_where_from [] t mask). Qed.

Lemma length_where_from (mask : list bool) (j : nat) :
  length (where_from j mask) = count_true mask.
Proof.
  revert j. induction mask as [|m mask IH]; intros j; [done|].
  rewrite count_true_cons. simpl. destruct m; simpl; by rewrite IH.
Qed.

Lemma mask_filter_pred {A : Type} (p : A → bool) (t : list A) :
  mask_filter t (map p t) = filter (λ x, p x = true) t.
Proof.
  induction t as [|x t IH]; [done|]. simpl. rewrite filter_cons.
  destruct (p x) eqn:E; simpl; by rewrite IH.
Qed.

(** [t[np.where(p(t))]] are the rows that satisfy [p]; there is none
    exactly when [np.where] is empty. *)
Lemma table_take_pred {A : Type} (p : A → bool) (t : list A) :
  table_take t (np_where (map p t)) = Ok (filter (λ x, p x = true) t)
  ∧ length (np_where (map p t)) = length (filter (λ x, p x = true) t).
Proof.
  split.
  - rewrite table_take_where by (by rewrite length_map). by rewrite mask_filter_pred.
  - unfold np_where. rewrite length_where_from.
    rewrite <- (length_mask_filter t) by (by rewrite length_map).
    by rewrite mask_filter_pred.
Qed.

Lemma filter_map_pred {A B : Type} (h : A → B) (q : B → bool) (l : list A) :
  filter (λ y, q y = true) (map h l) = map h (filter (λ x, q (h x) = true) l).
Proof.
  induction l as [|x l IH]; [done|]. simpl. rewrite !filter_cons.
  destruct (q (h x)) eqn:E; simpl; by rewrite IH.
Qed.

Lemma length_zero_nil {A : Type} (l : list A) : length l = 0 ↔ l = [].
Proof. by destruct l. Qed.

(** C5: the table returned by [get_associated_galaxies(z, R, dv_tol)]
    holds exactly the galaxies with [|c*(Z-z)/(1+z)| < dv_tol] and impact
    parameter [rho < R], with the impact parameters of those galaxies; the
    result is [None] when the velocity cut or the impact-parameter cut
    leaves no galaxy. *)
Theorem get_associated_galaxies_spec (fld : IgmGalaxyField) (gals : list galaxy)
    (z R dv_tol : float) :
  galaxies fld = Some gals →
  let in_dv := filter (λ o, in_velocity z dv_tol o = true) gals in
  let assoc :=
    filter (λ o, in_impact fld R o = true ∧ in_velocity z dv_tol o = true) gals in
  get_associated_galaxies fld z R dv_tol
  = Ok (if decide (assoc = []) then None else Some (assoc, map (rho_of fld) assoc))
  ∧ (in_dv = [] → get_associated_galaxies fld z R dv_tol = Ok None)
  ∧ (filter (λ o, in_impact fld R o = true) in_dv = [] →
     get_associated_galaxies fld z R dv_tol = Ok None).
Proof.
  intros Hgals in_dv assoc.
  assert (filter (λ o, in_impact fld R o = true) in_dv = assoc) as Hassoc.
  { unfold in_dv, assoc. apply list_filter_filter. }
  assert (get_associated_galaxies fld z R dv_tol
          = Ok (if decide (assoc = []) then None
                else Some (assoc, map (rho_of fld) assoc))) as Hmain.
  { unfold get_associated_galaxies. rewrite Hgals, map_map.
    destruct (table_take_pred (in_velocity z dv_tol) gals) as [Ht1 Hl1].
    unfold in_velocity, dv_of in *. rewrite Hl1, Ht1. fold in_dv.
    case_decide as Hdv.
    - apply length_zero_nil in Hdv. rewrite decide_True; [done|].
      rewrite <- Hassoc, Hdv. done.
    - simpl. unfold calc_rhoimpact. rewrite map_map.
      destruct (table_take_pred (in_impact fld R) in_dv) as [Ht2 Hl2].
      unfold in_impact in *. rewrite Hl2, Ht2, Hassoc.
      case_decide as Hrho.
      + apply length_zero_nil in Hrho. by rewrite decide_True.
      + rewrite decide_False by (by intros ->). simpl.
        destruct (table_take_pred (λ r, PrimFloat.ltb r R) (map (rho_of fld) in_dv))
          as [Ht3 _].
        rewrite map_map in Ht3. rewrite Ht3. simpl.
        rewrite filter_map_pred. by rewrite Hassoc. }
  split; [exact Hmain|]. split.
  - intros Hnil. rewrite Hmain, decide_True; [done|]. by rewrite <- Hassoc, Hnil.
  - intros Hnil. rewrite Hmain, decide_True; [done|]. by rewrite <- Hassoc.
Qed.

Lemma mask_filter_elem {A : Type} (l : list A) (mask : list bool) (x : A) :
  x ∈ mask_filter l mask → x ∈ l.
Proof.
  revert mask. induction l as [|y l IH]; intros [|m mask]; simpl; try done.
  - by intros ?%elem_of_nil.
  - destruct m.
    + rewrite !elem_of_cons. intros [->|Hx]; [by left|]. right. by eapply IH.
    + intros Hx. right. by eapply IH.
Qed.

Lemma remove_observed_spec (obs_ra : list float) (rows : list target) (pre : list bool) :
  remove_observed obs_ra (length pre) rows (pre ++ replicate (length rows) true)
  = pre ++ map (λ row, negb (np_contains obs_ra (TARG_RA row))) rows.
Proof.
  revert pre. induction rows as [|row rows IH]; intros pre; [done|]. simpl.
  assert (∀ b : bool,
            remove_observed obs_ra (S (length pre)) rows
              (pre ++ b :: replicate (length rows) true)
            = pre ++ b :: map (λ row, negb (np_contains obs_ra (TARG_RA row))) rows)
    as Hstep.
  { intros b. specialize (IH (pre ++ [b])).
    rewrite length_app, Nat.add_1_r, <- !app_assoc in IH. exact IH. }
  destruct (np_contains obs_ra (TARG_RA row)); simpl.
  - rewrite insert_app_r_alt, Nat.sub_diag by done. simpl. apply Hstep.
  - apply Hstep.
Qed.

Lemma angular_cut_spec (fld : IgmGalaxyField) (theta : float) (targs : list target) :
  targets fld = Some targs →
  angular_cut fld theta targs
  = Ok (if decide (targets_within fld theta = []) then None
        else Some (targets_within fld theta)).
Proof.
  intros Ht. unfold angular_cut, targets_within. rewrite Ht.
  destruct (table_take_pred (in_radius fld theta) targs) as [Htake Hlen].
  rewrite Hlen, Htake. case_decide as Hn.
  - apply length_zero_nil in Hn. by rewrite decide_True.
  - rewrite decide_False; [done|]. intros Hnil. apply Hn. by rewrite Hnil.
Qed.

Lemma get_observed_inv (fld : IgmGalaxyField) (theta : float)
    (obs_tab : list target) (obs_dict : gmap string (list (option string))) :
  get_observed fld theta None = Ok (Some (obs_tab, obs_dict)) →
  ∃ targs obs tmsk,
    targets fld = Some targs ∧ observing fld = Some obs
    ∧ angular_cut fld theta targs = Ok (Some (targets_within fld theta))
    ∧ get_observed fld theta (Some (targets_within fld theta))
      = Ok (Some (obs_tab, obs_dict))
    ∧ obs_tab = mask_filter (targets_within fld theta) tmsk.
Proof.
  intros Hobs. unfold get_observed in Hobs.
  destruct (targets fld) as [targs|] eqn:Ht; [|done].
  destruct (observing fld) as [obs|] eqn:Ho; [|done].
  rewrite (angular_cut_spec fld theta targs Ht) in Hobs.
  case_decide as Hn; [done|]. simpl in Hobs.
  case_decide as Hm; [done|].
  apply bind_Ok in Hobs as (all_masks & Ham & Hobs).
  apply bind_Ok in Hobs as ([tmsk od] & Hmark & Hobs).
  injection Hobs as <- <-. exists targs, obs, tmsk.
  split; [done|]. split; [done|]. split.
  { rewrite (angular_cut_spec fld theta targs Ht). by rewrite decide_False. }
  split; [|done].
  unfold get_observed. rewrite Ht, Ho. simpl. rewrite decide_False by done.
  rewrite Ham. simpl. rewrite Hmark. done.
Qed.

(** C6, as the code has it: when [get_observed(theta)] returns a table,
    [get_unobserved(theta)] returns the targets within [theta] whose
    [TARG_RA] is the [TARG_RA] of no observed target; the observed targets
    are within [theta] and none of them is unobserved; and when no two
    targets within [theta] share a [TARG_RA], every target within [theta]
    is in one of the two tables. *)
Theorem get_unobserved_by_RA (fld : IgmGalaxyField) (theta : float)
    (obs_tab : list target) (obs_dict : gmap string (list (option string))) :
  get_observed fld theta None = Ok (Some (obs_tab, obs_dict)) →
  ∃ unobs,
    get_unobserved fld theta = Ok (Some unobs)
    ∧ unobs = filter (λ t, np_contains (map TARG_RA obs_tab) (TARG_RA t) = false)
                (targets_within fld theta)
    ∧ (∀ t, t ∈ obs_tab → t ∈ targets_within fld theta)
    ∧ (∀ t, t ∈ obs_tab → PrimFloat.eqb (TARG_RA t) (TARG_RA t) = true → t ∉ unobs)
    ∧ ((∀ t t', t ∈ targets_within fld theta → t' ∈ targets_within fld theta →
          PrimFloat.eqb (TARG_RA t') (TARG_RA t) = true → t' = t) →
       ∀ t, t ∈ targets_within fld theta → t ∈ obs_tab ∨ t ∈ unobs).
Proof.
  intros Hobs.
  apply get_observed_inv in Hobs as (targs & obs & tmsk & Ht & Ho & Hcut & Hobs & Htab).
  set (subtab := targets_within fld theta) in *.
  set (unobs := filter (λ t, np_contains (map TARG_RA obs_tab) (TARG_RA t) = false) subtab).
  assert (∀ t, t ∈ obs_tab → t ∈ subtab) as Hsub.
  { intros t Hin. rewrite Htab in Hin. by eapply mask_filter_elem. }
  assert (∀ t, t ∈ obs_tab → PrimFloat.eqb (TARG_RA t) (TARG_RA t) = true →
               np_contains (map TARG_RA obs_tab) (TARG_RA t) = true) as Hcont.
  { intros t Hin Heq. unfold np_contains. apply existsb_exists.
    exists (TARG_RA t). split; [|done].
    apply list_elem_of_In, list_elem_of_fmap. eauto. }
  exists unobs. split; [|split; [done|split; [done|split]]].
  - unfold get_unobserved. rewrite Ht, Ho, Hcut. simpl. rewrite Hobs. simpl.
    pose proof (remove_observed_spec (map TARG_RA obs_tab) subtab []) as Hrem.
    simpl in Hrem. rewrite Hrem, mask_filter_pred. do 2 f_equal.
    apply list_filter_iff. intros t. by destruct (np_contains _ _).
  - intros t Hin Heq [Hf _]%list_elem_of_filter.
    rewrite (Hcont t Hin Heq) in Hf. done.
  - intros Hdistinct t Hin.
    destruct (np_contains (map TARG_RA obs_tab) (TARG_RA t)) eqn:E.
    + left. unfold np_contains in E. apply existsb_exists in E as (ra & Hra & Heq).
      apply list_elem_of_In, list_elem_of_fmap in Hra as (t' & -> & Hin').
      assert (t' = t) as <- by (apply Hdistinct; auto). done.
    + right. by apply list_elem_of_filter.
Qed.

End FieldFacts.

(** * The theorems on the example inputs *)

Section Runs.
Import NumPy Spectra Continuum Field FitLLS Example.


(** [update_conti] on the example GUI, whose dictionary has no second
    pivot. *)
Lemma update_conti_pixels_witness :
  ∃ g', update_conti (numlib := toy_numlib) toy_gui = Ok g'
    ∧ length (flux (continuum g')) = 31.
Proof.
  assert (pixel_consistent toy_gui (replicate 31 1%float)) as Hc.
  { split; [reflexivity|]. split; [reflexivity|]. split; [reflexivity|].
    intros m Hm. vm_compute in Hm. discriminate. }
  destruct (update_conti_pixels (numlib := toy_numlib) toy_gui
              (replicate 31 1%float) 2 915 0.5 Hc
              ltac:(vm_compute; reflexivity) ltac:(vm_compute; reflexivity)
              ltac:(vm_compute; reflexivity)) as [Hsingle _].
  destruct (Hsingle ltac:(vm_compute; reflexivity)) as (g' & Hg' & _ & Hlen & _).
  exists g'. split; [exact Hg'|]. rewrite Hlen. reflexivity.
Defined.



(** The galaxies of the example field associated with [z = 0.5]. *)
Lemma get_associated_galaxies_spec_witness :
  get_associated_galaxies (astro := flat_sky) toy_field 0.5 300 500
  = Ok (Some ([ {| RA := 10%float; DEC := 0.01%float; Z := 0.5%float |} ],
              [200%float])).
Proof.
  rewrite (proj1 (get_associated_galaxies_spec (astro := flat_sky) toy_field
                    toy_galaxies 0.5 300 500 ltac:(reflexivity))).
  vm_compute. reflexivity.
Defined.

(** The observed and unobserved targets of the example field. *)
Lemma get_unobserved_by_RA_witness :
  ∃ unobs, get_unobserved (astro := flat_sky) toy_field 5 = Ok (Some unobs)
    ∧ ∀ t, t ∈ [target_A] → t ∈ targets_within (astro := flat_sky) toy_field 5.
Proof.
  destruct (get_unobserved_by_RA (astro := flat_sky) toy_field 5
              [target_A] toy_obs_dict
              ltac:(vm_compute; reflexivity))
    as (unobs & Hun & _ & Hwithin & _).
  exists unobs. auto.
Defined.

(** Two targets at one right ascension: the second is in neither table. *)
Lemma shared_RA_counterexample :
  ¬ unobserved_is_complement (astro := flat_sky) toy_field 5.
Proof.
  intros Hclaim.
  destruct (Hclaim [target_A] toy_obs_dict
              ltac:(vm_compute; reflexivity)) as (unobs & Hun & Hiff).
  vm_compute in Hun. injection Hun as <-.
  destruct (Hiff target_B) as [_ Hback].
  apply (elem_of_nil target_B), Hback. split.
  - replace (targets_within (astro := flat_sky) toy_field 5)
      with [target_A; target_B] by (vm_compute; reflexivity).
    apply elem_of_cons. right. apply list_elem_of_singleton. reflexivity.
  - intros Hin%list_elem_of_singleton.
    assert (MASK_NAME target_B = MASK_NAME target_A) as Hm by (by rewrite Hin).
    discriminate Hm.
Qed.

(** Further runs: the absorption model of a GUI with one system, the
    failure of [auto_plls] without [zqso], the default continuum
    dictionary and the normalised template. *)
Example update_model_run :
  ∃ g', update_model (numlib := toy_numlib) (linelib := toy_linelib) commented_gui
        = Ok g'
    ∧ (m ← lls_model g'; m !! 7) = Some 0.5%float
    ∧ model_shown g' = true.
Proof.
  eexists. split; [vm_compute; reflexivity|]. vm_compute. auto.
Qed.

Example auto_plls_without_zqso :
  auto_plls (numlib := toy_numlib) (linelib := toy_linelib) 911.7 0.5
    (set_zqso None toy_gui) = Raise TypeError.
Proof. vm_compute. reflexivity. Qed.

Example init_conti_dict_default :
  ∃ d, init_conti_dict 1 0 0 1215 None default_igm default_fN_gamma default_LL_flatten
       = Ok d
    ∧ d !! "piv_wv2" = None ∧ d !! "Norm" = Some (PyFloat 1).
Proof. eexists. split; [reflexivity|]. vm_compute. auto. Qed.

Example get_telfer_spec_run :
  ∃ sp, get_telfer_spec (numlib := toy_numlib) (igmlib := no_igm) toy_telfer 2
          false None true = Ok sp
    ∧ dispersion sp = [3000; 4350; 6000]%float
    ∧ flux sp = [1.5; 1; 0.5]%float.
Proof. eexists. split; [reflexivity|]. vm_compute. auto. Qed.

End Runs.

(** * Further properties of the code *)

(** ** [field.py]: observing dates and observed targets *)

Section ObservedFacts.
Import NumPy Field.
Context {astro : AstroLib}.

Lemma table_take_head {A : Type} (t : list A) (i : nat) (idx : list nat) (x : A)
    (xs : list A) :
  table_take t (i :: idx) = Ok (x :: xs) → table_take t [i] = Ok [x].
Proof.
  unfold table_take. simpl. intros Ht.
  apply bind_Ok in Ht as (y & Hy & Ht).
  apply bind_Ok in Ht as (ys & _ & Ht). injection Ht as <- <-.
  by rewrite Hy.
Qed.

Lemma filter_eqb_mask_rows (obs : list observation) (mask_name : string) :
  filter (λ r, String.eqb (obs_MASK_NAME r) mask_name = true) obs
  = mask_rows obs mask_name.
Proof. apply list_filter_iff. intros r. apply String.eqb_eq. Qed.

Lemma get_mask_obsdate_cases (fld : IgmGalaxyField) (obs : list observation)
    (mask_name : string) :
  observing fld = Some obs →
  get_mask_obsdate fld mask_name
  = match mask_rows obs mask_name with
    | [] => Raise IndexError
    | {| DATE_OBS := None |} :: _ => Ok []
    | rows => Ok (map DATE_OBS rows)
    end.
Proof.
  intros Ho. unfold get_mask_obsdate. rewrite Ho.
  destruct (table_take_pred (λ r, String.eqb (obs_MASK_NAME r) mask_name) obs)
    as [Htake Hlen].
  rewrite filter_eqb_mask_rows in Htake, Hlen.
  destruct (np_where _) as [|mt0 mt] eqn:Emt.
  - symmetry in Hlen. apply length_zero_nil in Hlen. by rewrite Hlen.
  - destruct (mask_rows obs mask_name) as [|r0 rows] eqn:Erows; [done|].
    rewrite (table_take_head _ _ _ _ _ Htake). simpl.
    destruct r0 as [n0 [d0|]]; [|done]. by rewrite Htake.
Qed.

(** X1: [get_mask_obsdate]: an [IndexError] for a mask with no row in the
    observing table; no date when the first row of the mask has a masked
    date; otherwise the dates of all rows of the mask, in table order. *)
Theorem get_mask_obsdate_rows (fld : IgmGalaxyField) (obs : list observation)
    (mask_name : string) :
  observing fld = Some obs →
  get_mask_obsdate fld mask_name
  = match mask_rows obs mask_name with
    | [] => Raise IndexError
    | {| DATE_OBS := None |} :: _ => Ok []
    | rows => Ok (map DATE_OBS rows)
    end.
Proof. apply get_mask_obsdate_cases. Qed.

Lemma get_mask_obsdate_known (fld : IgmGalaxyField) (obs : list observation)
    (m : string) :
  observing fld = Some obs → mask_rows obs m ≠ [] →
  get_mask_obsdate fld m
  = Ok (if mask_observed obs m then map DATE_OBS (mask_rows obs m) else [])
  ∧ (mask_observed obs m = true → 0 < length (map DATE_OBS (mask_rows obs m))).
Proof.
  intros Ho Hk. rewrite (get_mask_obsdate_cases fld obs m Ho). unfold mask_observed.
  destruct (mask_rows obs m) as [|[n0 [d0|]] rows]; [done| |done].
  split; [done|]. simpl. lia.
Qed.

Lemma set_true_where_from (mask pre t : list bool) :
  length t = length mask →
  set_true (where_from (length pre) mask) (pre ++ t) = pre ++ zip_with orb t mask.
Proof.
  revert pre t. induction mask as [|m mask IH]; intros pre [|t0 t] Hlen; try done.
  simpl in Hlen. injection Hlen as Hlen.
  specialize (IH (pre ++ [t0]) t Hlen).
  rewrite length_app, Nat.add_1_r, <- !app_assoc in IH. simpl in IH.
  destruct m; simpl.
  - rewrite IH. rewrite insert_app_r_alt, Nat.sub_diag by done. simpl.
    by rewrite orb_true_r.
  - by rewrite IH, orb_false_r.
Qed.

Lemma set_true_where (mask t : list bool) :
  length t = length mask → set_true (np_where mask) t = zip_with orb t mask.
Proof. intros Hlen. by apply (set_true_where_from mask [] t). Qed.

Lemma mask_filter_where_from {A : Type} (h p : A → bool) (names : list A) (j : nat) :
  (∀ x, p x = true → h x = true) →
  mask_filter (where_from j (map h names)) (map p (mask_filter names (map h names)))
  = where_from j (map p names).
Proof.
  intros Hph. revert j. induction names as [|x names IH]; intros j; [done|]. simpl.
  destruct (h x) eqn:Eh; simpl.
  - rewrite IH. by destruct (p x).
  - rewrite IH. destruct (p x) eqn:Ep; [|done].
    rewrite (Hph x Ep) in Eh. done.
Qed.

Lemma zip_with_orb_map {A : Type} (f1 f2 : A → bool) (l : list A) (a : list bool) :
  zip_with orb (zip_with orb a (map f1 l)) (map f2 l)
  = zip_with orb a (map (λ x, f1 x || f2 x) l).
Proof.
  revert a. induction l as [|x l IH]; intros [|a0 a]; simpl; try done.
  by rewrite IH, orb_assoc.
Qed.

Lemma zip_with_orb_false (l a : list bool) :
  length a = length l → Forall (λ b, b = false) l → zip_with orb a l = a.
Proof.
  revert a. induction l as [|x l IH]; intros [|a0 a] Hlen Hall; simpl; try done.
  apply Forall_cons in Hall as [-> Hall]. rewrite orb_false_r, IH; [done| |done].
  by injection Hlen.
Qed.

Lemma np_unique_elem (a : list string) (m : string) : m ∈ np_unique a ↔ m ∈ a.
Proof.
  unfold np_unique. rewrite elem_of_remove_dups.
  by rewrite (merge_sort_Permutation string_le a).
Qed.

Lemma observed_idx (subtab : list target) (mask : string) :
  table_take (np_where (map has_mask subtab))
    (np_where
       (map (λ m, bool_decide (m = Some mask))
          (mask_filter (map MASK_NAME subtab) (map has_mask subtab))))
  = Ok (np_where (map (λ t, bool_decide (MASK_NAME t = Some mask)) subtab)).
Proof.
  rewrite table_take_where.
  2: { rewrite length_map, length_mask_filter by (by rewrite !length_map).
       unfold np_where. by rewrite length_where_from. }
  rewrite mask_filter_map, map_map. unfold np_where. f_equal.
  apply (mask_filter_where_from has_mask
           (λ t, bool_decide (MASK_NAME t = Some mask))).
  intros t Ht. apply bool_decide_eq_true in Ht. unfold has_mask.
  apply bool_decide_eq_true. by rewrite Ht.
Qed.

(** The loop of [get_observed] when every mask is in the observing
    table. *)
Lemma mark_observed_known (fld : IgmGalaxyField) (obs : list observation)
    (subtab : list target) (uni_masks : list string) (tmsk : list bool)
    (obs_dict : gmap string (list (option string))) :
  observing fld = Some obs →
  length tmsk = length subtab →
  (∀ m, m ∈ uni_masks → mask_rows obs m ≠ []) →
  mark_observed fld
    (mask_filter (map MASK_NAME subtab) (map has_mask subtab))
    (np_where (map has_mask subtab)) uni_masks tmsk obs_dict
  = Ok (zip_with orb tmsk (map (hit obs uni_masks) subtab),
        observed_dates obs uni_masks obs_dict).
Proof.
  intros Ho. revert tmsk obs_dict.
  induction uni_masks as [|mask rest IH]; intros tmsk obs_dict Hlen Hknown.
  - simpl. rewrite zip_with_orb_false; [done|by rewrite length_map|].
    apply Forall_fmap, Forall_forall. intros t _. unfold hit. simpl.
    by destruct (MASK_NAME t).
  - simpl.
    destruct (get_mask_obsdate_known fld obs mask Ho) as [-> Hpos].
    { apply Hknown. left. }
    simpl.
    assert (∀ tm d,
      length tm = length subtab →
      mark_observed fld
        (mask_filter (map MASK_NAME subtab) (map has_mask subtab))
        (np_where (map has_mask subtab)) rest tm d
      = Ok (zip_with orb tm (map (hit obs rest) subtab), observed_dates obs rest d))
      as IH'.
    { intros tm d Hl. apply IH; [done|]. intros m Hm. apply Hknown. by right. }
    assert (∀ t : target,
              (bool_decide (MASK_NAME t = Some mask) && mask_observed obs mask)
              || hit obs rest t = hit obs (mask :: rest) t) as Hhit.
    { intros t. unfold hit. destruct (MASK_NAME t) as [m|]; simpl; [|done].
      destruct (decide (m = mask)) as [->|Hne].
      - rewrite (bool_decide_eq_true_2 (Some mask = Some mask)) by done.
        rewrite (bool_decide_eq_true_2 (mask ∈ mask :: rest)) by left.
        by destruct (mask_observed obs mask), (bool_decide (mask ∈ rest)).
      - rewrite (bool_decide_eq_false_2 (Some m = Some mask)) by congruence. simpl.
        destruct (decide (m ∈ rest)) as [Hin|Hnin].
        + rewrite (bool_decide_eq_true_2 (m ∈ rest)) by done.
          by rewrite (bool_decide_eq_true_2 (m ∈ mask :: rest)) by (by right).
        + rewrite (bool_decide_eq_false_2 (m ∈ rest)) by done.
          rewrite (bool_decide_eq_false_2 (m ∈ mask :: rest)); [done|].
          intros [?|?]%elem_of_cons; done. }
    destruct (mask_observed obs mask) eqn:Eobs.
    + rewrite decide_True by (by apply Hpos).
      rewrite observed_idx. simpl.
      rewrite set_true_where by (by rewrite length_map).
      rewrite IH' by (rewrite length_zip_with, length_map; lia).
      rewrite zip_with_orb_map.
      do 3 f_equal. apply map_ext. intros t. rewrite <- Hhit.
      by rewrite andb_true_r.
    + simpl. rewrite IH' by done.
      do 3 f_equal. apply map_ext. intros t. rewrite <- Hhit.
      by rewrite andb_false_r.
Qed.


Lemma mark_observed_unknown (fld : IgmGalaxyField) (obs : list observation)
    (subtab : list target) (uni_masks : list string) (tmsk : list bool)
    (obs_dict : gmap string (list (option string))) (m : string) :
  observing fld = Some obs →
  m ∈ uni_masks → mask_rows obs m = [] →
  mark_observed fld
    (mask_filter (map MASK_NAME subtab) (map has_mask subtab))
    (np_where (map has_mask subtab)) uni_masks tmsk obs_dict
  = Raise IndexError.
Proof.
  intros Ho Hin Hm. revert tmsk obs_dict.
  induction uni_masks as [|mask rest IH]; intros tmsk obs_dict.
  - by apply elem_of_nil in Hin.
  - simpl. destruct (decide (mask_rows obs mask = [])) as [Hnil|Hknown].
    + by rewrite (get_mask_obsdate_cases fld obs mask Ho), Hnil.
    + destruct (get_mask_obsdate_known fld obs mask Ho Hknown) as [-> _]. simpl.
      assert (m ∈ rest) as Hrest.
      { apply elem_of_cons in Hin as [->|?]; done. }
      case_decide; [|by apply IH].
      rewrite observed_idx. simpl. by apply IH.
Qed.

Lemma zip_with_orb_replicate_false (l : list bool) :
  zip_with orb (replicate (length l) false) l = l.
Proof. induction l as [|b l IH]; [done|]. simpl. by rewrite IH. Qed.

Lemma filter_ext_in {A : Type} (P Q : A → Prop) `{!∀ x, Decision (P x)}
    `{!∀ x, Decision (Q x)} (l : list A) :
  (∀ x, x ∈ l → P x ↔ Q x) → filter P l = filter Q l.
Proof.
  induction l as [|x l IH]; intros Hext; [done|].
  rewrite !filter_cons. rewrite IH by (intros y Hy; apply Hext; by right).
  destruct (decide (P x)) as [HP|HP].
  - rewrite decide_True; [done|]. apply Hext; [left|done].
  - rewrite decide_False; [done|]. intros HQ. apply HP, Hext; [left|done].
Qed.

(** The names [get_observed] loops over are those of the targets. *)
Lemma uni_masks_elem (subtab : list target) (m : string) :
  m ∈ np_unique (omap id (mask_filter (map MASK_NAME subtab) (map has_mask subtab)))
  ↔ ∃ t, t ∈ subtab ∧ MASK_NAME t = Some m.
Proof.
  rewrite np_unique_elem, list_elem_of_omap. split.
  - intros (o & Ho & Hid). simpl in Hid. subst o.
    apply mask_filter_elem, list_elem_of_fmap in Ho as (t & Ht & Hin). eauto.
  - intros (t & Hin & Ht). exists (Some m). split; [|done].
    rewrite mask_filter_map, mask_filter_pred.
    apply list_elem_of_fmap. exists t. split; [done|].
    apply list_elem_of_filter. split; [|done].
    unfold has_mask. apply bool_decide_eq_true. by rewrite Ht.
Qed.

Lemma get_observed_subtab (fld : IgmGalaxyField) (theta : float)
    (targs : list target) (obs : list observation) (subtab : list target) :
  targets fld = Some targs → observing fld = Some obs →
  get_observed fld theta (Some subtab)
  = if decide (filter (λ t, has_mask t = true) subtab = []) then Ok None
    else
      '(tmsk, obs_dict) ←
        mark_observed fld
          (mask_filter (map MASK_NAME subtab) (map has_mask subtab))
          (np_where (map has_mask subtab))
          (np_unique (omap id (mask_filter (map MASK_NAME subtab) (map has_mask subtab))))
          (replicate (length subtab) false) ∅;
      Ok (Some (mask_filter subtab tmsk, obs_dict)).
Proof.
  intros Ht Ho. unfold get_observed. rewrite Ht, Ho. simpl.
  change (map (λ t, bool_decide (MASK_NAME t ≠ None)) subtab) with (map has_mask subtab).
  destruct (table_take_pred has_mask subtab) as [_ Hlen]. rewrite Hlen.
  case_decide as Hn.
  - apply length_zero_nil in Hn. by rewrite decide_True.
  - rewrite decide_False by (intros Hnil; apply Hn; by rewrite Hnil).
    rewrite table_take_where by (by rewrite !length_map). done.
Qed.

Lemma observed_dates_lookup (obs : list observation) (masks : list string)
    (d : gmap string (list (option string))) (m : string) :
  observed_dates obs masks d !! m
  = if decide (m ∈ masks ∧ mask_observed obs m = true)
    then Some (map DATE_OBS (mask_rows obs m))
    else d !! m.
Proof.
  revert d. induction masks as [|mask rest IH]; intros d.
  - unfold observed_dates. cbn [fold_left]. rewrite decide_False; [done|].
    intros [?%elem_of_nil _]. done.
  - unfold observed_dates in *. cbn [fold_left]. rewrite IH.
    destruct (decide (m ∈ rest ∧ mask_observed obs m = true)) as [[Hin Hobs]|Hn].
    + rewrite decide_True; [done|]. split; [by right|done].
    + destruct (decide (m = mask)) as [->|Hne].
      * destruct (mask_observed obs mask) eqn:Eobs.
        -- rewrite lookup_insert_eq, decide_True; [done|]. split; [left|done].
        -- rewrite decide_False; [done|]. by intros [_ ?].
      * rewrite decide_False.
        -- destruct (mask_observed obs mask); [|done]. by rewrite lookup_insert_ne.
        -- intros [[?|?]%elem_of_cons ?]; [done|]. by apply Hn.
Qed.

(** X2: [get_observed(theta)], when some target within [theta] has a mask
    name and every such name is in the observing table: the table holds
    the targets within [theta] whose mask has been observed (the first row
    of the mask in the observing table has a date), and the dictionary
    holds, for each of their masks, the dates of all rows of that mask. *)
Theorem get_observed_table (fld : IgmGalaxyField) (theta : float)
    (targs : list target) (obs : list observation) :
  targets fld = Some targs → observing fld = Some obs →
  filter (λ t, has_mask t = true) (targets_within fld theta) ≠ [] →
  (∀ t m, t ∈ targets_within fld theta → MASK_NAME t = Some m →
          mask_rows obs m ≠ []) →
  ∃ obs_dict,
    get_observed fld theta None
    = Ok (Some (filter (λ t, target_observed obs t = true) (targets_within fld theta),
                obs_dict))
    ∧ ∀ m dates,
        obs_dict !! m = Some dates
        ↔ (∃ t, t ∈ targets_within fld theta ∧ MASK_NAME t = Some m)
          ∧ mask_observed obs m = true
          ∧ dates = map DATE_OBS (mask_rows obs m).
Proof.
  intros Ht Ho Hmask Hknown.
  set (subtab := targets_within fld theta) in *.
  set (uni := np_unique (omap id (mask_filter (map MASK_NAME subtab)
                                    (map has_mask subtab)))).
  exists (observed_dates obs uni ∅). split.
  - assert (subtab ≠ []) as Hne by (intros Hnil; by rewrite Hnil in Hmask).
    unfold get_observed. rewrite Ht, Ho.
    rewrite (angular_cut_spec fld theta targs Ht). fold subtab.
    rewrite decide_False by done. simpl.
    pose proof (get_observed_subtab fld theta targs obs subtab Ht Ho) as Hsub.
    unfold get_observed in Hsub. rewrite Ht, Ho in Hsub. simpl in Hsub.
    rewrite Hsub, decide_False by done. fold uni.
    rewrite (mark_observed_known fld obs subtab uni _ _ Ho).
    + simpl. rewrite <- (length_map (hit obs uni) subtab) at 1.
      rewrite zip_with_orb_replicate_false, mask_filter_pred. do 3 f_equal.
      apply filter_ext_in. intros t Hin. unfold hit, target_observed.
      destruct (MASK_NAME t) as [m|] eqn:Em; [|done].
      rewrite bool_decide_eq_true_2; [done|]. apply uni_masks_elem. eauto.
    + by rewrite length_replicate.
    + intros m (t & Hin & Hm)%uni_masks_elem. by eapply Hknown.
  - intros m dates. rewrite observed_dates_lookup, lookup_empty.
    unfold uni. case_decide as Hd.
    + destruct Hd as [Hin%uni_masks_elem Hobs]. split.
      * intros [= <-]. done.
      * intros (_ & _ & ->). done.
    + split; [done|]. intros (Hin & Hobs & _). exfalso. apply Hd.
      split; [by apply uni_masks_elem|done].
Qed.

(** X3: A target within [theta] whose mask is missing from the observing
    table makes [get_observed] and [get_unobserved] fail with an
    [IndexError]. *)
Theorem get_observed_unknown_mask (fld : IgmGalaxyField) (theta : float)
    (targs : list target) (obs : list observation) (t : target) (m : string) :
  targets fld = Some targs → observing fld = Some obs →
  t ∈ targets_within fld theta → MASK_NAME t = Some m → mask_rows obs m = [] →
  get_observed fld theta None = Raise IndexError
  ∧ get_unobserved fld theta = Raise IndexError.
Proof.
  intros Ht Ho Hin Hm Hrows.
  set (subtab := targets_within fld theta) in *.
  assert (subtab ≠ []) as Hne by (intros Hnil; rewrite Hnil in Hin; by apply elem_of_nil in Hin).
  assert (filter (λ t, has_mask t = true) subtab ≠ []) as Hmask.
  { intros Hnil.
    assert (t ∈ filter (λ t, has_mask t = true) subtab) as Hf.
    { apply list_elem_of_filter. split; [|done].
      unfold has_mask. apply bool_decide_eq_true. by rewrite Hm. }
    rewrite Hnil in Hf. by apply elem_of_nil in Hf. }
  assert (get_observed fld theta (Some subtab) = Raise IndexError) as Hsub.
  { rewrite (get_observed_subtab fld theta targs obs subtab Ht Ho).
    rewrite decide_False by done.
    rewrite (mark_observed_unknown fld obs subtab _ _ _ m Ho); [done| |done].
    apply uni_masks_elem. eauto. }
  split.
  - unfold get_observed in Hsub |- *. rewrite Ht, Ho in Hsub |- *.
    rewrite (angular_cut_spec fld theta targs Ht). fold subtab.
    rewrite decide_False by done. exact Hsub.
  - unfold get_unobserved. rewrite Ht, Ho.
    rewrite (angular_cut_spec fld theta targs Ht). fold subtab.
    rewrite decide_False by done. simpl. by rewrite Hsub.
Qed.

(** X4: With targets within [theta] of which none has a mask name,
    [get_observed] returns [None] and [get_unobserved], which unpacks that
    result, fails with a [TypeError]. *)
Theorem get_unobserved_no_mask (fld : IgmGalaxyField) (theta : float)
    (targs : list target) (obs : list observation) :
  targets fld = Some targs → observing fld = Some obs →
  targets_within fld theta ≠ [] →
  filter (λ t, has_mask t = true) (targets_within fld theta) = [] →
  get_observed fld theta None = Ok None
  ∧ get_unobserved fld theta = Raise TypeError.
Proof.
  intros Ht Ho Hne Hmask.
  set (subtab := targets_within fld theta) in *.
  assert (get_observed fld theta (Some subtab) = Ok None) as Hsub.
  { rewrite (get_observed_subtab fld theta targs obs subtab Ht Ho).
    by rewrite decide_True. }
  split.
  - unfold get_observed in Hsub |- *. rewrite Ht, Ho in Hsub |- *.
    rewrite (angular_cut_spec fld theta targs Ht). fold subtab.
    rewrite decide_False by done. exact Hsub.
  - unfold get_unobserved. rewrite Ht, Ho.
    rewrite (angular_cut_spec fld theta targs Ht). fold subtab.
    rewrite decide_False by done. simpl. by rewrite Hsub.
Qed.

(** X5: Without a target table or an observing table both functions raise
    [ValueError]; with both tables and no target within [theta] both
    return [None]. *)
Theorem get_observed_edges (fld : IgmGalaxyField) (theta : float) :
  (targets fld = None ∨ observing fld = None →
   get_observed fld theta None = Raise ValueError
   ∧ get_unobserved fld theta = Raise ValueError)
  ∧ (is_Some (targets fld) → is_Some (observing fld) →
     targets_within fld theta = [] →
     get_observed fld theta None = Ok None ∧ get_unobserved fld theta = Ok None).
Proof.
  split.
  - unfold get_observed, get_unobserved.
    intros [Hn|Hn]; rewrite Hn; by destruct (targets fld).
  - intros [targs Ht] [obs Ho] Hnil. unfold get_observed, get_unobserved.
    rewrite Ht, Ho, (angular_cut_spec fld theta targs Ht), Hnil. done.
Qed.

End ObservedFacts.

(** ** [continuum.py]: the template with IGM opacity *)

Section TelferIgmFacts.
Import NumPy Spectra Continuum.
Context {numlib : NumLib} {igmlib : IgmLib}.

Lemma telfer_scale_mask (telfer : list telfer_row) :
  mask_filter (map tflux telfer)
    (map (λ w, PrimFloat.eqb w 1450) (map wrest telfer))
  = map tflux (filter (λ r, PrimFloat.eqb (wrest r) 1450 = true) telfer).
Proof.
  rewrite map_map, mask_filter_map. f_equal.
  apply (mask_filter_pred (λ r, PrimFloat.eqb (wrest r) 1450)).
Qed.

(** The flux of the template with IGM opacity and no flattening, row by
    row. *)
Lemma telfer_igm_flux (telfer : list telfer_row) (zqso : float)
    (fN_gamma : option float) (s0 : float) (i : nat) (r : telfer_row) :
  telfer !! i = Some r →
  mask_scatter (map (λ f, f / s0)%float (map tflux telfer))
    (map (λ w, PrimFloat.ltb w 1220) (map wrest telfer))
    (zip_with PrimFloat.mul
       (mask_filter (map (λ f, f / s0)%float (map tflux telfer))
          (map (λ w, PrimFloat.ltb w 1220) (map wrest telfer)))
       (map (λ t, fexp (-1 * t)%float)
          (map (λ w, map_etl w zqso fN_gamma)
             (mask_filter (map (λ w, w * (1 + zqso))%float (map wrest telfer))
                (map (λ w, PrimFloat.ltb w 1220) (map wrest telfer)))))) !! i
  = Some (igm_flux zqso fN_gamma s0 r).
Proof.
  intros Hr.
  set (flux0 := map (λ f, f / s0)%float (map tflux telfer)).
  set (disp := map (λ w, w * (1 + zqso))%float (map wrest telfer)).
  set (igm_wv := map (λ w, PrimFloat.ltb w 1220) (map wrest telfer)).
  set (E := λ w, fexp (-1 * map_etl w zqso fN_gamma)%float).
  set (V := zip_with PrimFloat.mul flux0 (map E disp)).
  assert (zip_with PrimFloat.mul (mask_filter flux0 igm_wv)
            (map (λ t, fexp (-1 * t)%float)
               (map (λ w, map_etl w zqso fN_gamma) (mask_filter disp igm_wv)))
          = mask_filter V igm_wv) as ->.
  { unfold V. by rewrite mask_filter_zip_with, mask_filter_map, map_map. }
  rewrite (mask_scatter_filter_lookup flux0 V igm_wv i
             (PrimFloat.ltb (wrest r) 1220) (tflux r / s0)%float
             (tflux r / s0 * E (wrest r * (1 + zqso)))%float).
  - unfold igm_flux, E. by destruct (PrimFloat.ltb (wrest r) 1220).
  - unfold igm_wv. by rewrite !list_lookup_fmap, Hr.
  - unfold flux0. by rewrite !list_lookup_fmap, Hr.
  - unfold V, flux0, disp. by rewrite lookup_zip_with, !list_lookup_fmap, Hr.
  - unfold V, flux0, disp. rewrite length_zip_with, !length_map. lia.
Qed.

(** X6: [get_telfer_spec] raises only an [IndexError], exactly when no row of
    the template is at 1450 A; when it returns, the spectrum has one pixel
    per row, at [wrest*(1+zqso)], whatever the other arguments. *)
Theorem get_telfer_spec_scale (telfer : list telfer_row) (zqso : float) (igm : bool)
    (fN_gamma : option float) (LL_flatten : bool) :
  (get_telfer_spec telfer zqso igm fN_gamma LL_flatten = Raise IndexError
   ↔ telfer_scale telfer = None)
  ∧ (∀ e, get_telfer_spec telfer zqso igm fN_gamma LL_flatten = Raise e →
          e = IndexError)
  ∧ (∀ sp, get_telfer_spec telfer zqso igm fN_gamma LL_flatten = Ok sp →
       dispersion sp = map (λ r, wrest r * (1 + zqso))%float telfer
       ∧ length (flux sp) = length telfer).
Proof.
  unfold get_telfer_spec, telfer_scale. rewrite telfer_scale_mask.
  destruct (map tflux (filter _ telfer)) as [|s0 rest].
  - split; [done|]. split; [by intros e [= <-]|done].
  - split; [|split].
    + split; [|done]. by destruct igm, LL_flatten.
    + intros e. by destruct igm, LL_flatten.
    + intros sp. destruct igm; [destruct LL_flatten|]; intros [= <-]; simpl;
        rewrite ?map_map, ?length_zip_with, ?length_mask_scatter, ?length_map;
        (split; [done|lia]).
Qed.

(** X7: With [igm = True] the normalised flux of every row blueward of 1220 A
    is multiplied by [exp(-tau_eff)] at its observed wavelength and the
    other rows are left alone; with [LL_flatten] the pixels whose rest
    wavelength is below 911.7 A are then all set to one value, the median
    over the pixels within 3 A of 914 A. *)
Theorem get_telfer_spec_igm (telfer : list telfer_row) (zqso : float)
    (fN_gamma : option float) (s0 : float) :
  telfer_scale telfer = Some s0 →
  (∃ sp, get_telfer_spec telfer zqso true fN_gamma false = Ok sp
     ∧ ∀ i r, telfer !! i = Some r →
         flux sp !! i = Some (igm_flux zqso fN_gamma s0 r))
  ∧ (∃ sp f_LL, get_telfer_spec telfer zqso true fN_gamma true = Ok sp
     ∧ f_LL = np_median
                (map (igm_flux zqso fN_gamma s0)
                   (filter (λ r, PrimFloat.ltb
                                   (PrimFloat.abs (wrest r * (1 + zqso) / (1 + zqso) - 914))
                                   3 = true) telfer))
     ∧ ∀ i r, telfer !! i = Some r →
         flux sp !! i
         = Some (if PrimFloat.ltb (wrest r * (1 + zqso) / (1 + zqso)) 911.7
                 then f_LL else igm_flux zqso fN_gamma s0 r)).
Proof.
  intros Hs0. unfold telfer_scale in Hs0. rewrite <- telfer_scale_mask in Hs0.
  unfold get_telfer_spec.
  destruct (mask_filter (map tflux telfer) _) as [|s0' rest]; [done|].
  injection Hs0 as ->.
  set (flux1 := mask_scatter _ _ _).
  assert (∀ i r, telfer !! i = Some r →
                 flux1 !! i = Some (igm_flux zqso fN_gamma s0 r)) as Hflux1.
  { intros i r Hr. by apply telfer_igm_flux. }
  assert (flux1 = map (igm_flux zqso fN_gamma s0) telfer) as Hmap.
  { apply list_eq. intros i. rewrite list_lookup_fmap.
    destruct (telfer !! i) as [r|] eqn:Hr; simpl.
    - by apply Hflux1.
    - apply lookup_ge_None. apply lookup_ge_None in Hr.
      unfold flux1. by rewrite length_mask_scatter, !length_map. }
  split.
  - eexists. split; [done|]. exact Hflux1.
  - rewrite Hmap, !map_map.
    rewrite (mask_filter_map (igm_flux zqso fN_gamma s0)).
    rewrite (mask_filter_pred
               (λ r, PrimFloat.ltb
                       (PrimFloat.abs (wrest r * (1 + zqso) / (1 + zqso) - 914)) 3)).
    eexists _, _. split; [reflexivity|]. split; [reflexivity|].
    intros i r Hr. simpl.
    by rewrite lookup_zip_with, !list_lookup_fmap, Hr.
Qed.


End TelferIgmFacts.

(** ** [xfitllsgui.py]: continuum, model, forest lines and labels *)

Section ContiModelFacts.
Import NumPy Spectra Continuum FitLLS.
Context {numlib : NumLib} {linelib : LineLib}.

Lemma set_flux_same (s : XSpectrum1D) : set_flux (flux s) s = s.
Proof. by destruct s. Qed.

Lemma set_continuum_same (g : gui) : set_continuum (continuum g) g = g.
Proof. by destruct g. Qed.

Lemma set_full_model_same (g : gui) : set_full_model (full_model g) g = g.
Proof. by destruct g. Qed.

Lemma np_mask_set_Ok {A : Type} (a : list A) (mask : list bool) (v r : list A) :
  np_mask_set a mask v = Ok r →
  ∃ v', r = mask_scatter a mask v'
    ∧ length v' = count_true mask
    ∧ length mask = length a
    ∧ ∀ a', length a' = length a → np_mask_set a' mask v = Ok (mask_scatter a' mask v').
Proof.
  intros Hr. unfold np_mask_set in Hr.
  destruct (decide (length mask = length a)) as [Hm|]; [|done].
  destruct (decide (length v = count_true mask)) as [Hv|Hv].
  - injection Hr as <-. exists v. split; [done|]. split; [done|]. split; [done|].
    intros a' Ha'. unfold np_mask_set. rewrite decide_True by congruence.
    by rewrite decide_True.
  - destruct v as [|y [|y' v]]; try done. injection Hr as <-.
    exists (replicate (count_true mask) y). split; [done|].
    split; [by rewrite length_replicate|]. split; [done|].
    intros a' Ha'. unfold np_mask_set. rewrite decide_True by congruence.
    by rewrite decide_False.
Qed.

(** Writing the low pixels and then the others leaves nothing of the
    array written into. *)
Lemma mask_scatter_both {A : Type} (low : list bool) (a b v1 v2 : list A) :
  length a = length low → length b = length low →
  length v1 = count_true low → length v2 = count_true (map negb low) →
  mask_scatter (mask_scatter a low v1) (map negb low) v2
  = mask_scatter (mask_scatter b low v1) (map negb low) v2.
Proof.
  revert a b v1 v2.
  induction low as [|m low IH]; intros [|x a] [|y b] v1 v2 Ha Hb H1 H2; try done.
  simpl in Ha, Hb. injection Ha as Ha. injection Hb as Hb.
  rewrite fmap_cons in *. rewrite count_true_cons in H1, H2.
  destruct m; simpl in *.
  - destruct v1 as [|z v1]; [done|]. injection H1 as H1. simpl.
    f_equal. by apply IH.
  - destruct v2 as [|z v2]; [done|]. injection H2 as H2. simpl.
    f_equal. by apply IH.
Qed.

Lemma set_base_is_flux_same (g : gui) :
  base_is_flux g = false → set_base_is_flux false g = g.
Proof. destruct g. simpl. by intros ->. Qed.

(** X8: [update_conti] computes the continuum from [base_continuum].
    While the base continuum is an array of its own, or the dictionary has
    no second pivot, calling it again changes nothing.  When the base
    continuum is the array of the continuum (as the constructor leaves it
    when it makes the base continuum itself) and the dictionary has a
    second pivot, the call writes the tilted continuum into that array:
    the base continuum is afterwards the continuum it has computed, and
    still shares its array, so that the next call tilts it again. *)
Theorem update_conti_idempotent (g g' : gui) :
  update_conti g = Ok g' →
  (base_is_flux g = false ∨ conti_dict g !! "piv_wv2" = None →
   update_conti g' = Ok g')
  ∧ (base_is_flux g = true → is_Some (conti_dict g !! "piv_wv2") →
     base_is_flux g' = true
     ∧ base_continuum g' = Some (flux (continuum g'))
     ∧ conti_dict g' = conti_dict g).
Proof.
  intros Hg. split; cycle 1.
  { intros Hflag [v2 Hv2].
    apply update_conti_step in Hg as (f & g1 & Hg1 & Hg).
    destruct Hg1 as [[_ ->]|[Hno _]]; [|congruence].
    unfold write_continuum_flux in Hg. rewrite Hflag in Hg.
    by destruct Hg as [[_ ->]|(m & fm & _ & _ & ->)]. }
  intros Hcase.
  assert (match lls_model g' with
          | Some m =>
              fm ← np_mul m (flux (continuum g'));
              Ok (set_full_model (set_flux fm (full_model g')) g')
          | None => Ok g'
          end = Ok g') as Hfinish.
  { apply update_conti_inv in Hg as (cf & <- & Hl & Hfm). rewrite Hl.
    destruct (lls_model g) as [m|]; [|done].
    rewrite Hfm. simpl. by rewrite set_flux_same, set_full_model_same. }
  unfold update_conti in Hg |- *.
  apply bind_Ok in Hg as (base & Hbase & Hg).
  apply bind_Ok in Hg as (Norm & HNorm & Hg).
  apply bind_Ok in Hg as (g1 & Hg1 & Hg).
  assert (∃ cf, g1 = set_base_is_flux false (set_continuum (set_flux cf (continuum g)) g)
                ∧ match conti_dict g !! "piv_wv2" with
                  | Some v2 =>
                      ∃ piv2 c_low tilt2 v_low v1 c_high piv tilt v_high v2',
                        as_float v2 = Ok piv2
                        ∧ np_mask_get (map (λ b, b * Norm)%float base)
                            (map (λ w, PrimFloat.ltb w piv2) (dispersion (continuum g)))
                          = Ok c_low
                        ∧ getitem (conti_dict g) "tilt2" ≫= as_float = Ok tilt2
                        ∧ tilted c_low
                            (mask_filter (dispersion (continuum g))
                               (map (λ w, PrimFloat.ltb w piv2) (dispersion (continuum g))))
                            piv2 tilt2 = Ok v_low
                        ∧ (∀ a', length a' = length (flux (continuum g)) →
                             np_mask_set a'
                               (map (λ w, PrimFloat.ltb w piv2) (dispersion (continuum g)))
                               v_low
                             = Ok (mask_scatter a'
                                     (map (λ w, PrimFloat.ltb w piv2)
                                        (dispersion (continuum g))) v1))
                        ∧ np_mask_get (map (λ b, b * Norm)%float base)
                            (map negb (map (λ w, PrimFloat.ltb w piv2)
                                         (dispersion (continuum g))))
                          = Ok c_high
                        ∧ getitem (conti_dict g) "piv_wv" ≫= as_float = Ok piv
                        ∧ getitem (conti_dict g) "tilt" ≫= as_float = Ok tilt
                        ∧ tilted c_high
                            (mask_filter (dispersion (continuum g))
                               (map negb (map (λ w, PrimFloat.ltb w piv2)
                                            (dispersion (continuum g)))))
                            piv tilt = Ok v_high
                        ∧ (∀ a', length a' = length (flux (continuum g)) →
                             np_mask_set a'
                               (map negb (map (λ w, PrimFloat.ltb w piv2)
                                            (dispersion (continuum g))))
                               v_high
                             = Ok (mask_scatter a'
                                     (map negb (map (λ w, PrimFloat.ltb w piv2)
                                                  (dispersion (continuum g)))) v2'))
                        ∧ length v1
                          = count_true (map (λ w, PrimFloat.ltb w piv2)
                                          (dispersion (continuum g)))
                        ∧ length v2'
                          = count_true (map negb (map (λ w, PrimFloat.ltb w piv2)
                                                    (dispersion (continuum g))))
                        ∧ length (map (λ w, PrimFloat.ltb w piv2) (dispersion (continuum g)))
                          = length (flux (continuum g))
                        ∧ cf = mask_scatter
                                 (mask_scatter (flux (continuum g))
                                    (map (λ w, PrimFloat.ltb w piv2)
                                       (dispersion (continuum g))) v1)
                                 (map negb (map (λ w, PrimFloat.ltb w piv2)
                                              (dispersion (continuum g)))) v2'
                  | None =>
                      ∃ piv tilt,
                        getitem (conti_dict g) "piv_wv" ≫= as_float = Ok piv
                        ∧ getitem (conti_dict g) "tilt" ≫= as_float = Ok tilt
                        ∧ tilted (map (λ b, b * Norm)%float base)
                            (dispersion (continuum g)) piv tilt = Ok cf
                  end) as (cf & -> & Hcf).
  { destruct (conti_dict g !! "piv_wv2") as [v2|] eqn:Ev2.
    - destruct Hcase as [Hflag|?]; [|done].
      apply bind_Ok in Hg1 as (piv2 & Hpiv2 & Hg1).
      apply bind_Ok in Hg1 as (c_low & Hclow & Hg1).
      apply bind_Ok in Hg1 as (tilt2 & Htilt2 & Hg1).
      apply bind_Ok in Hg1 as (v_low & Hvlow & Hg1).
      apply bind_Ok in Hg1 as (f1 & Hf1 & Hg1).
      apply bind_Ok in Hg1 as (c_high & Hchigh & Hg1).
      apply bind_Ok in Hg1 as (piv & Hpiv & Hg1).
      apply bind_Ok in Hg1 as (tilt & Htilt & Hg1).
      apply bind_Ok in Hg1 as (v_high & Hvhigh & Hg1).
      apply bind_Ok in Hg1 as (f2 & Hf2 & Hg1). injection Hg1 as <-.
      apply np_mask_set_Ok in Hf1 as (v1 & -> & Hv1 & Hlow & Hset1).
      apply np_mask_set_Ok in Hf2 as (v2' & -> & Hv2 & _ & Hset2).
      eexists. split.
      { unfold write_continuum_flux. rewrite Hflag.
        by rewrite set_base_is_flux_same. }
      exists piv2, c_low, tilt2, v_low, v1, c_high, piv, tilt, v_high, v2'.
      repeat (split; [done|]). split.
      { intros a' Ha'. apply Hset2. by rewrite !length_mask_scatter. }
      done.
    - apply bind_Ok in Hg1 as (piv & Hpiv & Hg1).
      apply bind_Ok in Hg1 as (tilt & Htilt & Hg1).
      apply bind_Ok in Hg1 as (f & Hf & Hg1). injection Hg1 as <-.
      exists f. split; [done|]. eauto. }
  assert (base_continuum g' = base_continuum g ∧ conti_dict g' = conti_dict g
          ∧ dispersion (continuum g') = dispersion (continuum g)
          ∧ flux (continuum g') = cf ∧ base_is_flux g' = false)
    as (Hb & Hd & Hdisp & Hflux & Hflag').
  { simpl in Hg. destruct (lls_model g) as [m|] eqn:E.
    - apply bind_Ok in Hg as (fm & Hfm & Hg). by injection Hg as <-.
    - by injection Hg as <-. }
  rewrite Hb, Hbase, Hd, HNorm, Hdisp. simpl.
  destruct (conti_dict g !! "piv_wv2") as [v2|] eqn:Ev2.
  - destruct Hcf as (piv2 & c_low & tilt2 & v_low & v1 & c_high & piv & tilt & v_high
                     & v2' & Hpiv2 & Hclow & Htilt2 & Hvlow & Hset1 & Hchigh & Hpiv
                     & Htilt & Hvhigh & Hset2 & Hv1 & Hv2 & Hlow & Hcf).
    rewrite Hpiv2. simpl. rewrite Hclow. simpl. rewrite Htilt2. simpl.
    rewrite Hvlow. simpl.
    rewrite Hset1 by (rewrite Hflux, Hcf; by rewrite !length_mask_scatter). simpl.
    rewrite Hchigh. simpl. rewrite Hpiv. simpl. rewrite Htilt. simpl.
    rewrite Hvhigh. simpl.
    rewrite Hset2 by (rewrite Hflux, Hcf; by rewrite !length_mask_scatter). simpl.
    rewrite (mask_scatter_both _ (flux (continuum g')) (flux (continuum g)) v1 v2')
      by (rewrite ?Hflux, ?Hcf, ?length_mask_scatter; done).
    rewrite <- Hcf, <- Hflux.
    unfold write_continuum_flux. rewrite Hflag'.
    rewrite set_flux_same, set_continuum_same. exact Hfinish.
  - destruct Hcf as (piv & tilt & Hpiv & Htilt & Hcf).
    rewrite Hpiv. simpl. rewrite Htilt. simpl. rewrite Hcf. simpl.
    unfold rebind_continuum_flux. rewrite <- Hflux.
    rewrite set_flux_same, set_continuum_same.
    rewrite set_base_is_flux_same by done. exact Hfinish.
Qed.

(** X9: After [update_model], the flagged pixels are those where the
    absorption model is below 0.7 and the full model is below the data by
    more than 1.5 sigma. *)
Theorem update_model_bad_pixels (g g' : gui) (m : list float) :
  all_abssys g ≠ [] →
  update_model g = Ok g' →
  lls_model g' = Some m →
  length m = length (flux (spec g)) →
  length (sig (spec g)) = length (flux (spec g)) →
  length (flux (continuum g)) = length (flux (spec g)) →
  ∀ i, i ∈ bad_model g'
       ↔ ∃ mi fi di ei,
           m !! i = Some mi ∧ flux (full_model g') !! i = Some fi
           ∧ flux (spec g) !! i = Some di ∧ sig (spec g) !! i = Some ei
           ∧ PrimFloat.ltb mi 0.7 = true
           ∧ PrimFloat.ltb fi (di - ei * 1.5) = true.
Proof.
  intros Hne Hg Hm Hlm Hls Hlc i.
  apply update_model_nonempty in Hg
    as (wa1 & tau & fm & bad & _ & _ & Hfm & Hbad & ->); [|done].
  simpl in Hm |- *. injection Hm as <-.
  set (model := smooth_model g wa1 (exp_minus tau)) in *.
  unfold np_mul in Hfm. rewrite np_binop_same_length in Hfm by congruence.
  injection Hfm as <-.
  unfold over_absorbed in Hbad.
  rewrite np_binop_same_length in Hbad by (rewrite length_map; congruence).
  simpl in Hbad.
  rewrite np_binop_same_length in Hbad
    by (rewrite !length_zip_with, length_map; lia).
  simpl in Hbad.
  rewrite np_binop_same_length in Hbad
    by (rewrite !length_zip_with, !length_map; lia).
  simpl in Hbad. injection Hbad as <-.
  rewrite np_where_elem, !lookup_zip_with, !list_lookup_fmap.
  destruct (model !! i) as [mi|]; simpl.
  2: { split; [done|]. by intros (? & ? & ? & ? & [=] & _). }
  destruct (flux (continuum g) !! i) as [ci|]; simpl.
  2: { split; [done|]. by intros (? & ? & ? & ? & _ & [=] & _). }
  destruct (flux (spec g) !! i) as [di|]; simpl.
  2: { split; [done|]. by intros (? & ? & ? & ? & _ & _ & [=] & _). }
  destruct (sig (spec g) !! i) as [ei|]; simpl.
  2: { split; [done|]. by intros (? & ? & ? & ? & _ & _ & _ & [=] & _). }
  split.
  - intros [= [H1 H2]%andb_true_iff]. by exists mi, (mi * ci)%float, di, ei.
  - intros (? & ? & ? & ? & [= <-] & [= <-] & [= <-] & [= <-] & H1 & H2).
    by rewrite H1, H2.
Qed.

Lemma add_forest_tau_app (wa1 : list float) (skip : bool)
    (forests : list GenericAbsSystem) (forest : GenericAbsSystem) (tau : list float) :
  add_forest_tau wa1 skip (forests ++ [forest]) tau
  = add_forest_tau wa1 skip forests tau
    ≫= λ t, np_iadd t (voigt_from_abslines wa1 (lines forest) skip).
Proof.
  revert tau. induction forests as [|f0 forests IH]; intros tau; simpl.
  - by destruct (np_iadd tau _).
  - destruct (np_iadd tau _) as [tau'|e]; simpl; [apply IH|done].
Qed.

(** X10: A key other than 6, 7, 8, 9 is a [KeyError]; otherwise [add_forest]
    appends one absorber with Lya, Lyb and Lyg at the given redshift, with
    [b = 20] and column density [10**NHI], and the optical depth of the
    model becomes the previous one plus the new absorber's. *)
Theorem add_forest_optical_depth (inp : string) (z : float) (g : gui) :
  (add_forest inp z g = Raise KeyError ↔ inp ∉ ["6"; "7"; "8"; "9"])
  ∧ (∀ g1, add_forest inp z g = Ok g1 →
       ∃ forest,
         g1 = set_all_forest (all_forest g ++ [forest]) g
         ∧ forest_zabs forest = z
         ∧ map trans (lines forest) = ["HI 1215"; "HI 1025"; "HI 972"]
         ∧ Forall (λ l, attrib_z l = z ∧ attrib_b l = 20%float
                        ∧ attrib_N l = fpow 10 (forest_NHI forest))
                  (lines forest)
         ∧ ∀ wa1,
             all_tau_model g1 wa1
             = all_tau_model g wa1
               ≫= λ tau, np_iadd tau
                           (voigt_from_abslines wa1 (lines forest) (skip_wveval g))).
Proof.
  unfold add_forest, getitem. split.
  - assert (inp ∈ ["6"; "7"; "8"; "9"]
            ↔ inp = "6" ∨ inp = "7" ∨ inp = "8" ∨ inp = "9") as Hkeys.
    { rewrite !elem_of_cons, elem_of_nil. tauto. }
    rewrite Hkeys. unfold NHI_dict.
    destruct (decide (inp = "6")) as [->|H6]; [split; [done|tauto]|].
    destruct (decide (inp = "7")) as [->|H7]; [split; [done|tauto]|].
    destruct (decide (inp = "8")) as [->|H8]; [split; [done|tauto]|].
    destruct (decide (inp = "9")) as [->|H9]; [split; [done|tauto]|].
    rewrite !lookup_insert_ne, lookup_empty by done.
    split; [tauto|done].
  - intros g1 Hg1. destruct (NHI_dict !! inp) as [nhi|]; [|done].
    simpl in Hg1. injection Hg1 as <-. eexists. split; [reflexivity|].
    simpl. split; [done|]. split; [done|]. split.
    + repeat (apply Forall_cons; split; [done|]). apply Forall_nil_2.
    + intros wa1. unfold all_tau_model. simpl. apply add_forest_tau_app.
Qed.

Lemma update_conti_frame (g g' : gui) :
  update_conti g = Ok g' →
  all_abssys g' = all_abssys g ∧ count_lls g' = count_lls g.
Proof.
  intros Hg. apply update_conti_step in Hg as (f & g1 & Hg1 & Hg).
  assert (all_abssys g1 = all_abssys g ∧ count_lls g1 = count_lls g) as [Ha Hc].
  { destruct Hg1 as [[_ ->]|[_ ->]]; [|done].
    unfold write_continuum_flux. by destruct (base_is_flux g). }
  by destruct Hg as [[_ ->]|(m & fm & _ & _ & ->)].
Qed.

Lemma labels_wf_frame (g g' : gui) :
  all_abssys g' = all_abssys g → count_lls g' = count_lls g →
  labels_wf g → labels_wf g'.
Proof. unfold labels_wf. by intros -> ->. Qed.

Lemma label_inj (j k : nat) :
  "LLS_Sys_" +:+ pretty j = "LLS_Sys_" +:+ pretty k → j = k.
Proof. simpl. intros [= H]. by apply (inj pretty). Qed.

Lemma add_LLS_labels (z nhi b : float) (cmt : string) (model : bool) (g g' : gui) :
  labels_wf g → add_LLS z nhi b cmt model g = Ok g' → labels_wf g'.
Proof.
  intros [Hnd Hk] Hg. apply add_LLS_inv in Hg as (Hsys & _ & Hcount & _).
  unfold labels_wf. rewrite Hsys, Hcount. split.
  - rewrite map_app. apply NoDup_app. split; [done|]. split; [|apply NoDup_singleton].
    intros lbl (lls & -> & Hin)%list_elem_of_fmap Hnew.
    apply list_elem_of_singleton in Hnew.
    destruct (Hk lls Hin) as (k & Hr & Hl). rewrite Hl in Hnew.
    apply label_inj in Hnew. lia.
  - intros lls [Hin|Hin%list_elem_of_singleton]%elem_of_app.
    + destruct (Hk lls Hin) as (k & Hr & Hl). exists k. split; [lia|done].
    + subst lls. exists (S (count_lls g)). split; [lia|done].
Qed.

(** X11: The labels of the systems stay pairwise different under every
    operation. *)
Theorem labels_stay_unique (op : gui_op) (g g' : gui) :
  labels_wf g → run_op op g = Ok g' → labels_wf g'.
Proof.
  intros Hwf Hg. destruct op; simpl in Hg.
  - apply update_conti_frame in Hg as [Hs Hc]. by eapply labels_wf_frame.
  - apply update_model_systems in Hg as (Hs & _ & Hc). by eapply labels_wf_frame.
  - by eapply add_LLS_labels.
  - unfold add_forest in Hg. apply bind_Ok in Hg as (nhi & _ & Hg).
    by injection Hg as <-.
  - unfold auto_plls in Hg.
    apply bind_Ok in Hg as (s & _ & Hg).
    apply bind_Ok in Hg as (bad & _ & Hg).
    apply bind_Ok in Hg as (ibest & _ & Hg).
    apply bind_Ok in Hg as (d & _ & Hg).
    apply bind_Ok in Hg as (b & _ & Hg).
    case_decide; [by eapply add_LLS_labels|]. by injection Hg as <-.
Qed.

(** X12: The padded window of [auto_plls]: when the call gets past its set-up,
    the window [min(apix)-nroll .. max(apix)+nroll] ends inside the
    spectrum, and the pixels it has before the first pixel of the spectrum
    are read, by numpy's negative indices, from the red end. *)
Theorem auto_plls_window (g : gui) (x y : float) (s : plls_setup) :
  auto_plls_setup g x y = Ok s →
  ∃ amin amax : nat,
    np_min_idx (apix s) = Ok amin ∧ np_max_idx (apix s) = Ok amax
    ∧ amin ≤ amax ∧ (0 ≤ nroll s)%Z
    ∧ (Z.of_nat amax + nroll s < Z.of_nat (length (dispersion (spec g))))%Z
    ∧ (- Z.of_nat (length (dispersion (spec g))) ≤ Z.of_nat amin - nroll s)%Z
    ∧ length (flux_pad s) = Z.to_nat (Z.of_nat amax - Z.of_nat amin + 1 + 2 * nroll s)
    ∧ ∀ k, k < length (flux_pad s) →
        flux_pad s !! k
        = flux (spec g)
            !! Z.to_nat ((Z.of_nat amin - nroll s + Z.of_nat k)
                         `mod` Z.of_nat (length (flux (spec g))))
        ∧ sig_pad s !! k
          = sig (spec g)
              !! Z.to_nat ((Z.of_nat amin - nroll s + Z.of_nat k)
                           `mod` Z.of_nat (length (sig (spec g))))
        ∧ conti_pad s !! k
          = flux (plls_conti g)
              !! Z.to_nat ((Z.of_nat amin - nroll s + Z.of_nat k)
                           `mod` Z.of_nat (length (flux (plls_conti g)))).
Proof.
  intros Hs. unfold auto_plls_setup in Hs.
  apply bind_Ok in Hs as (xi & _ & Hs).
  apply bind_Ok in Hs as (c & _ & Hs).
  apply bind_Ok in Hs as (zm & Hzm & Hs).
  apply bind_Ok in Hs as (ihi & _ & Hs).
  apply bind_Ok in Hs as (ilo & _ & Hs).
  apply bind_Ok in Hs as (amax & Hamax & Hs).
  apply bind_Ok in Hs as (amin & Hamin & Hs).
  apply bind_Ok in Hs as (pad & Hpad & Hs).
  apply bind_Ok in Hs as (window & Hwin & Hs).
  apply bind_Ok in Hs as (wp & Hwp & Hs).
  apply bind_Ok in Hs as (fp & Hfp & Hs).
  apply bind_Ok in Hs as (sp & Hsp & Hs).
  apply bind_Ok in Hs as (cp & Hcp & Hs).
  injection Hs as <-. simpl.
  apply np_ones_Ok in Hpad as [Hn ->].
  pose proof (np_min_max_idx _ _ _ Hamin Hamax) as Hmm.
  set (nr := if decide _ then _ else _) in *.
  apply np_take_arange in Hwp as (_ & Hbound & _).
  apply np_take_arange in Hfp as (Hlf & _ & Hf).
  apply np_take_arange in Hsp as (Hls & _ & Hsg).
  apply np_take_arange in Hcp as (Hlc & _ & Hc).
  destruct Hbound as [Hlo Hhi]; [lia|].
  exists amin, amax. split; [done|]. split; [done|]. split; [done|].
  split; [done|]. split; [lia|]. split; [lia|]. split.
  { rewrite Hlf. f_equal. lia. }
  intros k Hk. split; [by apply Hf|]. split.
  - apply Hsg. lia.
  - apply Hc. lia.
Qed.

End ContiModelFacts.

(** ** [xfitllsgui.py]: the written file and reading it back *)

Section FitFileMoreFacts.
Import NumPy Spectra Continuum FitLLS.
Context {numlib : NumLib} {linelib : LineLib} {pydict : PyDict}.

Lemma lstrip_no_lead (s : string) : no_lead (lstrip s).
Proof.
  induction s as [|c s IH]; [done|]. simpl.
  destruct (is_space c) eqn:E; [done|]. simpl. done.
Qed.

Lemma lstrip_id (s : string) : no_lead s → lstrip s = s.
Proof. destruct s as [|c s]; [done|]. simpl. by intros ->. Qed.

Lemma rstrip_no_lead (s : string) : no_lead s → no_lead (rstrip s).
Proof.
  destruct s as [|c s]; [done|]. simpl. intros Hc.
  destruct (rstrip s); simpl; by rewrite ?Hc.
Qed.

Lemma rstrip_rstrip (s : string) : rstrip (rstrip s) = rstrip s.
Proof.
  induction s as [|c s IH]; [done|]. simpl.
  destruct (rstrip s) as [|c' r] eqn:E.
  - destruct (is_space c) eqn:Ec; [done|]. simpl. by rewrite Ec.
  - simpl in *. by rewrite IH.
Qed.

Lemma strip_strip (s : string) : strip (strip s) = strip s.
Proof.
  unfold strip. rewrite (lstrip_id (rstrip (lstrip s))).
  - apply rstrip_rstrip.
  - apply rstrip_no_lead, lstrip_no_lead.
Qed.

Lemma out_entry_Ok (lls : LLSSystem) (e : lls_entry) :
  out_entry lls = Ok e →
  ∃ line rest,
    lls_lines lls = line :: rest ∧ all_ascii (comment lls) = true
    ∧ e = {| entry_z := zabs lls; entry_NHI := NHI lls; entry_bval := attrib_b line;
             entry_comment := strip (comment lls) |}.
Proof.
  unfold out_entry, py2_str. destruct (lls_lines lls) as [|line rest]; [done|].
  destruct (all_ascii (comment lls)); [|done]. simpl. intros [= <-]. eauto.
Qed.

Lemma out_entry_writable (lls : LLSSystem) :
  lls_lines lls ≠ [] → all_ascii (comment lls) = true → is_ok (out_entry lls).
Proof.
  unfold out_entry, py2_str. destruct (lls_lines lls); [done|].
  intros _ ->. by eexists.
Qed.

Lemma out_LLS_lookup (systems : list LLSSystem) (kk : nat)
    (d d' : gmap string lls_entry) :
  out_LLS kk systems d = Ok d' →
  (∀ k lls, systems !! k = Some lls →
     ∃ e, out_entry lls = Ok e ∧ d' !! pretty (kk + k + 1) = Some e)
  ∧ (∀ key, (∀ k, k < length systems → key ≠ pretty (kk + k + 1)) →
       d' !! key = d !! key).
Proof.
  revert kk d. induction systems as [|lls0 rest IH]; intros kk d Hd'.
  - simpl in Hd'. injection Hd' as <-. split; [by intros k lls [=]|done].
  - simpl in Hd'. apply bind_Ok in Hd' as (e0 & He0 & Hd').
    destruct (IH _ _ Hd') as [Hlook Hother]. split.
    + intros [|k] lls Hk; simpl in Hk.
      * injection Hk as <-. exists e0. split; [done|].
        rewrite Hother.
        -- rewrite Nat.add_0_r. apply lookup_insert_eq.
        -- intros k _ Heq. apply (inj pretty) in Heq. lia.
      * destruct (Hlook k lls Hk) as (e & He & Hl). exists e. split; [done|].
        by replace (kk + S k + 1) with (S kk + k + 1) by lia.
    + intros key Hkey. rewrite Hother.
      * apply lookup_insert_ne. intros Heq. apply (Hkey 0); simpl; [lia|].
        by rewrite Nat.add_0_r.
      * intros k Hk. replace (S kk + k + 1) with (kk + S k + 1) by lia.
        apply Hkey. simpl. lia.
Qed.

(** The first system that cannot be written decides the exception. *)
Lemma out_LLS_first_failure (systems : list LLSSystem) (kk : nat)
    (d : gmap string lls_entry) (k : nat) (lls : LLSSystem) (err : exn) :
  systems !! k = Some lls →
  (∀ j l, j < k → systems !! j = Some l →
          lls_lines l ≠ [] ∧ all_ascii (comment l) = true) →
  out_entry lls = Raise err →
  out_LLS kk systems d = Raise err.
Proof.
  revert kk d k. induction systems as [|lls0 rest IH]; intros kk d k Hk Hbefore Herr.
  - done.
  - destruct k as [|k]; simpl in Hk.
    + injection Hk as ->. simpl. by rewrite Herr.
    + simpl. destruct (Hbefore 0 lls0 ltac:(lia) eq_refl) as [Hl Ha].
      destruct (out_entry_writable lls0 Hl Ha) as [e0 ->]. simpl.
      apply (IH _ _ k); [done| |done].
      intros j l Hj Hjl. apply (Hbefore (S j) l); [lia|done].
Qed.

Lemma out_LLS_writable (systems : list LLSSystem) (kk : nat) (d : gmap string lls_entry) :
  Forall (λ l, lls_lines l ≠ [] ∧ all_ascii (comment l) = true) systems →
  is_ok (out_LLS kk systems d).
Proof.
  revert kk d. induction systems as [|lls0 rest IH]; intros kk d Hall.
  - by eexists.
  - apply Forall_cons in Hall as [[Hl Ha] Hrest]. simpl.
    destruct (out_entry_writable lls0 Hl Ha) as [e0 ->]. simpl. by apply IH.
Qed.

(** X13: [write_out]: an [AttributeError] without a base continuum; with
    one, the first system that has no line ([IndexError]) or whose
    comment has a character outside ASCII ([UnicodeEncodeError], from
    [str(lls.comment)]) decides the exception, and there is none when
    every system has a line and an ASCII comment.  When the call returns
    only [flag_write] has changed, and the file holds the continuum, the
    smoothing, [zqso] when it is set, and system number [k] (from 0) under
    the key [k+1] in decimal, with the b-value of its first line and its
    comment stripped; it has no other key. *)
Theorem write_out_file (g : gui) :
  (base_continuum g = None → write_out g = Raise AttributeError)
  ∧ (is_Some (base_continuum g) →
     ∀ k lls, all_abssys g !! k = Some lls →
       (∀ j l, j < k → all_abssys g !! j = Some l →
               lls_lines l ≠ [] ∧ all_ascii (comment l) = true) →
       (lls_lines lls = [] → write_out g = Raise IndexError)
       ∧ (lls_lines lls ≠ [] → all_ascii (comment lls) = false →
          write_out g = Raise UnicodeEncodeError))
  ∧ (is_Some (base_continuum g) →
     Forall (λ l, lls_lines l ≠ [] ∧ all_ascii (comment l) = true) (all_abssys g) →
     ∃ g1 doc, write_out g = Ok (g1, doc))
  ∧ (∀ g1 doc, write_out g = Ok (g1, doc) →
       g1 = set_flag_write true g
       ∧ (∃ conti, base_continuum g = Some conti
                   ∧ file_conti doc = Current (conti_dict g) (Some conti))
       ∧ file_spec_file doc = filename (spec g)
       ∧ file_smooth doc = smooth g
       ∧ file_zqso doc = zqso g
       ∧ (∀ k lls, all_abssys g !! k = Some lls →
            ∃ line, head (lls_lines lls) = Some line
              ∧ all_ascii (comment lls) = true
              ∧ file_LLS doc !! pretty (k + 1)
                = Some {| entry_z := zabs lls; entry_NHI := NHI lls;
                          entry_bval := attrib_b line;
                          entry_comment := strip (comment lls) |})
       ∧ (∀ key, (∀ k, k < length (all_abssys g) → key ≠ pretty (k + 1)) →
            file_LLS doc !! key = None)).
Proof.
  unfold write_out. split; [by intros ->|]. split; [|split].
  - intros [conti ->] k lls Hk Hbefore. split.
    + intros Hl.
      rewrite (out_LLS_first_failure _ 0 ∅ k lls IndexError Hk Hbefore); [done|].
      unfold out_entry. by rewrite Hl.
    + intros Hl Ha.
      rewrite (out_LLS_first_failure _ 0 ∅ k lls UnicodeEncodeError Hk Hbefore);
        [done|].
      unfold out_entry, py2_str. destruct (lls_lines lls); [done|]. by rewrite Ha.
  - intros [conti ->] Hall.
    destruct (out_LLS_writable (all_abssys g) 0 ∅ Hall) as [d ->]. simpl. eauto.
  - intros g1 doc Hw. destruct (base_continuum g) as [conti|]; [|done].
    apply bind_Ok in Hw as (d & Hd & Hw). injection Hw as <- <-. simpl.
    destruct (out_LLS_lookup _ _ _ _ Hd) as [Hlook Hother].
    split; [done|]. split; [eauto|]. split; [done|]. split; [done|].
    split; [done|]. split.
    + intros k lls Hk. destruct (Hlook k lls Hk) as (e & He & Hl).
      apply out_entry_Ok in He as (line & rest & Hlines & Ha & ->).
      exists line. rewrite Hlines. split; [done|]. split; [done|]. exact Hl.
    + intros key Hkey. rewrite Hother; [apply lookup_empty|]. exact Hkey.
Qed.

Lemma out_LLS_values (systems : list LLSSystem) (kk : nat)
    (d d' : gmap string lls_entry) (key : string) (e : lls_entry) :
  out_LLS kk systems d = Ok d' → d' !! key = Some e →
  d !! key = Some e ∨ ∃ lls, lls ∈ systems ∧ out_entry lls = Ok e.
Proof.
  revert kk d. induction systems as [|lls0 rest IH]; intros kk d Hd' He.
  - simpl in Hd'. injection Hd' as <-. by left.
  - simpl in Hd'. apply bind_Ok in Hd' as (e0 & He0 & Hd').
    destruct (IH _ _ Hd' He) as [Hl|(lls & Hin & Hout)].
    + destruct (decide (pretty (kk + 1) = key)) as [<-|Hne].
      * rewrite lookup_insert_eq in Hl. injection Hl as <-.
        right. exists lls0. split; [left|done].
      * rewrite lookup_insert_ne in Hl by done. by left.
    + right. exists lls. split; [by right|done].
Qed.

Lemma lookup_entries_values (d : gmap string lls_entry) (keys : list string)
    (es : list lls_entry) (e : lls_entry) :
  lookup_entries d keys = Ok es → e ∈ es → ∃ key, d !! key = Some e.
Proof.
  intros Hes Hin. apply result_mapM_Ok in Hes as [Hlen Hall].
  apply list_elem_of_lookup in Hin as [k Hk].
  destruct (lookup_lt_is_Some_2 keys k) as [key Hkey].
  { rewrite <- Hlen. by eapply lookup_lt_Some. }
  destruct (Hall k key Hkey) as (b & Hb & Hget). rewrite Hk in Hb. injection Hb as <-.
  exists key. unfold getitem in Hget. by destruct (d !! key); simplify_eq.
Qed.

Lemma add_LLS_entries_Forall (P : LLSSystem → Prop) (es : list lls_entry) (g g2 : gui) :
  Forall P (all_abssys g) →
  (∀ e lbl, e ∈ es →
     P (new_LLS (entry_z e) (entry_NHI e) (entry_bval e) (entry_comment e) lbl)) →
  add_LLS_entries es g = Ok g2 →
  Forall P (all_abssys g2).
Proof.
  revert g. induction es as [|e es IH]; intros g Hg HP Hg2.
  - simpl in Hg2. by injection Hg2 as <-.
  - simpl in Hg2. eapply IH; [| |exact Hg2].
    + simpl. apply Forall_app. split; [done|].
      apply Forall_singleton. apply HP. left.
    + intros e' lbl Hin. apply HP. by right.
Qed.

Lemma write_out_inv (g g1 : gui) (doc : lls_file) :
  write_out g = Ok (g1, doc) →
  ∃ conti d,
    base_continuum g = Some conti
    ∧ out_LLS 0 (all_abssys g) ∅ = Ok d
    ∧ doc = {| file_LLS := d; file_conti := Current (conti_dict g) (Some conti);
               file_spec_file := filename (spec g); file_smooth := smooth g;
               file_zqso := zqso g |}.
Proof.
  unfold write_out. destruct (base_continuum g) as [conti|]; [|done].
  intros Hw. apply bind_Ok in Hw as (d & Hd & Hw). injection Hw as <- <-.
  by exists conti, d.
Qed.

Lemma init_LLS_current (d : gmap string lls_entry) (cd : gmap string pyval)
    (conti : list float) (name : string) (sm zq : option float)
    (sp : XSpectrum1D) (g0 : gui) :
  ∃ es g2,
    lookup_entries d (dict_keys d) = Ok es
    ∧ es ≡ₚ (map_to_list d).*2
    ∧ add_LLS_entries es
        (set_continuum
           (from_tuple (dispersion sp) (replicate (length (dispersion sp)) 1%float))
           (set_base_is_flux false
              (set_base_continuum (Some conti) (set_conti_dict cd g0)))) = Ok g2
    ∧ init_LLS {| file_LLS := d; file_conti := Current cd (Some conti);
                  file_spec_file := name; file_smooth := sm; file_zqso := zq |} sp g0
      = Ok (set_zqso zq (set_smooth sm g2))
    ∧ map sys_params (all_abssys g2)
      = map sys_params (all_abssys g0) ++ map entry_params es
    ∧ conti_dict g2 = cd ∧ base_continuum g2 = Some conti.
Proof.
  destruct (lookup_entries_keys d) as (es & Hes & Hperm).
  destruct (add_LLS_entries_spec es
              (set_continuum
                 (from_tuple (dispersion sp) (replicate (length (dispersion sp)) 1%float))
                 (set_base_is_flux false
                    (set_base_continuum (Some conti) (set_conti_dict cd g0)))))
    as (g2 & Hg2 & Hsys & Hc & Hb & _ & _).
  exists es, g2. split; [done|]. split; [done|]. split; [done|]. split.
  - unfold init_LLS. simpl. rewrite Hes. simpl. by rewrite Hg2.
  - done.
Qed.

Lemma round_trip_stripped (g g0 : gui) (sp : XSpectrum1D) :
  Forall lines_synced (all_abssys g) →
  Forall (λ lls, stripped (comment lls)) (all_abssys g) →
  all_abssys g0 = [] →
  round_trip_restores g g0 sp.
Proof.
  intros Hsync Hstrip Hg0 g1 doc Hw.
  apply write_out_inv in Hw as (conti & d & Hbase & Hd & ->).
  assert (Forall (λ lls, all_ascii (comment lls) = true) (all_abssys g)) as Hasc.
  { apply Forall_lookup. intros k lls Hk.
    destruct (proj1 (out_LLS_lookup _ _ _ _ Hd) k lls Hk) as (e & He & _).
    by apply out_entry_Ok in He as (line & rest & _ & Ha & _). }
  destruct (out_LLS_entries (all_abssys g) 0 ∅ Hsync Hasc) as (d' & Hd' & Hperm).
  { intros k _. apply lookup_empty. }
  rewrite Hd in Hd'. injection Hd' as <-.
  rewrite map_to_list_empty, app_nil_r in Hperm.
  destruct (init_LLS_current d (conti_dict g) conti (filename (spec g)) (smooth g)
              (zqso g) sp g0) as (es & g2 & _ & Hes & _ & Hinit & Hsys & Hc & Hb).
  eexists. split; [exact Hinit|]. simpl. rewrite Hc, Hb, Hbase.
  split; [done|]. split; [done|]. split; [done|]. split; [done|].
  rewrite Hsys, Hg0. simpl. rewrite Hes, Hperm, map_map.
  assert (map (λ x, entry_params (entry_of x)) (all_abssys g)
          = map sys_params (all_abssys g)) as ->; [|done].
  apply map_ext_Forall.
  eapply Forall_impl; [exact Hstrip|]. intros lls Hl. unfold stripped in Hl.
  unfold entry_params, entry_of, sys_params. simpl. by rewrite Hl.
Qed.

(** X14: When no comment has white space around it, the round trip restores
    the parameters of every system exactly. *)
Theorem round_trip_exact (g g0 : gui) (sp : XSpectrum1D) :
  Forall lines_synced (all_abssys g) →
  Forall (λ lls, stripped (comment lls)) (all_abssys g) →
  all_abssys g0 = [] →
  round_trip_restores g g0 sp.
Proof. apply round_trip_stripped. Qed.

(** X15: A state read back from a file that [write_out] wrote has stripped
    comments and lines at the b-value of their system, so that writing it
    and reading it again restores it exactly: the round trip changes a
    state at most once. *)
Theorem read_back_round_trips (g g1 g2 g0 : gui) (doc : lls_file) (sp : XSpectrum1D) :
  lines_filled →
  write_out g = Ok (g1, doc) →
  all_abssys g0 = [] →
  init_LLS doc sp g0 = Ok g2 →
  Forall lines_synced (all_abssys g2)
  ∧ Forall (λ lls, stripped (comment lls)) (all_abssys g2)
  ∧ ∀ g0' sp', all_abssys g0' = [] → round_trip_restores g2 g0' sp'.
Proof.
  intros Hfill Hw Hg0 Hinit.
  apply write_out_inv in Hw as (conti & d & Hbase & Hd & ->).
  destruct (init_LLS_current d (conti_dict g) conti (filename (spec g)) (smooth g)
              (zqso g) sp g0) as (es & g2' & Hlook & _ & Hadd & Hinit' & _).
  rewrite Hinit' in Hinit. injection Hinit as <-. simpl.
  assert (Forall (λ lls, lines_synced lls ∧ stripped (comment lls)) (all_abssys g2'))
    as Hall.
  { eapply add_LLS_entries_Forall; [|
      |exact Hadd].
    - simpl. rewrite Hg0. apply Forall_nil_2.
    - intros e lbl Hin. split.
      + destruct (Hfill (entry_z e) (entry_NHI e) (entry_bval e))
          as (line & rest & Hl & Hb).
        exists line, rest. simpl. by rewrite Hl.
      + simpl. destruct (lookup_entries_values _ _ _ _ Hlook Hin) as [key Hkey].
        destruct (out_LLS_values _ _ _ _ _ _ Hd Hkey) as [Hempty|(lls & _ & Hout)].
        * by rewrite lookup_empty in Hempty.
        * apply out_entry_Ok in Hout as (line & rest & _ & _ & ->).
          simpl. apply strip_strip. }
  apply Forall_and in Hall as [Hsync Hstrip].
  split; [done|]. split; [done|].
  intros g0' sp' Hg0'. by apply round_trip_stripped.
Qed.

End FitFileMoreFacts.

(** ** [xfitllsgui.py]: the constructor *)

Section StartupFacts.
Import NumPy Spectra Continuum FitLLS.
Context {numlib : NumLib} {linelib : LineLib} {pydict : PyDict}
        {igmlib : Continuum.IgmLib} {speclib : SpecLib}.

Lemma add_LLS_entries_outside (es : list lls_entry) (g g2 : gui) :
  add_LLS_entries es g = Ok g2 → outside_systems g g2.
Proof.
  revert g. induction es as [|e es IH]; intros g Hg2; simpl in Hg2.
  - injection Hg2 as <-. by repeat split.
  - apply IH in Hg2. unfold outside_systems in *. simpl in Hg2. exact Hg2.
Qed.

Lemma init_LLS_state (doc : lls_file) (sp : XSpectrum1D) (g g' : gui) :
  init_LLS doc sp g = Ok g' →
  lls_model g' = lls_model g ∧ all_forest g' = all_forest g
  ∧ spec g' = spec g ∧ flag_write g' = flag_write g
  ∧ zqso g' = file_zqso doc ∧ smooth g' = file_smooth doc
  ∧ match file_conti doc with
    | Historic d =>
        conti_dict g' = d ∧ base_continuum g' = base_continuum g
        ∧ base_is_flux g' = base_is_flux g
    | Current d c =>
        conti_dict g' = d ∧ base_continuum g' = c ∧ base_is_flux g' = false
    end.
Proof.
  unfold init_LLS. intros Hg.
  apply bind_Ok in Hg as (es & _ & Hg).
  apply bind_Ok in Hg as (g2 & Hg2 & Hg). injection Hg as <-. simpl.
  apply add_LLS_entries_outside in Hg2
    as (Hcd & Hb & Hbf & _ & _ & Hl & _ & _ & Hf & Hs & Hw & _).
  rewrite Hl, Hf, Hs, Hw, Hcd, Hb, Hbf.
  destruct (file_conti doc) as [d|d [c|]]; simpl; done.
Qed.

Lemma init_base_continuum_state (telfer : list Continuum.telfer_row)
    (zq : option float) (template : option XSpectrum1D) (g g' : gui) :
  init_base_continuum telfer zq template g = Ok g' →
  is_Some (base_continuum g')
  ∧ lls_model g' = lls_model g ∧ all_forest g' = all_forest g
  ∧ all_abssys g' = all_abssys g
  ∧ spec g' = spec g ∧ flag_write g' = flag_write g ∧ smooth g' = smooth g
  ∧ match base_continuum g with
    | Some c => g' = g
    | None =>
        zqso g' = zq ∧ base_is_flux g' = true
        ∧ base_continuum g' = Some (flux (continuum g'))
        ∧ (∀ k, k ≠ "piv_wv" → conti_dict g' !! k = conti_dict g !! k)
    end.
Proof.
  unfold init_base_continuum. destruct (base_continuum g) as [c|] eqn:E.
  - intros [= <-]. rewrite E. by eauto 10.
  - intros Hg. apply bind_Ok in Hg as (g1 & Hg1 & Hg). injection Hg as <-. simpl.
    destruct zq as [zq|].
    + apply bind_Ok in Hg1 as (tspec & _ & Hg1). injection Hg1 as <-. simpl.
      repeat (split; [by eauto|]). intros k Hk. by rewrite lookup_insert_ne.
    + injection Hg1 as <-. simpl. by eauto 10.
Qed.

(** What [update_conti] leaves alone, and what it does to the base
    continuum. *)
Lemma update_conti_fields (g g' : gui) :
  update_conti g = Ok g' →
  conti_dict g' = conti_dict g ∧ lls_model g' = lls_model g
  ∧ all_forest g' = all_forest g ∧ all_abssys g' = all_abssys g
  ∧ spec g' = spec g ∧ flag_write g' = flag_write g ∧ smooth g' = smooth g
  ∧ zqso g' = zqso g
  ∧ is_Some (base_continuum g')
  ∧ (base_is_flux g = false ∨ conti_dict g !! "piv_wv2" = None →
     base_continuum g' = base_continuum g ∧ base_is_flux g' = false)
  ∧ (base_is_flux g = true → is_Some (conti_dict g !! "piv_wv2") →
     base_continuum g' = Some (flux (continuum g')) ∧ base_is_flux g' = true).
Proof.
  intros Hg.
  assert (is_Some (base_continuum g)) as Hsome.
  { unfold update_conti in Hg. apply bind_Ok in Hg as (base & Hbase & _).
    destruct (base_continuum g); [eauto|done]. }
  apply update_conti_step in Hg as (f & g1 & Hg1 & Hg).
  assert (conti_dict g1 = conti_dict g ∧ lls_model g1 = lls_model g
          ∧ all_forest g1 = all_forest g ∧ all_abssys g1 = all_abssys g
          ∧ spec g1 = spec g ∧ flag_write g1 = flag_write g ∧ smooth g1 = smooth g
          ∧ zqso g1 = zqso g
          ∧ is_Some (base_continuum g1)
          ∧ (base_is_flux g = false ∨ conti_dict g !! "piv_wv2" = None →
             base_continuum g1 = base_continuum g ∧ base_is_flux g1 = false)
          ∧ (base_is_flux g = true → is_Some (conti_dict g !! "piv_wv2") →
             base_continuum g1 = Some (flux (continuum g1)) ∧ base_is_flux g1 = true))
    as H1.
  { destruct Hg1 as [[[v2 Hv2] ->]|[Hno ->]].
    - unfold write_continuum_flux. destruct (base_is_flux g) eqn:Hflag; simpl.
      + split_and!; try done; try (by eauto). intros [?|?]; congruence.
      + split_and!; try done; try (by eauto); try (by intros [=]).
    - simpl. split_and!; try done; try (by eauto).
      intros _ [v2 Hv2]. congruence. }
  by destruct Hg as [[_ ->]|(m & fm & _ & _ & ->)].
Qed.

(** X16: What the constructor establishes.  It needs a fit file or [zqso];
    the state it leaves has a base continuum and a full model that is the
    absorption model times the continuum; [self.zqso] and the base
    continuum come from the file when the file has a continuum array, and
    [self.zqso] is the argument (even [None]) otherwise. *)
Theorem gui_init_state (sp : XSpectrum1D) (telfer : list Continuum.telfer_row)
    (widgets : widget_init) (lls_fit_file : option lls_file) (outfil : option string)
    (smooth_arg zqso_arg : option float) (template : option XSpectrum1D)
    (dw : float) (skip_wveval : bool) (g' : gui) :
  gui_init sp telfer widgets lls_fit_file outfil smooth_arg zqso_arg template
    dw skip_wveval = Ok g' →
  (is_Some lls_fit_file ∨ is_Some zqso_arg)
  ∧ model_invariant g'
  ∧ is_Some (base_continuum g')
  ∧ spec g' = sp
  ∧ dispersion (full_model g') = dispersion sp
  ∧ all_forest g' = [] ∧ flag_write g' = false
  ∧ (lls_fit_file = None →
     all_abssys g' = [] ∧ lls_model g' = None
     ∧ zqso g' = zqso_arg ∧ smooth g' = smooth_arg)
  ∧ (∀ doc, lls_fit_file = Some doc →
     smooth g' = match file_smooth doc with Some s => Some s | None => smooth_arg end
     ∧ match file_conti doc with
       | Current d (Some c) =>
           zqso g' = file_zqso doc ∧ base_continuum g' = Some c ∧ conti_dict g' = d
       | _ => zqso g' = zqso_arg
       end).
Proof.
  unfold gui_init. intros Hg.
  apply bind_Ok in Hg as (g1 & Hg1 & Hg).
  apply bind_Ok in Hg as (g2 & Hg2 & Hg).
  apply bind_Ok in Hg as (g3 & Hg3 & Hg).
  set (g0 := blank_gui sp outfil dw skip_wveval widgets) in *.
  apply init_base_continuum_state in Hg2
    as (Hb2 & Hl2 & Hf2 & Ha2 & Hs2 & Hw2 & Hsm2 & Hz2).
  apply update_conti_fields in Hg3
    as (Hc3 & Hl3 & Hf3 & Ha3 & Hs3 & Hw3 & Hsm3 & Hz3 & Hb3 & Hown3 & _).
  assert (lls_model g1 = None ∧ all_forest g1 = [] ∧ spec g1 = sp
          ∧ flag_write g1 = false) as (Hl1 & Hf1 & Hs1 & Hw1).
  { unfold init_continuum_dict in Hg1. destruct lls_fit_file as [doc|].
    - by apply init_LLS_state in Hg1 as (-> & -> & -> & -> & _).
    - destruct zqso_arg as [zq|]; [|done].
      apply bind_Ok in Hg1 as (d & _ & Hg1). by injection Hg1 as <-. }
  set (g5 := match smooth _ with Some _ => _ | None => _ end) in Hg.
  assert (lls_model g5 = None ∧ all_forest g5 = [] ∧ spec g5 = sp
          ∧ flag_write g5 = false ∧ base_continuum g5 = base_continuum g3
          ∧ zqso g5 = zqso g2 ∧ conti_dict g5 = conti_dict g2
          ∧ all_abssys g5 = all_abssys g1
          ∧ smooth g5 = match smooth g1 with Some s => Some s | None => smooth_arg end
          ∧ dispersion (full_model g5) = dispersion sp)
    as (Hl5 & Hf5 & Hs5 & Hw5 & Hb5 & Hz5 & Hc5 & Ha5 & Hsm5 & Hd5).
  { unfold g5. simpl. rewrite Hsm3, Hsm2.
    destruct (smooth g1) eqn:Hsm1'; simpl;
      rewrite ?Hl3, ?Hf3, ?Hs3, ?Hw3, ?Ha3, ?Hz3, ?Hc3, ?Hsm3, ?Hsm2,
        ?Hl2, ?Hf2, ?Hs2, ?Hw2, ?Ha2;
      done. }
  clearbody g5.
  split.
  { unfold init_continuum_dict in Hg1. destruct lls_fit_file; [left; eauto|].
    destruct zqso_arg; [right; eauto|done]. }
  destruct lls_fit_file as [doc|].
  - unfold init_continuum_dict in Hg1.
    apply init_LLS_state in Hg1 as (_ & _ & _ & _ & Hz1 & Hsm1 & Hconti).
    pose proof (update_model_invariant _ _ Hg) as Hinv.
    assert (base_continuum g' = base_continuum g5 ∧ spec g' = spec g5
            ∧ dispersion (full_model g') = dispersion (full_model g5)
            ∧ all_forest g' = all_forest g5 ∧ flag_write g' = flag_write g5
            ∧ smooth g' = smooth g5 ∧ zqso g' = zqso g5
            ∧ conti_dict g' = conti_dict g5) as (Hb & Hs & Hd & Hf & Hw & Hsm & Hz & Hc).
    { destruct (decide (all_abssys g5 = [])) as [Hnil|Hne].
      - unfold update_model in Hg. rewrite Hnil in Hg. simpl in Hg.
        by injection Hg as <-.
      - by apply update_model_nonempty in Hg
          as (wa1 & tau & fm & bad & _ & _ & _ & _ & ->). }
    split; [done|]. split; [by rewrite Hb, Hb5|]. split; [congruence|].
    split; [congruence|]. split; [congruence|]. split; [congruence|].
    split; [done|]. intros doc' [= <-]. split; [by rewrite Hsm, Hsm5, Hsm1|].
    rewrite Hz, Hz5, Hb, Hb5, Hc, Hc5.
    destruct (file_conti doc) as [d|d [c|]]; destruct Hconti as (Hcd & Hbc & Hflag).
    + rewrite Hbc in Hz2. by destruct Hz2.
    + rewrite Hbc in Hz2. subst g2.
      destruct (Hown3 ltac:(by left)) as [-> _]. by rewrite Hz1, Hbc, Hcd.
    + rewrite Hbc in Hz2. by destruct Hz2.
  - injection Hg as <-.
    split; [intros m Hm; congruence|]. split; [by rewrite Hb5|].
    split; [done|]. split; [done|]. split; [done|]. split; [done|].
    split; [|done]. intros _.
    unfold init_continuum_dict in Hg1. destruct zqso_arg as [zq|]; [|done].
    apply bind_Ok in Hg1 as (d & _ & Hg1). injection Hg1 as <-.
    simpl in *. rewrite Ha5, Hsm5, Hz5. by destruct Hz2.
Qed.

Lemma update_model_base (g g' : gui) :
  update_model g = Ok g' →
  base_continuum g' = base_continuum g ∧ base_is_flux g' = base_is_flux g
  ∧ continuum g' = continuum g.
Proof.
  intros Hg. destruct (decide (all_abssys g = [])) as [Hnil|Hne].
  - unfold update_model in Hg. rewrite Hnil in Hg. simpl in Hg.
    by injection Hg as <-.
  - by apply update_model_nonempty in Hg
      as (wa1 & tau & fm & bad & _ & _ & _ & _ & ->).
Qed.

(** X17: when the constructor makes the base continuum itself (no file,
    or a file without a continuum array) it binds it to the array of the
    continuum.  Without a second pivot in the dictionary (always so
    without a file) the first [update_conti] gives the continuum an array
    of its own; with a second pivot it writes the tilted continuum into
    the shared array, and the state the constructor leaves has the tilted
    continuum as its base continuum, still shared. *)
Theorem gui_init_base_shared (sp : XSpectrum1D) (telfer : list Continuum.telfer_row)
    (widgets : widget_init) (lls_fit_file : option lls_file) (outfil : option string)
    (smooth_arg zqso_arg : option float) (template : option XSpectrum1D)
    (dw : float) (skip_wveval : bool) (g' : gui) :
  gui_init sp telfer widgets lls_fit_file outfil smooth_arg zqso_arg template
    dw skip_wveval = Ok g' →
  (lls_fit_file = None → base_is_flux g' = false)
  ∧ (∀ doc, lls_fit_file = Some doc →
     match file_conti doc with
     | Current d (Some c) => base_is_flux g' = false
     | Historic d | Current d None =>
         (d !! "piv_wv2" = None → base_is_flux g' = false)
         ∧ (is_Some (d !! "piv_wv2") →
            base_is_flux g' = true
            ∧ base_continuum g' = Some (flux (continuum g')))
     end).
Proof.
  unfold gui_init. intros Hg.
  apply bind_Ok in Hg as (g1 & Hg1 & Hg).
  apply bind_Ok in Hg as (g2 & Hg2 & Hg).
  apply bind_Ok in Hg as (g3 & Hg3 & Hg).
  set (g0 := blank_gui sp outfil dw skip_wveval widgets) in *.
  apply init_base_continuum_state in Hg2 as (_ & _ & _ & _ & _ & _ & _ & Hz2).
  apply update_conti_fields in Hg3
    as (_ & _ & _ & _ & _ & _ & _ & _ & _ & Hown3 & Hshared3).
  set (g5 := match smooth _ with Some _ => _ | None => _ end) in Hg.
  assert (base_continuum g5 = base_continuum g3 ∧ base_is_flux g5 = base_is_flux g3
          ∧ continuum g5 = continuum g3) as (Hb5 & Hf5 & Hc5).
  { unfold g5. simpl. by destruct (smooth g3). }
  clearbody g5.
  assert (∀ d, conti_dict g1 = d → base_continuum g1 = None →
            (d !! "piv_wv2" = None → base_is_flux g3 = false)
            ∧ (is_Some (d !! "piv_wv2") →
               base_is_flux g3 = true
               ∧ base_continuum g3 = Some (flux (continuum g3)))) as Hmade.
  { intros d Hd Hnone. rewrite Hnone in Hz2. destruct Hz2 as (_ & Hflag & _ & Hdict).
    rewrite <- Hd, <- (Hdict "piv_wv2") by done. split.
    - intros Hno. by destruct (Hown3 ltac:(by right)).
    - intros Hsome. destruct (Hshared3 Hflag Hsome). done. }
  destruct lls_fit_file as [doc|].
  - split; [done|]. intros doc' [= <-].
    apply update_model_base in Hg as (Hb & Hf & Hc).
    rewrite Hb, Hf, Hc, Hb5, Hf5, Hc5.
    unfold init_continuum_dict in Hg1.
    apply init_LLS_state in Hg1 as (_ & _ & _ & _ & _ & _ & Hconti).
    destruct (file_conti doc) as [d|d [c|]]; destruct Hconti as (Hcd & Hbc & Hflag).
    + by apply Hmade.
    + rewrite Hbc in Hz2. subst g2.
      by destruct (Hown3 ltac:(by left)).
    + by apply Hmade.
  - injection Hg as <-. split; [|done]. intros _. rewrite Hf5.
    unfold init_continuum_dict in Hg1. destruct zqso_arg as [zq|]; [|done].
    apply bind_Ok in Hg1 as (d & Hd & Hg1). injection Hg1 as <-.
    apply (Hmade d); [done|done|].
    unfold Continuum.init_conti_dict in Hd.
    destruct (py2_gt None (1215 * (1 + zq))); [done|]. injection Hd as <-.
    apply lookup_delete_eq.
Qed.

End StartupFacts.

(** * The further properties on the example inputs *)

Section MoreRuns.
Import NumPy Spectra Continuum Field FitLLS Example.

(** The observing dates of mask A of the example field. *)
Lemma get_mask_obsdate_rows_witness :
  get_mask_obsdate toy_field "A" = Ok [Some "2014-11-29"].
Proof.
  rewrite (get_mask_obsdate_rows toy_field
             [ {| obs_MASK_NAME := "A"; DATE_OBS := Some "2014-11-29" |};
               {| obs_MASK_NAME := "B"; DATE_OBS := None |} ] "A"
             ltac:(reflexivity)).
  vm_compute. reflexivity.
Defined.

(** The observed targets of the example field within 5 arcmin. *)
Lemma get_observed_table_witness :
  ∃ obs_dict,
    get_observed (astro := flat_sky) toy_field 5 None = Ok (Some ([target_A], obs_dict))
    ∧ obs_dict !! "A" = Some [Some "2014-11-29"].
Proof.
  assert (targets_within (astro := flat_sky) toy_field 5 = [target_A; target_B]) as Hin
    by (vm_compute; reflexivity).
  destruct (get_observed_table (astro := flat_sky) toy_field 5
              [target_A; target_B]
              [ {| obs_MASK_NAME := "A"; DATE_OBS := Some "2014-11-29" |};
                {| obs_MASK_NAME := "B"; DATE_OBS := None |} ]
              ltac:(reflexivity) ltac:(reflexivity))
    as (obs_dict & Hrun & Hdict).
  - rewrite Hin. vm_compute. discriminate.
  - intros t m Ht Hm. rewrite Hin in Ht.
    apply elem_of_cons in Ht as [->|Ht].
    + injection Hm as <-. vm_compute. discriminate.
    + apply list_elem_of_singleton in Ht as ->.
      injection Hm as <-. vm_compute. discriminate.
  - exists obs_dict. split.
    + rewrite Hrun, Hin. vm_compute. reflexivity.
    + apply Hdict. split; [|split].
      * exists target_A. split; [|reflexivity]. rewrite Hin. apply elem_of_cons. by left.
      * vm_compute. reflexivity.
      * vm_compute. reflexivity.
Defined.

(** A target on a mask the observing table does not know. *)
Lemma get_observed_unknown_mask_witness :
  get_observed (astro := flat_sky) stray_field 5 None = Raise IndexError
  ∧ get_unobserved (astro := flat_sky) stray_field 5 = Raise IndexError.
Proof.
  apply (get_observed_unknown_mask (astro := flat_sky) stray_field 5
           [target_C]
           [ {| obs_MASK_NAME := "A"; DATE_OBS := Some "2014-11-29" |} ]
           target_C "C" ltac:(reflexivity) ltac:(reflexivity)).
  - replace (targets_within (astro := flat_sky) stray_field 5) with [target_C]
      by (vm_compute; reflexivity).
    apply list_elem_of_singleton. reflexivity.
  - reflexivity.
  - vm_compute. reflexivity.
Defined.

(** A field whose targets have no mask yet. *)
Lemma get_unobserved_no_mask_witness :
  get_observed (astro := flat_sky) unmasked_field 5 None = Ok None
  ∧ get_unobserved (astro := flat_sky) unmasked_field 5 = Raise TypeError.
Proof.
  apply (get_unobserved_no_mask (astro := flat_sky) unmasked_field 5
           [ {| TARG_RA := 10%float; TARG_DEC := 1%float; MASK_NAME := None |} ]
           [ {| obs_MASK_NAME := "A"; DATE_OBS := Some "2014-11-29" |} ]
           ltac:(reflexivity) ltac:(reflexivity)).
  - vm_compute. discriminate.
  - vm_compute. reflexivity.
Defined.

(** The example template with IGM opacity switched on. *)
Lemma get_telfer_spec_igm_witness :
  ∃ sp, get_telfer_spec (numlib := toy_numlib) (igmlib := no_igm) toy_telfer 2
          true None false = Ok sp
    ∧ flux sp !! 1 = Some (igm_flux (numlib := toy_numlib) (igmlib := no_igm) 2 None 2
                             {| wrest := 1450%float; tflux := 2%float |}).
Proof.
  destruct (get_telfer_spec_igm (numlib := toy_numlib) (igmlib := no_igm)
              toy_telfer 2 None 2 ltac:(vm_compute; reflexivity))
    as [(sp & Hsp & Hflux) _].
  exists sp. split; [exact Hsp|]. apply Hflux. reflexivity.
Defined.

(** [update_conti] twice on the example GUI, whose base continuum is an
    array of its own, and once on the GUI whose base continuum is the
    array of its continuum. *)
Lemma update_conti_idempotent_witness :
  (∃ g', update_conti (numlib := toy_numlib) toy_gui = Ok g'
     ∧ update_conti (numlib := toy_numlib) g' = Ok g')
  ∧ (∃ g', update_conti (numlib := toy_numlib) shared_gui = Ok g'
       ∧ base_continuum g' = Some (flux (continuum g'))).
Proof.
  split.
  - destruct (update_conti (numlib := toy_numlib) toy_gui) as [g'|e] eqn:Hrun;
      [|vm_compute in Hrun; discriminate].
    exists g'. split; [reflexivity|].
    apply (update_conti_idempotent (numlib := toy_numlib) toy_gui g' Hrun).
    left. reflexivity.
  - destruct (update_conti (numlib := toy_numlib) shared_gui) as [g'|e] eqn:Hrun;
      [|vm_compute in Hrun; discriminate].
    exists g'. split; [reflexivity|].
    apply (update_conti_idempotent (numlib := toy_numlib) shared_gui g' Hrun).
    + reflexivity.
    + vm_compute. eauto.
Defined.

(** On that second GUI every call tilts the continuum again. *)
Example update_conti_compounds :
  ∃ g1 g2,
    update_conti (numlib := toy_numlib) shared_gui = Ok g1
    ∧ update_conti (numlib := toy_numlib) g1 = Ok g2
    ∧ flux (continuum g1) !! 0 = Some 0.45%float
    ∧ flux (continuum g2) !! 0 = Some 0.2025%float.
Proof.
  eexists _, _. split; [vm_compute; reflexivity|]. split; [vm_compute; reflexivity|].
  vm_compute. auto.
Qed.

(** The flagged pixels of the model of the example GUI with one system. *)
Lemma update_model_bad_pixels_witness :
  ∃ g' m,
    update_model (numlib := toy_numlib) (linelib := toy_linelib) commented_gui = Ok g'
    ∧ lls_model g' = Some m
    ∧ ∀ i, i ∈ bad_model g' →
        ∃ mi, m !! i = Some mi ∧ PrimFloat.ltb mi 0.7 = true.
Proof.
  destruct (update_model (numlib := toy_numlib) (linelib := toy_linelib) commented_gui)
    as [g'|e] eqn:Hrun; [|vm_compute in Hrun; discriminate].
  destruct (lls_model g') as [m|] eqn:Hm.
  2: { exfalso. vm_compute in Hrun. injection Hrun as <-. vm_compute in Hm. discriminate. }
  exists g', m. split; [reflexivity|]. split; [exact Hm|].
  intros i Hi.
  assert (length m = 31) as Hlen.
  { vm_compute in Hrun. injection Hrun as <-. vm_compute in Hm. injection Hm as <-.
    reflexivity. }
  destruct (proj1 (update_model_bad_pixels (numlib := toy_numlib) (linelib := toy_linelib)
              commented_gui g' m ltac:(discriminate) Hrun Hm Hlen
              ltac:(reflexivity) ltac:(reflexivity) i) Hi)
    as (mi & _ & _ & _ & Hmi & _ & _ & _ & Hlt & _).
  exists mi. auto.
Defined.

(** Adding a system to the example GUI keeps the labels apart. *)
Lemma labels_stay_unique_witness :
  ∃ g', run_op (numlib := toy_numlib) (linelib := toy_linelib)
          (OpAddLLS 0.03 17.3 20 "blend" true) blend_gui = Ok g'
    ∧ labels_wf g'.
Proof.
  assert (labels_wf blend_gui) as Hwf.
  { split.
    - apply NoDup_singleton.
    - intros lls Hin. apply list_elem_of_singleton in Hin as ->.
      exists 1. split; [simpl; lia|reflexivity]. }
  destruct (run_op (numlib := toy_numlib) (linelib := toy_linelib)
              (OpAddLLS 0.03 17.3 20 "blend" true) blend_gui) as [g'|e] eqn:Hrun;
    [|vm_compute in Hrun; discriminate].
  exists g'. split; [reflexivity|].
  exact (labels_stay_unique (numlib := toy_numlib) (linelib := toy_linelib)
           _ blend_gui g' Hwf Hrun).
Defined.

(** The padded window of [auto_plls] on the example spectrum. *)
Lemma auto_plls_window_witness :
  ∃ s amin amax,
    auto_plls_setup (numlib := toy_numlib) (linelib := toy_linelib) toy_gui 911.7 0.5
    = Ok s
    ∧ np_min_idx (apix s) = Ok amin ∧ np_max_idx (apix s) = Ok amax
    ∧ (Z.of_nat amax + nroll s < 31)%Z.
Proof.
  destruct (auto_plls_setup (numlib := toy_numlib) (linelib := toy_linelib)
              toy_gui 911.7 0.5) as [s|e] eqn:Hrun;
    [|vm_compute in Hrun; discriminate].
  destruct (auto_plls_window (numlib := toy_numlib) (linelib := toy_linelib)
              toy_gui 911.7 0.5 s Hrun)
    as (amin & amax & Hmin & Hmax & _ & _ & Hlt & _).
  exists s, amin, amax. auto.
Defined.

(** The round trip of the example GUI whose comment is stripped. *)
Lemma round_trip_exact_witness :
  round_trip_restores (numlib := toy_numlib) (linelib := toy_linelib)
    (pydict := listing_order) blend_gui toy_gui toy_spec.
Proof.
  apply (round_trip_exact (numlib := toy_numlib) (linelib := toy_linelib)
           (pydict := listing_order) blend_gui toy_gui toy_spec).
  - apply Forall_cons. split; [|apply Forall_nil_2].
    eexists _, _. split; reflexivity.
  - apply Forall_cons. split; [|apply Forall_nil_2]. reflexivity.
  - reflexivity.
Defined.

(** What is read back from the file of the example GUI round-trips. *)
Lemma read_back_round_trips_witness :
  ∃ g1 doc g2,
    write_out commented_gui = Ok (g1, doc)
    ∧ init_LLS (numlib := toy_numlib) (linelib := toy_linelib)
        (pydict := listing_order) doc toy_spec toy_gui = Ok g2
    ∧ round_trip_restores (numlib := toy_numlib) (linelib := toy_linelib)
        (pydict := listing_order) g2 toy_gui toy_spec.
Proof.
  destruct (write_out commented_gui) as [[g1 doc]|e] eqn:Hw;
    [|vm_compute in Hw; discriminate].
  destruct (init_LLS (numlib := toy_numlib) (linelib := toy_linelib)
              (pydict := listing_order) doc toy_spec toy_gui) as [g2|e] eqn:Hinit.
  2: { exfalso. vm_compute in Hw. injection Hw as <- <-.
       vm_compute in Hinit. discriminate. }
  exists g1, doc, g2. split; [reflexivity|]. split; [exact Hinit|].
  assert (lines_filled (linelib := toy_linelib)) as Hfill.
  { intros z nhi b. eexists _, _. split; reflexivity. }
  destruct (read_back_round_trips (numlib := toy_numlib) (linelib := toy_linelib)
              (pydict := listing_order) commented_gui g1 g2 toy_gui doc toy_spec
              Hfill Hw ltac:(reflexivity) Hinit) as (_ & _ & Hrt).
  apply Hrt. reflexivity.
Defined.

(** The constructor on the example spectrum, with [zqso] and no file. *)
Lemma gui_init_state_witness :
  ∃ g', gui_init (numlib := toy_numlib) (linelib := toy_linelib)
          (pydict := listing_order) (igmlib := no_igm) (speclib := toy_speclib)
          toy_spec toy_telfer toy_widgets None None (Some 3%float) (Some 0.05%float)
          None 0.1 true = Ok g'
    ∧ zqso g' = Some 0.05%float ∧ all_abssys g' = [] ∧ is_Some (base_continuum g').
Proof.
  destruct (gui_init (numlib := toy_numlib) (linelib := toy_linelib)
          (pydict := listing_order) (igmlib := no_igm) (speclib := toy_speclib)
          toy_spec toy_telfer toy_widgets None None (Some 3%float) (Some 0.05%float)
          None 0.1 true) as [g'|e] eqn:Hrun; [|vm_compute in Hrun; discriminate].
  destruct (gui_init_state (numlib := toy_numlib) (linelib := toy_linelib)
          (pydict := listing_order) (igmlib := no_igm) (speclib := toy_speclib)
          _ _ _ _ _ _ _ _ _ _ g' Hrun)
    as (_ & _ & Hb & _ & _ & _ & _ & Hnone & _).
  destruct (Hnone eq_refl) as (Ha & _ & Hz & _).
  exists g'. auto.
Defined.

(** The constructor on the historic file, without [zqso]. *)
Lemma gui_init_base_shared_witness :
  ∃ g', gui_init (numlib := toy_numlib) (linelib := toy_linelib)
          (pydict := listing_order) (igmlib := no_igm) (speclib := toy_speclib)
          toy_spec toy_telfer toy_widgets (Some historic_doc) None (Some 3%float) None
          None 0.1 true = Ok g'
    ∧ base_is_flux g' = true
    ∧ base_continuum g' = Some (flux (continuum g')).
Proof.
  destruct (gui_init (numlib := toy_numlib) (linelib := toy_linelib)
          (pydict := listing_order) (igmlib := no_igm) (speclib := toy_speclib)
          toy_spec toy_telfer toy_widgets (Some historic_doc) None (Some 3%float) None
          None 0.1 true) as [g'|e] eqn:Hrun; [|vm_compute in Hrun; discriminate].
  destruct (proj2 (gui_init_base_shared (numlib := toy_numlib) (linelib := toy_linelib)
          (pydict := listing_order) (igmlib := no_igm) (speclib := toy_speclib)
          _ _ _ _ _ _ _ _ _ _ g' Hrun) historic_doc eq_refl) as [_ Hshared].
  exists g'. split; [reflexivity|]. apply Hshared. vm_compute. eauto.
Defined.

End MoreRuns.
